(** * SparkAgent: the task-graph scheduler of [App] and the single-task
      executor of [services/geminiService], as a shallow embedding.

    The task list ([tasksRef.current]) is a [list AgentTask]; the result
    table ([taskResultsMap], a JS [Map<string, SearchResult>]) is a
    [gmap string SearchResult].  One pass of the body of the [while (true)]
    loop of [processQueue] is one computation in a small state monad over
    the run state; the asynchronous interleaving of timer wake-ups, executor
    settlements, priority toggles and polls of the wait loop is a
    deterministic [step] function over explicit events. *)

From Stdlib Require Import Ascii List Bool Arith Lia.
From stdpp Require Import base option list gmap strings pretty.
Import ListNotations.
Local Open Scope string_scope.
Local Open Scope list_scope.

(** ** Data model ([types.ts]) *)

Inductive Status := Pending | Running | Completed | Failed.
Inductive Priority := Normal | High.

Record Source := {
  src_title : string;
  src_url : string;
  src_snippet : option string;
  src_source : option string
}.

Record SearchResult := {
  text : string;
  sources : list Source
}.

Record AgentTask := {
  id : string;
  title : string;
  agentRole : string;
  description : option string;
  goal : string;
  status : Status;
  priority : option Priority;
  dependencies : option (list string);
  result : option SearchResult
}.

Definition Status_eqb (a b : Status) : bool :=
  match a, b with
  | Pending, Pending | Running, Running
  | Completed, Completed | Failed, Failed => true
  | _, _ => false
  end.

Definition is_high (p : option Priority) : bool :=
  match p with Some High => true | _ => false end.

(** [{ ...t, status }] and [{ ...t, priority }]: object spread with one
    field overwritten. *)
Definition with_status (t : AgentTask) (st : Status) : AgentTask :=
  {| id := id t; title := title t; agentRole := agentRole t;
     description := description t; goal := goal t; status := st;
     priority := priority t; dependencies := dependencies t;
     result := result t |}.

Definition with_priority (t : AgentTask) (p : option Priority) : AgentTask :=
  {| id := id t; title := title t; agentRole := agentRole t;
     description := description t; goal := goal t; status := status t;
     priority := p; dependencies := dependencies t;
     result := result t |}.

Definition with_dependencies (t : AgentTask) (d : option (list string)) : AgentTask :=
  {| id := id t; title := title t; agentRole := agentRole t;
     description := description t; goal := goal t; status := status t;
     priority := priority t; dependencies := d;
     result := result t |}.

(** The JS [a || b] on strings: the empty string and [undefined] are falsy. *)
Definition or_default (o : option string) (d : string) : string :=
  match o with
  | Some EmptyString => d
  | Some s => s
  | None => d
  end.

(** ** Task-list edits of the user interface *)

(** The callback of [tasks.map] in [toggleTaskPriority]. *)
Definition toggle_one (taskId : string) (t : AgentTask) : AgentTask :=
  if String.eqb (id t) taskId && Status_eqb (status t) Pending
  then with_priority t (Some (if is_high (priority t) then Normal else High))
  else t.

(** The [update] closure of [toggleTaskPriority]. *)
Definition toggleTaskPriority (taskId : string) (tasks : list AgentTask) : list AgentTask :=
  map (toggle_one taskId) tasks.

(** The [update] closure of [handleDeleteTask]:
    [t.dependencies?.filter(d => d !== taskId) || []]. *)
Definition handleDeleteTask (taskId : string) (tasks : list AgentTask) : list AgentTask :=
  map (fun t =>
         with_dependencies t
           (Some (match dependencies t with
                  | Some ds => List.filter (fun d => negb (String.eqb d taskId)) ds
                  | None => []
                  end)))
      (List.filter (fun t => negb (String.eqb (id t) taskId)) tasks).

(** The [update] closure of [updateStatus]. *)
Definition updateStatus_list (i : string) (st : Status) (l : list AgentTask) : list AgentTask :=
  map (fun t => if String.eqb (id t) i then with_status t st else t) l.

(** The dependency ids of a task ([undefined] is no dependency). *)
Definition deps_of (t : AgentTask) : list string :=
  match dependencies t with Some ds => ds | None => [] end.

Definition has_status (st : Status) (t : AgentTask) : bool :=
  Status_eqb (status t) st.

(** ** The single-task executor ([executeResearchTask]) *)

(** What a promise settles to. *)
Inductive Settled (A : Type) :=
| Fulfilled (value : A)
| Rejected (reason : string).
Arguments Fulfilled {A} value.
Arguments Rejected {A} reason.

(** The parts of a [GenerateContentResponse] the executor reads. *)
Record WebChunk := {
  web_title : option string;
  web_uri : option string
}.
Record GroundingChunk := { web : option WebChunk }.
Record GroundingMetadata := { groundingChunks : option (list GroundingChunk) }.
Record Candidate := { groundingMetadata : option GroundingMetadata }.
Record GenerateContentResponse := {
  response_text : option string;
  candidates : option (list Candidate)
}.

(** [s.replace(pat, rep)] with a string pattern: the first occurrence only. *)
Fixpoint replace_first (pat rep s : string) : string :=
  if String.prefix pat s
  then rep +:+ String.substring (String.length pat) (String.length s - String.length pat) s
  else match s with
       | EmptyString => EmptyString
       | String c s' => String c (replace_first pat rep s')
       end.

(** [a.findIndex(p)], with [None] for [-1]. *)
Fixpoint findIndex {A : Type} (p : A -> bool) (a : list A) : option nat :=
  match a with
  | [] => None
  | x :: a' => if p x then Some 0 else option_map S (findIndex p a')
  end.

(** [a.filter((v, i, a) => a.findIndex(t => t.url === v.url) === i)]. *)
Fixpoint filter_index {A : Type} (p : A -> nat -> bool) (i : nat) (a : list A) : list A :=
  match a with
  | [] => []
  | v :: a' => if p v i then v :: filter_index p (S i) a' else filter_index p (S i) a'
  end.

Definition dedup_by_url (a : list Source) : list Source :=
  filter_index
    (fun v i =>
       match findIndex (fun t => String.eqb (src_url t) (src_url v)) a with
       | Some j => Nat.eqb j i
       | None => false
       end) 0 a.

Section Executor.
(** [new URL(u).hostname]; [None] when the constructor throws a
    [TypeError] on an invalid URL. *)
Variable url_hostname : string -> option string.

(** The body of the [chunks.forEach] callback of [extractSources]: the
    sources pushed so far, or the exception that aborts the loop. *)
Fixpoint push_chunks (chunks : list GroundingChunk) (acc : list Source)
  : string + list Source :=
  match chunks with
  | [] => inr acc
  | chunk :: rest =>
      match web chunk with
      | Some w =>
          match url_hostname (or_default (web_uri w) "https://google.com") with
          | Some host =>
              push_chunks rest
                (acc ++ [ {| src_title := or_default (web_title w) "Web Source";
                             src_url := or_default (web_uri w) "#";
                             src_snippet := Some "";
                             src_source := Some (replace_first "www." "" host) |} ])
          | None => inl "TypeError: Invalid URL"
          end
      | None => push_chunks rest acc
      end
  end.

Definition extractSources (response : GenerateContentResponse) : string + list Source :=
  match candidates response with
  | None | Some [] => inr []
  | Some (c :: _) =>
      match groundingMetadata c with
      | None => inr []
      | Some gm =>
          match groundingChunks gm with
          | None => inr []
          | Some chunks =>
              match push_chunks chunks [] with
              | inl e => inl e
              | inr srcs => inr (dedup_by_url srcs)
              end
          end
      end
  end.

(** The [try] block of [executeResearchTask], given what the awaited
    [ai.models.generateContent] call settled to.  The request sent to the
    backend is built from [task.agentRole], [task.description],
    [task.goal] and [sharedContext] only; its text plays no part here. *)
Definition try_block (backend : Settled GenerateContentResponse)
  : string + SearchResult :=
  match backend with
  | Rejected e => inl e
  | Fulfilled response =>
      let text := or_default (response_text response) "No information found." in
      match extractSources response with
      | inl e => inl e
      | inr sources => inr {| text := text; sources := sources |}
      end
  end.

(** The result returned from the [catch] block. *)
Definition failure_placeholder : SearchResult :=
  {| text := "Failed to retrieve information for this task."; sources := [] |}.

Definition executeResearchTask (task : AgentTask) (sharedContext : string)
    (backend : Settled GenerateContentResponse) : Settled SearchResult :=
  match try_block backend with
  | inr r => Fulfilled r
  | inl _ => Fulfilled failure_placeholder
  end.
End Executor.

(** ** The scheduler ([handleStartExecution], [processQueue]) *)

Definition MAX_CONCURRENCY : nat := 2.

(** A call [executeResearchTask(nextTask, contextString)] made by the
    scheduler, and whether its promise has settled. *)
Record ExecutorCall := {
  call_task : AgentTask;
  call_context : string;
  call_settled : bool
}.

(** Where the body of [handleStartExecution] stands. *)
Inductive MainPhase :=
| NotStarted
| AwaitingQueue
| WaitLoop
| Synthesizing (finalResults : list (AgentTask * SearchResult)).

(** [tasksRef] holds [tasksRef.current]; [calls] the promises created so
    far, oldest first; [spawned] the number of activations of
    [processQueue] started by a completion handler that are suspended in
    the 50 ms delay at the end of the loop body.  The activation awaited
    by [handleStartExecution] is suspended there exactly when [phase] is
    [AwaitingQueue]. *)
Record RunState := {
  tasksRef : list AgentTask;
  taskResultsMap : gmap string SearchResult;
  calls : list ExecutorCall;
  spawned : nat;
  phase : MainPhase
}.

(** The loop body and the completion handler read and write the run
    state: a state monad over it. *)
Definition M (A : Type) : Type := RunState -> A * RunState.

#[global] Instance M_ret : MRet M := fun A (a : A) s => (a, s).

#[global] Instance M_bind : MBind M :=
  fun A B (k : A -> M B) (m : M A) s => let (a, s') := m s in k a s'.

Definition readTasks : M (list AgentTask) := fun s => (tasksRef s, s).

Definition readResults : M (gmap string SearchResult) :=
  fun s => (taskResultsMap s, s).

Definition updateStatus (i : string) (st : Status) : M unit :=
  fun s => (tt, {| tasksRef := updateStatus_list i st (tasksRef s);
                   taskResultsMap := taskResultsMap s;
                   calls := calls s;
                   spawned := spawned s;
                   phase := phase s |}).

Definition setResult (i : string) (r : SearchResult) : M unit :=
  fun s => (tt, {| tasksRef := tasksRef s;
                   taskResultsMap := <[i := r]> (taskResultsMap s);
                   calls := calls s;
                   spawned := spawned s;
                   phase := phase s |}).

Definition dispatch (t : AgentTask) (ctx : string) : M unit :=
  fun s => (tt, {| tasksRef := tasksRef s;
                   taskResultsMap := taskResultsMap s;
                   calls := calls s ++ [ {| call_task := t; call_context := ctx;
                                            call_settled := false |} ];
                   spawned := spawned s;
                   phase := phase s |}).

(** The three snapshots taken at the top of the loop body. *)
Definition pending_of (currentTasks : list AgentTask) : list AgentTask :=
  List.filter (has_status Pending) currentTasks.
Definition running_of (currentTasks : list AgentTask) : list AgentTask :=
  List.filter (has_status Running) currentTasks.
Definition completed_of (currentTasks : list AgentTask) : list AgentTask :=
  List.filter (has_status Completed) currentTasks.

(** The callback of [pending.filter] that computes [executableTasks]. *)
Definition dependencies_met (completed : list AgentTask) (t : AgentTask) : bool :=
  match dependencies t with
  | None | Some [] => true
  | Some ds =>
      forallb (fun depId => existsb (fun c => String.eqb (id c) depId) completed) ds
  end.

Definition executableTasks (currentTasks : list AgentTask) : list AgentTask :=
  List.filter (dependencies_met (completed_of currentTasks)) (pending_of currentTasks).

(** [executableTasks.find(t => t.priority === 'high') || executableTasks[0]]. *)
Definition pick_next (executable : list AgentTask) : option AgentTask :=
  match List.find (fun t => is_high (priority t)) executable with
  | Some t => Some t
  | None => head executable
  end.

(** One block of the context string. *)
Definition context_block (results : gmap string SearchResult) (t : AgentTask) : string :=
  "[Context from Agent: " +:+ agentRole t +:+ " (Task: " +:+ title t +:+ ")]:" +:+
  String (ascii_of_nat 10) "Goal: " +:+ goal t +:+
  String (ascii_of_nat 10) "Findings: " +:+
  or_default (text <$> results !! id t) "No info".

(** The argument of [join]: two newlines, three dashes, two newlines. *)
Definition context_separator : string :=
  String (ascii_of_nat 10) (String (ascii_of_nat 10)
    ("---" +:+ String (ascii_of_nat 10) (String (ascii_of_nat 10) ""))).

Definition contextString (results : gmap string SearchResult)
    (completed : list AgentTask) : string :=
  String.concat context_separator (map (context_block results) completed).

(** How one pass of the body of [while (true)] leaves the loop body. *)
Inductive IterOutcome :=
| IterExit        (* [break]: nothing pending, nothing running *)
| IterDelay       (* reached the 50 ms delay; the loop goes round again *)
| IterDeadlock    (* [break] of the potential-deadlock branch *)
| IterSaturated   (* [return]: the concurrency ceiling is reached *)
| IterIdle.       (* [return]: nothing executable right now *)

(** One pass of the loop body of [processQueue], up to the delay. *)
Definition processQueue_iter : M IterOutcome :=
  currentTasks ← readTasks;
  let pending := pending_of currentTasks in
  let running := running_of currentTasks in
  let completed := completed_of currentTasks in
  if (length pending =? 0)%nat && (length running =? 0)%nat then mret IterExit
  else
    let executable := executableTasks currentTasks in
    if (length running <? MAX_CONCURRENCY)%nat && (0 <? length executable)%nat then
      match pick_next executable with
      | Some nextTask =>
          updateStatus (id nextTask) Running;;
          results ← readResults;
          dispatch nextTask (contextString results completed);;
          mret IterDelay
      | None => mret IterDelay
      end
    else if (0 <? length pending)%nat && (length running =? 0)%nat
            && (length executable =? 0)%nat then mret IterDeadlock
    else if (MAX_CONCURRENCY <=? length running)%nat then mret IterSaturated
    else mret IterIdle.

(** The readiness evaluation on its own: the snapshot of
    [tasksRef.current] and the computation of [executableTasks]. *)
Definition readiness : M (list AgentTask) :=
  currentTasks ← readTasks;
  mret (executableTasks currentTasks).

(** The callback passed to [.then]: store the result, mark the task
    completed, call [processQueue] (whose first pass runs at once). *)
Definition on_fulfilled (nextTask : AgentTask) (r : SearchResult) : M IterOutcome :=
  setResult (id nextTask) r;;
  updateStatus (id nextTask) Completed;;
  processQueue_iter.

Definition set_phase (s : RunState) (p : MainPhase) : RunState :=
  {| tasksRef := tasksRef s; taskResultsMap := taskResultsMap s;
     calls := calls s; spawned := spawned s; phase := p |}.

Definition set_spawned (s : RunState) (n : nat) : RunState :=
  {| tasksRef := tasksRef s; taskResultsMap := taskResultsMap s;
     calls := calls s; spawned := n; phase := phase s |}.

Definition set_tasks (s : RunState) (l : list AgentTask) : RunState :=
  {| tasksRef := l; taskResultsMap := taskResultsMap s;
     calls := calls s; spawned := spawned s; phase := phase s |}.

Definition mark_settled (i : nat) (s : RunState) : RunState :=
  {| tasksRef := tasksRef s; taskResultsMap := taskResultsMap s;
     calls := alter (fun c => {| call_task := call_task c;
                                 call_context := call_context c;
                                 call_settled := true |}) i (calls s);
     spawned := spawned s; phase := phase s |}.

(** The condition of the wait loop of [handleStartExecution]. *)
Definition unfinished (t : AgentTask) : bool :=
  negb (Status_eqb (status t) Completed) && negb (Status_eqb (status t) Failed).

(** [finalResults], handed to [synthesizeReport]. *)
Definition finalResults_of (s : RunState) : list (AgentTask * SearchResult) :=
  map (fun task =>
         (task, default {| text := "Failed"; sources := [] |}
                        (taskResultsMap s !! id task)))
      (tasksRef s).

(** One evaluation of the wait loop's condition: keep waiting, or build
    [finalResults] and go on to synthesis. *)
Definition poll (s : RunState) : RunState :=
  if existsb unfinished (tasksRef s)
  then set_phase s WaitLoop
  else set_phase s (Synthesizing (finalResults_of s)).

(** The awaited activation of [processQueue] after one pass: suspended in
    the delay, or finished, in which case [handleStartExecution] resumes
    and evaluates the wait loop's condition. *)
Definition after_main (o : IterOutcome) (s : RunState) : RunState :=
  match o with
  | IterDelay => set_phase s AwaitingQueue
  | _ => poll s
  end.

(** The events of one run; between two of them no other code runs. *)
Inductive Event :=
| EvStart                                      (* [handleStartExecution()] *)
| EvWakeMain                                   (* the awaited activation's delay elapses *)
| EvWakeSpawned                                (* a spawned activation's delay elapses *)
| EvSettle (i : nat) (o : Settled SearchResult) (* the [i]-th executor call settles *)
| EvToggle (taskId : string)                   (* the user toggles a priority *)
| EvPoll.                                      (* the wait loop's 200 ms delay elapses *)

Definition step (s : RunState) (e : Event) : option RunState :=
  match e with
  | EvStart =>
      match phase s with
      | NotStarted => let (o, s') := processQueue_iter s in Some (after_main o s')
      | _ => None
      end
  | EvWakeMain =>
      match phase s with
      | AwaitingQueue => let (o, s') := processQueue_iter s in Some (after_main o s')
      | _ => None
      end
  | EvWakeSpawned =>
      match spawned s with
      | S n =>
          let (o, s') := processQueue_iter s in
          Some (match o with IterDelay => s' | _ => set_spawned s' n end)
      | O => None
      end
  | EvSettle i o =>
      match calls s !! i with
      | Some c =>
          if call_settled c then None
          else
            match o with
            | Fulfilled r =>
                let (o', s') := on_fulfilled (call_task c) r (mark_settled i s) in
                Some (match o' with
                      | IterDelay => set_spawned s' (S (spawned s'))
                      | _ => s'
                      end)
            | Rejected _ => Some (mark_settled i s)
            end
      | None => None
      end
  | EvToggle taskId =>
      match phase s with
      | AwaitingQueue | WaitLoop =>
          Some (set_tasks s (toggleTaskPriority taskId (tasksRef s)))
      | _ => None
      end
  | EvPoll =>
      match phase s with
      | WaitLoop => Some (poll s)
      | _ => None
      end
  end.

Fixpoint run (s : RunState) (tr : list Event) : option RunState :=
  match tr with
  | [] => Some s
  | e :: tr' =>
      match step s e with
      | Some s' => run s' tr'
      | None => None
      end
  end.

(** The state in which [handleStartExecution] finds a task list. *)
Definition initial (tasks : list AgentTask) : RunState :=
  {| tasksRef := tasks; taskResultsMap := ∅; calls := []; spawned := 0;
     phase := NotStarted |}.

(** The ids of the tasks whose executor call was fulfilled along a trace,
    in the order of fulfilment. *)
Definition completes (s : RunState) (e : Event) : list string :=
  match e with
  | EvSettle i (Fulfilled _) =>
      match calls s !! i with
      | Some c => if call_settled c then [] else [id (call_task c)]
      | None => []
      end
  | _ => []
  end.

Fixpoint completion_order (s : RunState) (tr : list Event) : list string :=
  match tr with
  | [] => []
  | e :: tr' =>
      completes s e ++
      match step s e with
      | Some s' => completion_order s' tr'
      | None => []
      end
  end.

(** A task record as the planner or [handleAddTask] makes it. *)
Definition mkTask (i : string) (deps : list string) (p : Priority) : AgentTask :=
  {| id := i; title := "Title " +:+ i; agentRole := "Role " +:+ i;
     description := None; goal := "Goal " +:+ i; status := Pending;
     priority := Some p; dependencies := Some deps; result := None |}.

(** ** Notions used in the statements *)

(** The number of tasks with status [running]. *)
Definition running_count (l : list AgentTask) : nat := length (running_of l).

(** A task graph is keyed by id: no two tasks of the list share an id. *)
Definition unique_ids (l : list AgentTask) : Prop := NoDup (map id l).

(** Eligibility as the specification words it: the task is pending and
    every id among its dependencies names a completed task of the graph. *)
Definition eligible (tasks : list AgentTask) (t : AgentTask) : Prop :=
  status t = Pending /\
  forall depId, In depId (deps_of t) ->
    exists c, In c tasks /\ id c = depId /\ status c = Completed.

(** The test that [executableTasks] applies to a task of the graph. *)
Definition eligibleb (l : list AgentTask) (t : AgentTask) : bool :=
  has_status Pending t && dependencies_met (completed_of l) t.

(** The run state right after the launch branch of the loop body has
    started [nextTask]. *)
Definition launch (nextTask : AgentTask) (s : RunState) : RunState :=
  {| tasksRef := updateStatus_list (id nextTask) Running (tasksRef s);
     taskResultsMap := taskResultsMap s;
     calls := calls s ++
              [ {| call_task := nextTask;
                   call_context :=
                     contextString (taskResultsMap s) (completed_of (tasksRef s));
                   call_settled := false |} ];
     spawned := spawned s;
     phase := phase s |}.

(** The run state right after the completion handler has stored the
    result and marked the task completed, before it calls [processQueue]. *)
Definition completed_by (nextTask : AgentTask) (r : SearchResult) (s : RunState) : RunState :=
  {| tasksRef := updateStatus_list (id nextTask) Completed (tasksRef s);
     taskResultsMap := <[id nextTask := r]> (taskResultsMap s);
     calls := calls s;
     spawned := spawned s;
     phase := phase s |}.

(** Two run states that differ at most in [spawned] and [phase]. *)
Definition same_core (s s' : RunState) : Prop :=
  tasksRef s' = tasksRef s /\ taskResultsMap s' = taskResultsMap s /\
  calls s' = calls s.

(** The context string as the specification words it: the blocks of the
    tasks named by [order], a list of ids in order of completion. *)
Definition context_in_completion_order (s : RunState) (order : list string) : string :=
  String.concat context_separator
    (omap (fun i => context_block (taskResultsMap s)
                      <$> List.find (fun t => String.eqb (id t) i) (tasksRef s))
          order).

(** The specification's sentence about the context of a dispatched task:
    whenever a step of a run creates an executor call, its context is the
    blocks of the tasks completed so far, in order of completion. *)
Definition context_follows_completion_order : Prop :=
  forall (tasks : list AgentTask) (tr : list Event) (e : Event)
         (s s' : RunState) (c : ExecutorCall),
    unique_ids tasks ->
    Forall (fun t => status t = Pending) tasks ->
    run (initial tasks) tr = Some s ->
    step s e = Some s' ->
    calls s' !! length (calls s) = Some c ->
    call_context c
    = context_in_completion_order s' (completion_order (initial tasks) (tr ++ [e])).

(** ** Sample graphs *)

Definition task_A : AgentTask := mkTask "A" [] Normal.
Definition task_B : AgentTask := mkTask "B" [] Normal.
Definition task_B_high : AgentTask := mkTask "B" [] High.
Definition task_C : AgentTask := mkTask "C" ["A"; "B"] Normal.

(** A two-task dependency cycle. *)
Definition task_X : AgentTask := mkTask "X" ["Y"] Normal.
Definition task_Y : AgentTask := mkTask "Y" ["X"] Normal.
Definition cycle_graph : list AgentTask := [task_X; task_Y].

(** A graph whose tasks are all terminal. *)
Definition terminal_graph : list AgentTask :=
  [with_status task_A Completed; with_status task_B Failed].

Definition sample_result (txt : string) : SearchResult :=
  {| text := txt; sources := [] |}.

(** The state a trace leads to (the initial state when the trace is not
    a run). *)
Definition state_after (tasks : list AgentTask) (tr : list Event) : RunState :=
  default (initial tasks) (run (initial tasks) tr).

(** The graph of the out-of-order example. *)
Definition chain_graph : list AgentTask := [task_A; task_B; task_C].

(** Every completed task has a stored result. *)
Definition results_stored (s : RunState) : Prop :=
  forall t, In t (tasksRef s) -> status t = Completed ->
            is_Some (taskResultsMap s !! id t).

(** The state in which the run of the cycle sits: waiting, both tasks
    pending, no call made, no activation suspended. *)
Definition stuck_waiting (s : RunState) : Prop :=
  phase s = WaitLoop /\ map status (tasksRef s) = [Pending; Pending] /\
  calls s = [] /\ spawned s = 0.

(** A [URL] constructor that rejects every string, and a backend call
    that fails. *)
Definition no_hostname (u : string) : option string := None.
Definition backend_down : Settled GenerateContentResponse :=
  Rejected "network error".

(** The last executor call made so far in a state. *)
Definition last_call (s : RunState) : ExecutorCall :=
  default {| call_task := task_A; call_context := ""; call_settled := true |}
          (last (calls s)).

(** [task_A] and [task_B] start, [task_B] finishes before [task_A], then
    [task_C] is dispatched. *)
Definition out_of_order_trace : list Event :=
  [EvStart; EvWakeMain; EvWakeMain;
   EvSettle 1 (Fulfilled (sample_result "rb"))].
Definition out_of_order_last : Event :=
  EvSettle 0 (Fulfilled (sample_result "ra")).

(** ** Notions used in the further properties of the scheduler *)

(** The id of the task an executor call was made for. *)
Definition call_id (c : ExecutorCall) : string := id (call_task c).

(** The executor calls whose promise has not settled yet. *)
Definition in_flight (s : RunState) : list ExecutorCall :=
  List.filter (fun c => negb (call_settled c)) (calls s).

(** How the calls made so far relate to the task list and the result
    table: ids are unique, no two calls are for the same id, a call names
    a task that is running while the call is in flight and running or
    completed afterwards, and only completed tasks have a stored result. *)
Definition calls_consistent (s : RunState) : Prop :=
  unique_ids (tasksRef s) /\
  NoDup (map call_id (calls s)) /\
  (forall c, In c (calls s) ->
     exists t, In t (tasksRef s) /\ id t = call_id c /\
               (status t = Running \/
                (call_settled c = true /\ status t = Completed))) /\
  (forall t, In t (tasksRef s) -> is_Some (taskResultsMap s !! id t) ->
             status t = Completed).

(** One move of a task's status: none, pending to running, or running to
    completed. *)
Definition status_move (a b : Status) : Prop :=
  b = a \/ (a = Pending /\ b = Running) \/ (a = Running /\ b = Completed).

(** A slot is free and some task is eligible. *)
Definition can_launch (l : list AgentTask) : Prop :=
  running_count l < MAX_CONCURRENCY /\ executableTasks l <> [].

(** The run has started and an activation of [processQueue] is suspended
    in its delay whenever a launch is possible. *)
Definition launch_pending (s : RunState) : Prop :=
  phase s <> NotStarted /\
  (can_launch (tasksRef s) -> phase s = AwaitingQueue \/ 0 < spawned s).

(** What holds once [finalResults] has been built. *)
Definition synthesis_final (s : RunState) : Prop :=
  forall fr, phase s = Synthesizing fr ->
    (forall t, In t (tasksRef s) -> status t = Completed \/ status t = Failed) /\
    fr = finalResults_of s /\
    in_flight s = [].

(** A run that can make no progress: the start has happened, synthesis
    has not begun, nothing is running or in flight, nothing is eligible,
    and something is pending. *)
Definition dead_end (s : RunState) : Prop :=
  (phase s = AwaitingQueue \/ phase s = WaitLoop) /\
  in_flight s = [] /\
  running_of (tasksRef s) = [] /\
  executableTasks (tasksRef s) = [] /\
  pending_of (tasksRef s) <> [].

(** A task that depends on an id no task has. *)
Definition task_D : AgentTask := mkTask "D" ["nowhere"] Normal.
Definition dangling_graph : list AgentTask := [task_A; task_D].

(** [task_A] of [dangling_graph] starts and completes; [task_D] can
    never start. *)
Definition dangling_trace : list Event :=
  [EvStart; EvWakeMain; EvSettle 0 (Fulfilled (sample_result "ra")); EvPoll].

(** The whole run of [chain_graph]: every call is fulfilled and the
    wait loop is polled once more. *)
Definition chain_full_trace : list Event :=
  out_of_order_trace ++
  [out_of_order_last; EvSettle 2 (Fulfilled (sample_result "rc")); EvPoll].

(** ** The planner ([planResearch]) and the start of a search ([handleSearch]) *)

(** One element of the array that [JSON.parse] returns, read at the type
    [AgentTask] as [planResearch] does: the keys the response schema
    requires, and every other key of [AgentTask], present or not.  The
    spread [...t] copies each key that is present. *)
Record PlannedTask := {
  planned_id : string;
  planned_title : string;
  planned_agentRole : string;
  planned_description : option string;
  planned_goal : string;
  planned_status : option Status;
  planned_priority : option Priority;
  planned_dependencies : option (list string);
  planned_result : option SearchResult
}.

(** The callback of [tasks.map] in [planResearch]:
    [{ ...t, status: 'pending', dependencies: t.dependencies || [] }]. *)
Definition plan_task (t : PlannedTask) : AgentTask :=
  {| id := planned_id t; title := planned_title t;
     agentRole := planned_agentRole t; description := planned_description t;
     goal := planned_goal t; status := Pending;
     priority := planned_priority t;
     dependencies := Some (match planned_dependencies t with
                           | Some ds => ds
                           | None => []
                           end);
     result := planned_result t |}.

(** The single task returned from the [catch] block of [planResearch]. *)
Definition fallback_plan (query : string) : list AgentTask :=
  [ {| id := "task-fallback"; title := "General Research";
       agentRole := "Research Assistant";
       description := Some "General purpose researcher";
       goal := "Find information about: " +:+ query;
       status := Pending; priority := None; dependencies := Some [];
       result := None |} ].

Section Planner.
(** [JSON.parse] followed by the use of its value as an array of planned
    tasks; [None] when either throws. *)
Variable JSON_parse : string -> option (list PlannedTask).

(** [planResearch], given what the awaited [ai.models.generateContent]
    call settled to: [response.text], or a rejection. *)
Definition planResearch (query : string) (backend : Settled (option string))
  : list AgentTask :=
  match backend with
  | Rejected _ => fallback_plan query
  | Fulfilled response_text =>
      match JSON_parse (or_default response_text "[]") with
      | Some tasks => map plan_task tasks
      | None => fallback_plan query
      end
  end.

(** [initialTasks] of [handleSearch]: the plan with every priority set
    to normal. *)
Definition initialTasks (query : string) (backend : Settled (option string))
  : list AgentTask :=
  map (fun t => with_priority t (Some Normal)) (planResearch query backend).
End Planner.

(** A parser that knows the empty array only. *)
Definition parse_empty_only (txt : string) : option (list PlannedTask) :=
  if String.eqb txt "[]" then Some [] else None.

(** ** The synthesizer ([synthesizeReport]) *)

(** The callback of [agentResults.map] that builds [researchContext]. *)
Definition report_section (item : AgentTask * SearchResult) : string :=
  "## Input from " +:+ agentRole (fst item) +:+ " (Task: " +:+ title (fst item) +:+ ")" +:+
  String (ascii_of_nat 10) (String (ascii_of_nat 10) "") +:+
  text (snd item) +:+ String (ascii_of_nat 10) "".

Definition researchContext (agentResults : list (AgentTask * SearchResult)) : string :=
  String.concat (String (ascii_of_nat 10) ("---" +:+ String (ascii_of_nat 10) ""))
                (map report_section agentResults).

(** [allSources] after the [forEach] that pushes every result's sources. *)
Definition allSources (agentResults : list (AgentTask * SearchResult)) : list Source :=
  flat_map (fun item => sources (snd item)) agentResults.

Definition uniqueSources (agentResults : list (AgentTask * SearchResult)) : list Source :=
  dedup_by_url (allSources agentResults).

(** [synthesizeReport], given what the awaited backend call settled to;
    the [catch] block rethrows with a fixed message. *)
Definition synthesizeReport (query : string)
    (agentResults : list (AgentTask * SearchResult))
    (backend : Settled GenerateContentResponse) : Settled SearchResult :=
  match backend with
  | Fulfilled response =>
      Fulfilled {| text := or_default (response_text response)
                                      "Could not synthesize response.";
                   sources := uniqueSources agentResults |}
  | Rejected _ => Rejected "Failed to synthesize final report."
  end.

(** The urls seen so far, then the sources kept: the first source of each
    url, in order. *)
Fixpoint first_of_each_url (seen : list string) (l : list Source) : list Source :=
  match l with
  | [] => []
  | x :: l' =>
      if existsb (String.eqb (src_url x)) seen
      then first_of_each_url seen l'
      else x :: first_of_each_url (seen ++ [src_url x]) l'
  end.

(** What [extractSources] pushes for a web chunk whose uri has host name
    [host]. *)
Definition source_of_chunk (w : WebChunk) (host : string) : Source :=
  {| src_title := or_default (web_title w) "Web Source";
     src_url := or_default (web_uri w) "#";
     src_snippet := Some "";
     src_source := Some (replace_first "www." "" host) |}.

(** A response whose only candidate carries the given grounding chunks. *)
Definition response_with (txt : option string) (chunks : list GroundingChunk)
  : GenerateContentResponse :=
  {| response_text := txt;
     candidates := Some [ {| groundingMetadata :=
                               Some {| groundingChunks := Some chunks |} |} ] |}.

Definition web_chunk (uri : string) : GroundingChunk :=
  {| web := Some {| web_title := Some "A page"; web_uri := Some uri |} |}.

(** A [URL] constructor that accepts the strings that start with
    [https://] and takes the rest as the host name. *)
Definition https_hostname (u : string) : option string :=
  if String.prefix "https://" u
  then Some (String.substring 8 (String.length u - 8) u)
  else None.

(** ** Review-phase edits ([handleUpdateTask], [handleAddTask]) *)

(** A [Partial<AgentTask>]: for each key, [None] when the key is absent
    and [Some v] when it is present with value [v]. *)
Record TaskUpdates := {
  upd_id : option string;
  upd_title : option string;
  upd_agentRole : option string;
  upd_description : option (option string);
  upd_goal : option string;
  upd_status : option Status;
  upd_priority : option (option Priority);
  upd_dependencies : option (option (list string));
  upd_result : option (option SearchResult)
}.

(** [{ ...t, ...updates }]. *)
Definition apply_updates (t : AgentTask) (u : TaskUpdates) : AgentTask :=
  {| id := default (id t) (upd_id u);
     title := default (title t) (upd_title u);
     agentRole := default (agentRole t) (upd_agentRole u);
     description := default (description t) (upd_description u);
     goal := default (goal t) (upd_goal u);
     status := default (status t) (upd_status u);
     priority := default (priority t) (upd_priority u);
     dependencies := default (dependencies t) (upd_dependencies u);
     result := default (result t) (upd_result u) |}.

(** The [update] closure of [handleUpdateTask]. *)
Definition handleUpdateTask (taskId : string) (updates : TaskUpdates)
    (tasks : list AgentTask) : list AgentTask :=
  map (fun t => if String.eqb (id t) taskId then apply_updates t updates else t) tasks.

Definition no_updates : TaskUpdates :=
  {| upd_id := None; upd_title := None; upd_agentRole := None;
     upd_description := None; upd_goal := None; upd_status := None;
     upd_priority := None; upd_dependencies := None; upd_result := None |}.

(** [{ dependencies: newDeps }]. *)
Definition dependencies_update (newDeps : list string) : TaskUpdates :=
  {| upd_id := None; upd_title := None; upd_agentRole := None;
     upd_description := None; upd_goal := None; upd_status := None;
     upd_priority := None; upd_dependencies := Some (Some newDeps);
     upd_result := None |}.

(** [`task-custom-${Date.now()}`]. *)
Definition custom_id (now : N) : string := "task-custom-" +:+ pretty now.

(** [newTask] of [handleAddTask], created at time [now]. *)
Definition newTask (now : N) : AgentTask :=
  {| id := custom_id now; title := "New Custom Task";
     agentRole := "Custom Agent"; description := Some "";
     goal := "Describe what this agent should do..."; status := Pending;
     priority := Some Normal; dependencies := Some []; result := None |}.

(** [[...tasksRef.current, newTask]]. *)
Definition handleAddTask (now : N) (tasks : list AgentTask) : list AgentTask :=
  tasks ++ [newTask now].

(** ** The task cards ([ThinkingIndicator]) *)

Inductive AgentState :=
| IDLE | PLANNING | REVIEWING | SEARCHING | ANALYZING | SYNTHESIZING
| COMPLETE | ERROR.

Definition is_searching (st : AgentState) : bool :=
  match st with SEARCHING => true | _ => false end.

(** [isBlocked]: in the searching state, a pending task some dependency
    of which is not the id of a task found completed by [tasks.find]. *)
Definition isBlocked (state : AgentState) (tasks : list AgentTask)
    (task : AgentTask) : bool :=
  is_searching state && Status_eqb (status task) Pending &&
  existsb (fun depId =>
             negb (match List.find (fun t => String.eqb (id t) depId) tasks with
                   | Some t => Status_eqb (status t) Completed
                   | None => false
                   end))
          (deps_of task).

(** [newDeps] of the click handler of a dependency button. *)
Definition toggled_deps (currentDeps : list string) (otherId : string) : list string :=
  if existsb (String.eqb otherId) currentDeps
  then List.filter (fun d => negb (String.eqb d otherId)) currentDeps
  else currentDeps ++ [otherId].

(** The click on the button of [other] in the card of [task]:
    [onUpdateTask(task.id, { dependencies: newDeps })]. *)
Definition toggle_dependency (task other : AgentTask)
    (tasks : list AgentTask) : list AgentTask :=
  handleUpdateTask (id task)
    (dependencies_update (toggled_deps (deps_of task) (id other))) tasks.

(** The tasks whose button the card of [task] shows:
    [tasks.filter(t => t.id !== task.id)]. *)
Definition dependency_candidates (task : AgentTask) (tasks : list AgentTask)
  : list AgentTask :=
  List.filter (fun t => negb (String.eqb (id t) (id task))) tasks.

(** Every dependency names another task of the list. *)
Definition dependencies_resolved (tasks : list AgentTask) : Prop :=
  forall t d, In t tasks -> In d (deps_of t) ->
              d <> id t /\ exists u, In u tasks /\ id u = d.

(** A list with two tasks of one id, the first pending, the second
    completed, and a task that depends on that id. *)
Definition shared_id_graph : list AgentTask :=
  [task_A; with_status task_A Completed; mkTask "E" ["A"] Normal].

(** Two completed tasks and one that depends on the first only. *)
Definition review_graph : list AgentTask :=
  [with_status task_A Completed; with_status task_B Completed;
   mkTask "E" ["A"] Normal].

(** * Properties *)

(** ** Lists and equality tests *)

Lemma Status_eqb_eq a b : Status_eqb a b = true <-> a = b.
Proof. destruct a, b; simpl; split; congruence. Qed.

Lemma Status_eqb_refl a : Status_eqb a a = true.
Proof. by destruct a. Qed.

Lemma lookup_map {A B : Type} (f : A -> B) (l : list A) (i : nat) :
  map f l !! i = f <$> l !! i.
Proof.
  revert i; induction l as [|x l IH]; intros [|i]; simpl; auto.
Qed.

Lemma map_id_ext {A : Type} (f : A -> A) (l : list A) :
  (forall x, In x l -> f x = x) -> map f l = l.
Proof.
  induction l as [|x l IH]; simpl; intros H; [reflexivity|].
  rewrite H by auto. rewrite IH by auto. reflexivity.
Qed.

Lemma String_eqb_eq (a b : string) : String.eqb a b = true <-> a = b.
Proof. apply String.eqb_eq. Qed.

Lemma String_eqb_neq (a b : string) : String.eqb a b = false <-> a <> b.
Proof. apply String.eqb_neq. Qed.

(** ** Priority toggle *)

Lemma toggle_one_fields taskId t :
  id (toggle_one taskId t) = id t /\
  title (toggle_one taskId t) = title t /\
  agentRole (toggle_one taskId t) = agentRole t /\
  description (toggle_one taskId t) = description t /\
  goal (toggle_one taskId t) = goal t /\
  status (toggle_one taskId t) = status t /\
  dependencies (toggle_one taskId t) = dependencies t /\
  result (toggle_one taskId t) = result t.
Proof.
  unfold toggle_one.
  destruct (String.eqb (id t) taskId && Status_eqb (status t) Pending);
    simpl; repeat split.
Qed.

Lemma toggle_one_other taskId t :
  id t <> taskId \/ status t <> Pending -> toggle_one taskId t = t.
Proof.
  unfold toggle_one. intros [H|H].
  - apply String_eqb_neq in H. rewrite H. reflexivity.
  - destruct (Status_eqb (status t) Pending) eqn:E.
    + apply Status_eqb_eq in E. contradiction.
    + rewrite andb_false_r. reflexivity.
Qed.

Lemma toggle_one_pending taskId t :
  id t = taskId -> status t = Pending ->
  priority (toggle_one taskId t)
  = Some (if is_high (priority t) then Normal else High).
Proof.
  unfold toggle_one. intros Hi Hs.
  apply String_eqb_eq in Hi. rewrite Hi, Hs. reflexivity.
Qed.

Lemma toggle_statuses taskId tasks :
  map status (toggleTaskPriority taskId tasks) = map status tasks.
Proof.
  unfold toggleTaskPriority. rewrite map_map. apply map_ext.
  intros t. apply (toggle_one_fields taskId t).
Qed.

Lemma toggle_ids taskId tasks :
  map id (toggleTaskPriority taskId tasks) = map id tasks.
Proof.
  unfold toggleTaskPriority. rewrite map_map. apply map_ext.
  intros t. apply (toggle_one_fields taskId t).
Qed.

(** C8.  A priority toggle on task id [taskId] keeps the length of the
    task list and, position by position, every field of every task other
    than [priority]; a task whose id is not [taskId] or whose status is
    not pending is left as it is; a pending task with id [taskId] has its
    priority flipped (high becomes normal, anything else becomes high);
    and when no task with id [taskId] is pending the whole list is
    unchanged. *)
Theorem toggleTaskPriority_frame (taskId : string) (tasks : list AgentTask) :
  length (toggleTaskPriority taskId tasks) = length tasks /\
  (forall (i : nat) (t : AgentTask), tasks !! i = Some t ->
     exists t', toggleTaskPriority taskId tasks !! i = Some t' /\
       (id t' = id t /\ title t' = title t /\ agentRole t' = agentRole t /\
        description t' = description t /\ goal t' = goal t /\
        status t' = status t /\ dependencies t' = dependencies t /\
        result t' = result t) /\
       (id t <> taskId \/ status t <> Pending -> t' = t) /\
       (id t = taskId -> status t = Pending ->
        priority t' = Some (if is_high (priority t) then Normal else High))) /\
  ((forall t, In t tasks -> id t = taskId -> status t <> Pending) ->
   toggleTaskPriority taskId tasks = tasks).
Proof.
  split; [|split].
  - unfold toggleTaskPriority. apply length_map.
  - intros i t Hi. exists (toggle_one taskId t). split; [|split; [|split]].
    + unfold toggleTaskPriority. rewrite lookup_map, Hi. reflexivity.
    + apply toggle_one_fields.
    + apply toggle_one_other.
    + apply toggle_one_pending.
  - intros H. unfold toggleTaskPriority. apply map_id_ext. intros t Ht.
    apply (toggle_one_other taskId t).
    destruct (String.eqb (id t) taskId) eqn:E.
    + right. apply String_eqb_eq in E. eauto.
    + left. apply String_eqb_neq. exact E.
Qed.

(** ** Deleting a task *)

Lemma handleDeleteTask_In taskId tasks t' :
  In t' (handleDeleteTask taskId tasks) <->
  exists t, In t tasks /\ id t <> taskId /\
    t' = with_dependencies t
           (Some (List.filter (fun d => negb (String.eqb d taskId)) (deps_of t))).
Proof.
  unfold handleDeleteTask. rewrite in_map_iff. split.
  - intros (t & <- & Ht). apply filter_In in Ht as [Ht Hne].
    exists t. split; [exact Ht|]. split.
    + apply negb_true_iff, String_eqb_neq in Hne. exact Hne.
    + unfold deps_of. destruct (dependencies t); reflexivity.
  - intros (t & Ht & Hne & ->). exists t. split.
    + unfold deps_of. destruct (dependencies t); reflexivity.
    + apply filter_In. split; [exact Ht|].
      apply negb_true_iff, String_eqb_neq. exact Hne.
Qed.

(** C9.  After [handleDeleteTask taskId], no remaining task has id
    [taskId], no remaining task's dependency list contains [taskId], and
    every dependency of a remaining task that named a task of the list
    before the deletion still names a task of the list after it. *)
Theorem handleDeleteTask_no_dangling (taskId : string) (tasks : list AgentTask) :
  (forall t, In t (handleDeleteTask taskId tasks) ->
     id t <> taskId /\ ~ In taskId (deps_of t)) /\
  (forall t d, In t (handleDeleteTask taskId tasks) -> In d (deps_of t) ->
     (exists u, In u tasks /\ id u = d) ->
     exists u', In u' (handleDeleteTask taskId tasks) /\ id u' = d).
Proof.
  split.
  - intros t' Ht'. apply handleDeleteTask_In in Ht' as (t & Ht & Hne & ->).
    split; [exact Hne|]. unfold deps_of; simpl.
    intros Hin. apply filter_In in Hin as [_ Hin].
    apply negb_true_iff, String_eqb_neq in Hin. congruence.
  - intros t' d Ht' Hd (u & Hu & Hud).
    apply handleDeleteTask_In in Ht' as (t & Ht & Hne & ->).
    unfold deps_of in Hd; simpl in Hd.
    apply filter_In in Hd as [_ Hd].
    apply negb_true_iff, String_eqb_neq in Hd.
    eexists. split.
    + apply handleDeleteTask_In. exists u. split; [exact Hu|].
      split; [congruence|reflexivity].
    + simpl. exact Hud.
Qed.

(** ** Readiness and selection *)

Lemma dependencies_met_iff (completed : list AgentTask) (t : AgentTask) :
  dependencies_met completed t = true <->
  forall depId, In depId (deps_of t) -> exists c, In c completed /\ id c = depId.
Proof.
  unfold dependencies_met, deps_of.
  destruct (dependencies t) as [[|d ds]|].
  - split; [intros _ ? []|reflexivity].
  - rewrite forallb_forall. split.
    + intros H depId Hin. apply H in Hin. apply existsb_exists in Hin as (c & Hc & E).
      apply String_eqb_eq in E. eauto.
    + intros H depId Hin. apply H in Hin as (c & Hc & E).
      apply existsb_exists. exists c. split; [exact Hc|]. apply String_eqb_eq, E.
  - split; [intros _ ? []|reflexivity].
Qed.

Lemma has_status_iff st t : has_status st t = true <-> status t = st.
Proof. apply Status_eqb_eq. Qed.

Lemma completed_of_In (l : list AgentTask) (c : AgentTask) :
  In c (completed_of l) <-> In c l /\ status c = Completed.
Proof. unfold completed_of. rewrite filter_In, has_status_iff. reflexivity. Qed.

(** The computed set is the eligible set of the specification. *)
Lemma executableTasks_In (l : list AgentTask) (t : AgentTask) :
  In t (executableTasks l) <-> In t l /\ eligible l t.
Proof.
  unfold executableTasks, pending_of, eligible.
  rewrite !filter_In, has_status_iff, dependencies_met_iff.
  split.
  - intros [[Ht Hs] Hd]. repeat split; auto.
    intros d Hin. destruct (Hd d Hin) as (c & Hc & E).
    apply completed_of_In in Hc as [Hc Hst]. eauto.
  - intros [Ht [Hs Hd]]. repeat split; auto.
    intros d Hin. destruct (Hd d Hin) as (c & Hc & E & Hst).
    exists c. split; [apply completed_of_In; auto|exact E].
Qed.

(** The computed set is one filter of the graph, hence in its order. *)
Lemma executableTasks_filter (l : list AgentTask) :
  executableTasks l = List.filter (eligibleb l) l.
Proof.
  unfold executableTasks, pending_of, eligibleb.
  generalize (dependencies_met (completed_of l)) as q. intros q.
  induction l as [|x l IH]; simpl; [reflexivity|].
  destruct (has_status Pending x); simpl; [|exact IH].
  destruct (q x); rewrite IH; reflexivity.
Qed.

Lemma eligibleb_iff (l : list AgentTask) (t : AgentTask) :
  In t l -> eligibleb l t = true <-> eligible l t.
Proof.
  intros Ht. pose proof (executableTasks_In l t) as H.
  rewrite executableTasks_filter, filter_In in H. tauto.
Qed.

Lemma head_filter_split {A : Type} (p : A -> bool) (l : list A) (x : A) :
  head (List.filter p l) = Some x ->
  exists l1 l2, l = l1 ++ x :: l2 /\ Forall (fun y => p y = false) l1.
Proof.
  induction l as [|y l IH]; simpl; [discriminate|].
  destruct (p y) eqn:E; simpl.
  - intros [= ->]. exists [], l. split; [reflexivity|constructor].
  - intros H. destruct (IH H) as (l1 & l2 & -> & Hl1).
    exists (y :: l1), l2. split; [reflexivity|constructor; assumption].
Qed.

Lemma pick_next_None (l : list AgentTask) : pick_next l = None -> l = [].
Proof.
  unfold pick_next. destruct (List.find _ l); [discriminate|].
  destruct l; [reflexivity|discriminate].
Qed.

Lemma pick_next_In (l : list AgentTask) (t : AgentTask) :
  pick_next l = Some t -> In t l.
Proof.
  unfold pick_next. destruct (List.find _ l) eqn:E.
  - intros [= ->]. apply find_some in E. tauto.
  - destruct l; simpl; [discriminate|]. intros [= ->]. left. reflexivity.
Qed.

Lemma pick_next_high (l : list AgentTask) (t u : AgentTask) :
  pick_next l = Some t -> In u l -> is_high (priority u) = true ->
  is_high (priority t) = true.
Proof.
  unfold pick_next. destruct (List.find _ l) eqn:E.
  - intros [= ->] _ _. apply find_some in E. tauto.
  - intros _ Hu Hh. eapply find_none in E; [|exact Hu]. simpl in E. congruence.
Qed.

Lemma pick_next_first (l : list AgentTask) (t : AgentTask) :
  pick_next l = Some t -> is_high (priority t) = false -> head l = Some t.
Proof.
  unfold pick_next. destruct (List.find _ l) eqn:E.
  - intros [= ->] Hh. apply find_some in E. simpl in E. destruct E. congruence.
  - tauto.
Qed.

Lemma is_high_iff (p : option Priority) : is_high p = true <-> p = Some High.
Proof. destruct p as [[]|]; simpl; split; congruence. Qed.

(** ** One pass of the loop body *)

Ltac unfold_monad :=
  unfold mbind, M_bind, mret, M_ret, readTasks, readResults,
         updateStatus, setResult, dispatch; cbv beta iota zeta.

(** A pass either changes nothing and ends the activation, or launches
    the selected task and suspends in the delay. *)
Lemma processQueue_iter_spec (s : RunState) :
  (exists o, o <> IterDelay /\ processQueue_iter s = (o, s)) \/
  (exists nextTask,
      running_count (tasksRef s) < MAX_CONCURRENCY /\
      pick_next (executableTasks (tasksRef s)) = Some nextTask /\
      processQueue_iter s = (IterDelay, launch nextTask s)).
Proof.
  unfold processQueue_iter. unfold_monad.
  destruct ((length (pending_of (tasksRef s)) =? 0)%nat
            && (length (running_of (tasksRef s)) =? 0)%nat).
  { left. exists IterExit. split; [discriminate|reflexivity]. }
  destruct ((length (running_of (tasksRef s)) <? MAX_CONCURRENCY)%nat
            && (0 <? length (executableTasks (tasksRef s)))%nat) eqn:H2.
  - apply andb_true_iff in H2 as [Hr He].
    destruct (pick_next (executableTasks (tasksRef s))) as [nextTask|] eqn:Hp.
    + right. exists nextTask. apply Nat.ltb_lt in Hr.
      split; [exact Hr|]. split; reflexivity.
    + apply pick_next_None in Hp. rewrite Hp in He. discriminate.
  - destruct ((0 <? length (pending_of (tasksRef s)))%nat
              && (length (running_of (tasksRef s)) =? 0)%nat
              && (length (executableTasks (tasksRef s)) =? 0)%nat).
    + left. exists IterDeadlock. split; [discriminate|reflexivity].
    + destruct ((MAX_CONCURRENCY <=? length (running_of (tasksRef s)))%nat);
        left; eexists; (split; [|reflexivity]); discriminate.
Qed.

Lemma filter_nil_of {A : Type} (p : A -> bool) (l : list A) :
  (forall x, In x l -> p x = false) -> List.filter p l = [].
Proof.
  induction l as [|x l IH]; simpl; intros H; [reflexivity|].
  rewrite H by auto. apply IH. auto.
Qed.

Lemma executableTasks_pending (l : list AgentTask) :
  executableTasks l <> [] -> pending_of l <> [].
Proof.
  unfold executableTasks. destruct (pending_of l); [simpl; tauto|discriminate].
Qed.

(** With a free slot and a non-empty eligible set the pass launches. *)
Lemma processQueue_iter_launch (s : RunState) :
  running_count (tasksRef s) < MAX_CONCURRENCY ->
  executableTasks (tasksRef s) <> [] ->
  exists nextTask,
    pick_next (executableTasks (tasksRef s)) = Some nextTask /\
    processQueue_iter s = (IterDelay, launch nextTask s).
Proof.
  intros Hr He. unfold processQueue_iter. unfold_monad.
  pose proof (executableTasks_pending _ He) as Hp.
  destruct (pending_of (tasksRef s)) as [|p ps] eqn:Ep; [congruence|].
  cbn [length Nat.eqb andb].
  apply Nat.ltb_lt in Hr. unfold running_count in Hr. rewrite Hr.
  destruct (executableTasks (tasksRef s)) as [|x xs] eqn:Ex; [congruence|].
  cbn [length Nat.ltb Nat.leb andb].
  destruct (pick_next (x :: xs)) as [nextTask|] eqn:Hn.
  - exists nextTask. split; reflexivity.
  - apply pick_next_None in Hn. discriminate.
Qed.

(** C5.  At a pass of the loop body with a free slot and a non-empty
    eligible set, a task is launched; it is an eligible task of the
    graph; it has priority high whenever some eligible task has; and when
    no eligible task has priority high it is the first eligible task in
    the order of the task list. *)
Theorem processQueue_selects_by_priority (s : RunState) :
  running_count (tasksRef s) < MAX_CONCURRENCY ->
  executableTasks (tasksRef s) <> [] ->
  exists nextTask,
    processQueue_iter s = (IterDelay, launch nextTask s) /\
    In nextTask (tasksRef s) /\
    eligible (tasksRef s) nextTask /\
    ((exists t, In t (tasksRef s) /\ eligible (tasksRef s) t /\
                priority t = Some High) ->
     priority nextTask = Some High) /\
    ((forall t, In t (tasksRef s) -> eligible (tasksRef s) t ->
                priority t <> Some High) ->
     exists l1 l2, tasksRef s = l1 ++ nextTask :: l2 /\
                   forall t, In t l1 -> ~ eligible (tasksRef s) t).
Proof.
  intros Hr He.
  destruct (processQueue_iter_launch s Hr He) as (nextTask & Hp & Hrun).
  exists nextTask. split; [exact Hrun|].
  pose proof (pick_next_In _ _ Hp) as Hin.
  apply executableTasks_In in Hin as [Hin Hel].
  split; [exact Hin|]. split; [exact Hel|]. split.
  - intros (t & Ht & Helt & Hh). apply is_high_iff.
    eapply pick_next_high; [exact Hp| |apply is_high_iff; exact Hh].
    apply executableTasks_In. auto.
  - intros Hnone.
    assert (Hlow : is_high (priority nextTask) = false).
    { destruct (is_high (priority nextTask)) eqn:E; [|reflexivity].
      apply is_high_iff in E. exfalso. exact (Hnone _ Hin Hel E). }
    pose proof (pick_next_first _ _ Hp Hlow) as Hhead.
    rewrite executableTasks_filter in Hhead.
    apply head_filter_split in Hhead as (l1 & l2 & Hsplit & Hl1).
    exists l1, l2. split; [exact Hsplit|].
    intros t Ht Helt. rewrite Forall_forall in Hl1.
    assert (Hmem : t ∈ l1) by (apply list_elem_of_In; exact Ht).
    specialize (Hl1 t Hmem). simpl in Hl1.
    assert (Htl : In t (tasksRef s)).
    { rewrite Hsplit. apply in_or_app. left. exact Ht. }
    apply (eligibleb_iff _ _ Htl) in Helt. congruence.
Qed.

(** The decision point of the example: [task_A] and a high-priority
    [task_B], both without dependencies, both pending. *)
Lemma processQueue_selects_by_priority_witness :
  running_count (tasksRef (initial [task_A; task_B_high])) < MAX_CONCURRENCY /\
  executableTasks (tasksRef (initial [task_A; task_B_high])) <> [] /\
  exists nextTask,
    processQueue_iter (initial [task_A; task_B_high])
    = (IterDelay, launch nextTask (initial [task_A; task_B_high])) /\
    In nextTask (tasksRef (initial [task_A; task_B_high])) /\
    eligible (tasksRef (initial [task_A; task_B_high])) nextTask /\
    ((exists t, In t (tasksRef (initial [task_A; task_B_high])) /\
                eligible (tasksRef (initial [task_A; task_B_high])) t /\
                priority t = Some High) ->
     priority nextTask = Some High) /\
    ((forall t, In t (tasksRef (initial [task_A; task_B_high])) ->
                eligible (tasksRef (initial [task_A; task_B_high])) t ->
                priority t <> Some High) ->
     exists l1 l2, tasksRef (initial [task_A; task_B_high]) = l1 ++ nextTask :: l2 /\
                   forall t, In t l1 ->
                             ~ eligible (tasksRef (initial [task_A; task_B_high])) t).
Proof.
  assert (H1 : running_count (tasksRef (initial [task_A; task_B_high]))
               < MAX_CONCURRENCY) by (vm_compute; lia).
  assert (H2 : executableTasks (tasksRef (initial [task_A; task_B_high])) <> [])
    by (vm_compute; discriminate).
  split; [exact H1|]. split; [exact H2|].
  exact (processQueue_selects_by_priority (initial [task_A; task_B_high]) H1 H2).
Defined.

(** In that example it is [task_B] that is started, ahead of [task_A]. *)
Example high_priority_task_first :
  pick_next (executableTasks [task_A; task_B_high]) = Some task_B_high /\
  processQueue_iter (initial [task_A; task_B_high])
  = (IterDelay, launch task_B_high (initial [task_A; task_B_high])).
Proof. split; reflexivity. Qed.

(** C7.  The readiness evaluation returns the eligible set of the
    current task list and leaves the run state as it found it, so a
    second evaluation right after the first returns the same set and the
    same state; the tasks it returns are tasks of the list, unchanged;
    and a whole pass of the loop body that launches nothing leaves the
    run state unchanged. *)
Theorem readiness_pure_idempotent (s : RunState) :
  readiness s = (executableTasks (tasksRef s), s) /\
  (readiness ≫= (fun _ => readiness)) s = readiness s /\
  (forall t, In t (fst (readiness s)) -> In t (tasksRef s) /\ eligible (tasksRef s) t) /\
  (forall o s', processQueue_iter s = (o, s') -> o <> IterDelay -> s' = s).
Proof.
  split; [reflexivity|]. split; [reflexivity|]. split.
  - intros t Ht. apply executableTasks_In. exact Ht.
  - intros o s' Hrun Ho.
    destruct (processQueue_iter_spec s) as [(o' & _ & E)|(n & _ & _ & E)];
      rewrite E in Hrun; injection Hrun as <- <-; [reflexivity|congruence].
Qed.

(** ** Nothing left to run *)

Lemma terminal_not_unfinished (t : AgentTask) :
  status t = Completed \/ status t = Failed -> unfinished t = false.
Proof. unfold unfinished. intros [-> | ->]; reflexivity. Qed.

Lemma existsb_false_of {A : Type} (p : A -> bool) (l : list A) :
  (forall x, In x l -> p x = false) -> existsb p l = false.
Proof.
  induction l as [|x l IH]; simpl; intros H; [reflexivity|].
  rewrite H by auto. apply IH. auto.
Qed.

(** C10.  When every task of the list handed to [handleStartExecution]
    is completed or failed (in particular when the list is empty), the
    first pass of the loop body leaves through the exit check with the
    run state unchanged, and the start event ends in the synthesis phase
    with the task list unchanged, no executor call made, no activation
    suspended, and the placeholder result paired with every task. *)
Theorem terminal_graph_goes_to_synthesis (tasks : list AgentTask) :
  (forall t, In t tasks -> status t = Completed \/ status t = Failed) ->
  processQueue_iter (initial tasks) = (IterExit, initial tasks) /\
  exists s',
    step (initial tasks) EvStart = Some s' /\
    tasksRef s' = tasks /\ calls s' = [] /\ spawned s' = 0 /\
    taskResultsMap s' = ∅ /\
    phase s' = Synthesizing
                 (map (fun t => (t, {| text := "Failed"; sources := [] |})) tasks).
Proof.
  intros Hterm.
  assert (Hp : pending_of tasks = []).
  { apply filter_nil_of. intros t Ht. unfold has_status.
    destruct (Hterm t Ht) as [-> | ->]; reflexivity. }
  assert (Hr : running_of tasks = []).
  { apply filter_nil_of. intros t Ht. unfold has_status.
    destruct (Hterm t Ht) as [-> | ->]; reflexivity. }
  assert (Hiter : processQueue_iter (initial tasks) = (IterExit, initial tasks)).
  { unfold processQueue_iter. unfold_monad.
    cbn [tasksRef initial]. rewrite Hp, Hr. reflexivity. }
  split; [exact Hiter|].
  unfold step. cbn [phase initial]. rewrite Hiter.
  unfold after_main, poll. cbn [tasksRef initial].
  rewrite existsb_false_of
    by (intros t Ht; apply terminal_not_unfinished, Hterm, Ht).
  eexists. split; [reflexivity|]. cbn.
  repeat split.
Qed.

(** The empty task list goes straight to synthesis with no results. *)
Example empty_graph_goes_to_synthesis :
  step (initial []) EvStart = Some (set_phase (initial []) (Synthesizing [])).
Proof. reflexivity. Qed.

Lemma terminal_graph_goes_to_synthesis_witness :
  (forall t, In t terminal_graph -> status t = Completed \/ status t = Failed) /\
  (processQueue_iter (initial terminal_graph) = (IterExit, initial terminal_graph) /\
   exists s',
     step (initial terminal_graph) EvStart = Some s' /\
     tasksRef s' = terminal_graph /\ calls s' = [] /\ spawned s' = 0 /\
     taskResultsMap s' = ∅ /\
     phase s' = Synthesizing
                  (map (fun t => (t, {| text := "Failed"; sources := [] |}))
                       terminal_graph)).
Proof.
  assert (H : forall t, In t terminal_graph ->
                        status t = Completed \/ status t = Failed).
  { intros t [<- | [<- | []]]; [left|right]; reflexivity. }
  split; [exact H|].
  exact (terminal_graph_goes_to_synthesis terminal_graph H).
Defined.

(** ** The shape of a step *)

Lemma same_core_refl s : same_core s s.
Proof. repeat split. Qed.

Lemma same_core_poll s : same_core s (poll s).
Proof. unfold poll. destruct (existsb _ _); repeat split. Qed.

Lemma same_core_after_main o s : same_core s (after_main o s).
Proof. destruct o; simpl; try apply same_core_poll; repeat split. Qed.

Lemma on_fulfilled_eq (nextTask : AgentTask) (r : SearchResult) (s : RunState) :
  on_fulfilled nextTask r s = processQueue_iter (completed_by nextTask r s).
Proof. reflexivity. Qed.

(** Every step is one of: a poll or a rejected settlement, which keep the
    task list; a toggle; or one pass of the loop body, run either on the
    state as it is or on the state a completion handler has just
    written. *)
Lemma step_cases (s : RunState) (e : Event) (s' : RunState) :
  step s e = Some s' ->
  (taskResultsMap s' = taskResultsMap s /\
   length (calls s') = length (calls s) /\
   (tasksRef s' = tasksRef s \/
    exists taskId, tasksRef s' = toggleTaskPriority taskId (tasksRef s))) \/
  (exists s0 o s1,
      processQueue_iter s0 = (o, s1) /\ same_core s1 s' /\
      length (calls s0) = length (calls s) /\
      ((tasksRef s0 = tasksRef s /\ taskResultsMap s0 = taskResultsMap s) \/
       exists i c r, calls s !! i = Some c /\ call_settled c = false /\
                     s0 = completed_by (call_task c) r (mark_settled i s))).
Proof.
  destruct e as [| | |i o|taskId|]; simpl.
  - destruct (phase s); try discriminate.
    destruct (processQueue_iter s) as [o s1] eqn:E. intros [= <-].
    right. exists s, o, s1. split; [exact E|].
    split; [apply same_core_after_main|]. split; [reflexivity|]. left. split; reflexivity.
  - destruct (phase s); try discriminate.
    destruct (processQueue_iter s) as [o s1] eqn:E. intros [= <-].
    right. exists s, o, s1. split; [exact E|].
    split; [apply same_core_after_main|]. split; [reflexivity|]. left. split; reflexivity.
  - destruct (spawned s) as [|n]; try discriminate.
    destruct (processQueue_iter s) as [o s1] eqn:E. intros [= <-].
    right. exists s, o, s1. split; [exact E|].
    split; [destruct o; repeat split|]. split; [reflexivity|]. left. split; reflexivity.
  - destruct (calls s !! i) as [c|] eqn:Hc; try discriminate.
    destruct (call_settled c) eqn:Hs; try discriminate.
    destruct o as [r|reason].
    + rewrite on_fulfilled_eq.
      destruct (processQueue_iter _) as [o' s1] eqn:E. intros [= <-].
      right. exists (completed_by (call_task c) r (mark_settled i s)), o', s1.
      split; [exact E|]. split; [destruct o'; repeat split|].
      split; [simpl; apply length_alter|].
      right. exists i, c, r. repeat split; assumption.
    + intros [= <-]. left. simpl. split; [reflexivity|].
      split; [apply length_alter|]. left. reflexivity.
  - destruct (phase s); try discriminate; intros [= <-]; left; simpl;
      (split; [reflexivity|]); (split; [reflexivity|]); right; eauto.
  - destruct (phase s); try discriminate. intros [= <-]. left.
    destruct (same_core_poll s) as (Ht & Hm & Hc).
    split; [exact Hm|]. split; [rewrite Hc; reflexivity|]. left. exact Ht.
Qed.

(** ** Status updates *)

Lemma updateStatus_list_ids i st l :
  map id (updateStatus_list i st l) = map id l.
Proof.
  unfold updateStatus_list. rewrite map_map. apply map_ext.
  intros t. destruct (String.eqb (id t) i); reflexivity.
Qed.

Lemma updateStatus_list_In i st l t' :
  In t' (updateStatus_list i st l) <->
  exists t, In t l /\ t' = if String.eqb (id t) i then with_status t st else t.
Proof.
  unfold updateStatus_list. rewrite in_map_iff.
  split; intros (t & H1 & H2); exists t; auto.
Qed.

Lemma updateStatus_list_absent i st l :
  ~ In i (map id l) -> updateStatus_list i st l = l.
Proof.
  intros H. apply map_id_ext. intros t Ht.
  destruct (String.eqb (id t) i) eqn:E; [|reflexivity].
  apply String_eqb_eq in E. exfalso. apply H. rewrite <- E. apply in_map, Ht.
Qed.

Lemma running_count_cons t l :
  running_count (t :: l)
  = (if has_status Running t then 1 else 0) + running_count l.
Proof.
  unfold running_count, running_of. simpl.
  destruct (has_status Running t); reflexivity.
Qed.

Lemma running_count_statuses l l' :
  map status l = map status l' -> running_count l = running_count l'.
Proof.
  revert l'. induction l as [|t l IH]; intros [|t' l']; simpl; try discriminate.
  - reflexivity.
  - intros [= Hs Hl]. rewrite !running_count_cons. unfold has_status.
    rewrite Hs. f_equal. apply IH, Hl.
Qed.

Lemma running_count_completed i l :
  running_count (updateStatus_list i Completed l) <= running_count l.
Proof.
  induction l as [|t l IH]; simpl; [lia|].
  rewrite !running_count_cons.
  destruct (String.eqb (id t) i); simpl.
  - destruct (has_status Running t); lia.
  - destruct (has_status Running t); lia.
Qed.

(** With unique ids a status update touches one task at most. *)
Lemma running_count_launched i l :
  unique_ids l ->
  running_count (updateStatus_list i Running l) <= S (running_count l).
Proof.
  unfold unique_ids. induction l as [|t l IH]; simpl; intros Hnd; [lia|].
  inversion Hnd as [|? ? Hnot Hl]; subst.
  fold (updateStatus_list i Running l). rewrite !running_count_cons.
  destruct (String.eqb (id t) i) eqn:E.
  - apply String_eqb_eq in E. subst i.
    rewrite updateStatus_list_absent.
    + destruct (has_status Running t); simpl; lia.
    + intros Hin. apply Hnot, list_elem_of_In, Hin.
  - specialize (IH Hl). destruct (has_status Running t); simpl; lia.
Qed.

(** ** Invariants of a run *)

Lemma run_invariant (P : RunState -> Prop) :
  (forall s e s', P s -> step s e = Some s' -> P s') ->
  forall tr s s', P s -> run s tr = Some s' -> P s'.
Proof.
  intros Hstep. induction tr as [|e tr IH]; simpl; intros s s' HP.
  - intros [= <-]. exact HP.
  - destruct (step s e) as [s1|] eqn:E; [|discriminate].
    apply IH. eapply Hstep; eauto.
Qed.

Lemma step_unique_ids s e s' :
  unique_ids (tasksRef s) -> step s e = Some s' -> unique_ids (tasksRef s').
Proof.
  unfold unique_ids. intros Hu Hstep.
  destruct (step_cases s e s' Hstep)
    as [(_ & _ & [-> | (taskId & ->)])
       |(s0 & o & s1 & Hit & (Ht & _ & _) & _ & Hs0)].
  - exact Hu.
  - rewrite toggle_ids. exact Hu.
  - rewrite Ht.
    assert (Hu0 : NoDup (map id (tasksRef s0))).
    { destruct Hs0 as [[-> _]|(i & c & r & _ & _ & ->)]; [exact Hu|].
      simpl. rewrite updateStatus_list_ids. exact Hu. }
    destruct (processQueue_iter_spec s0) as [(o' & _ & E)|(n & _ & _ & E)];
      rewrite E in Hit; injection Hit as <- <-; [exact Hu0|].
    simpl. rewrite updateStatus_list_ids. exact Hu0.
Qed.

Lemma step_running_count s e s' :
  unique_ids (tasksRef s) ->
  running_count (tasksRef s) <= MAX_CONCURRENCY ->
  step s e = Some s' ->
  running_count (tasksRef s') <= MAX_CONCURRENCY.
Proof.
  intros Hu Hc Hstep.
  destruct (step_cases s e s' Hstep)
    as [(_ & _ & [-> | (taskId & ->)])
       |(s0 & o & s1 & Hit & (Ht & _ & _) & _ & Hs0)].
  - exact Hc.
  - rewrite (running_count_statuses _ (tasksRef s)); [exact Hc|].
    apply toggle_statuses.
  - rewrite Ht.
    assert (H0 : unique_ids (tasksRef s0) /\
                 running_count (tasksRef s0) <= MAX_CONCURRENCY).
    { destruct Hs0 as [[-> _]|(i & c & r & _ & _ & ->)]; [auto|].
      simpl. split.
      - unfold unique_ids. rewrite updateStatus_list_ids. exact Hu.
      - etransitivity; [apply running_count_completed|exact Hc]. }
    destruct H0 as [Hu0 Hc0].
    destruct (processQueue_iter_spec s0) as [(o' & _ & E)|(n & Hlt & _ & E)];
      rewrite E in Hit; injection Hit as <- <-; [exact Hc0|].
    simpl. pose proof (running_count_launched (id n) _ Hu0). lia.
Qed.

(** C1.  From a task graph with unique ids in which at most
    [MAX_CONCURRENCY] (that is, 2) tasks are running to begin with, in
    particular one whose tasks are all pending, every state reached by
    any sequence of events of the run has at most [MAX_CONCURRENCY] tasks
    with status running. *)
Theorem running_never_exceeds_ceiling
    (tasks : list AgentTask) (tr : list Event) (s : RunState) :
  unique_ids tasks ->
  running_count tasks <= MAX_CONCURRENCY ->
  run (initial tasks) tr = Some s ->
  running_count (tasksRef s) <= MAX_CONCURRENCY /\ MAX_CONCURRENCY = 2.
Proof.
  intros Hu Hc Hrun. split; [|reflexivity].
  assert (Hinv : unique_ids (tasksRef s) /\
                 running_count (tasksRef s) <= MAX_CONCURRENCY).
  { apply (run_invariant
             (fun s => unique_ids (tasksRef s) /\
                       running_count (tasksRef s) <= MAX_CONCURRENCY))
      with (tr := tr) (s := initial tasks).
    - intros s0 e s1 [H1 H2] Hstep. split.
      + eapply step_unique_ids; eauto.
      + eapply step_running_count; eauto.
    - split; [exact Hu|exact Hc].
    - exact Hrun. }
  apply Hinv.
Qed.

Ltac solve_unique_ids :=
  unfold unique_ids; apply (bool_decide_unpack _); vm_compute; reflexivity.

Lemma running_never_exceeds_ceiling_witness :
  unique_ids chain_graph /\
  running_count chain_graph <= MAX_CONCURRENCY /\
  run (initial chain_graph) (out_of_order_trace ++ [out_of_order_last])
  = Some (state_after chain_graph (out_of_order_trace ++ [out_of_order_last])) /\
  (running_count
     (tasksRef (state_after chain_graph (out_of_order_trace ++ [out_of_order_last])))
   <= MAX_CONCURRENCY /\ MAX_CONCURRENCY = 2).
Proof.
  assert (H1 : unique_ids chain_graph) by solve_unique_ids.
  assert (H2 : running_count chain_graph <= MAX_CONCURRENCY) by (vm_compute; lia).
  assert (H3 : run (initial chain_graph) (out_of_order_trace ++ [out_of_order_last])
               = Some (state_after chain_graph
                         (out_of_order_trace ++ [out_of_order_last])))
    by (vm_compute; reflexivity).
  split; [exact H1|]. split; [exact H2|]. split; [exact H3|].
  exact (running_never_exceeds_ceiling chain_graph _ _ H1 H2 H3).
Defined.

(** Without unique ids one launch marks every task of that id running:
    three tasks that share an id are running after the start event. *)
Remark shared_id_exceeds_ceiling :
  running_count
    (tasksRef (state_after [task_A; task_A; task_A] [EvStart])) = 3.
Proof. reflexivity. Qed.

(** ** Dependencies before launch *)

Lemma unique_ids_eq (l : list AgentTask) (a b : AgentTask) :
  unique_ids l -> In a l -> In b l -> id a = id b -> a = b.
Proof.
  unfold unique_ids. induction l as [|x l IH]; simpl; [tauto|].
  intros Hnd Ha Hb E. inversion Hnd as [|? ? Hnot Hl]; subst.
  assert (Hout : forall y, In y l -> id y <> id x).
  { intros y Hy Ey. apply Hnot. rewrite <- Ey.
    apply list_elem_of_In, in_map, Hy. }
  destruct Ha as [<- | Ha], Hb as [<- | Hb].
  - reflexivity.
  - exfalso. apply (Hout b Hb). congruence.
  - exfalso. apply (Hout a Ha). congruence.
  - apply IH; assumption.
Qed.

Lemma lookup_In {A : Type} (l : list A) (i : nat) (x : A) :
  l !! i = Some x -> In x l.
Proof. intros H. apply list_elem_of_In. eapply list_elem_of_lookup_2, H. Qed.

(** What a launch does to the task list, under unique ids: the selected
    task, pending and eligible, becomes running; every other task is kept;
    in the new list each dependency of the selected task names a
    completed task. *)
Lemma launch_transition (s0 : RunState) (n : AgentTask) :
  unique_ids (tasksRef s0) ->
  pick_next (executableTasks (tasksRef s0)) = Some n ->
  (forall i t t', tasksRef s0 !! i = Some t ->
                  tasksRef (launch n s0) !! i = Some t' ->
                  (t = n /\ t' = with_status n Running) \/ (t <> n /\ t' = t)) /\
  status n = Pending /\
  (forall depId, In depId (deps_of n) ->
     exists c, In c (tasksRef (launch n s0)) /\ id c = depId /\ status c = Completed).
Proof.
  intros Hu Hp.
  apply pick_next_In, executableTasks_In in Hp as [Hn [Hpend Hdeps]].
  split; [|split; [exact Hpend|]].
  - intros i t t' Ht Ht'. simpl in Ht'. unfold updateStatus_list in Ht'.
    rewrite lookup_map, Ht in Ht'. simpl in Ht'. injection Ht' as <-.
    destruct (String.eqb (id t) (id n)) eqn:E.
    + apply String_eqb_eq in E. left.
      assert (t = n) by (eapply unique_ids_eq; eauto using lookup_In).
      subst t. split; reflexivity.
    + right. split; [|reflexivity]. intros ->.
      rewrite String.eqb_refl in E. discriminate.
  - intros d Hd. destruct (Hdeps d Hd) as (c & Hc & Hid & Hst).
    exists c. split; [|split; assumption].
    simpl. apply updateStatus_list_In. exists c. split; [exact Hc|].
    destruct (String.eqb (id c) (id n)) eqn:E; [|reflexivity].
    apply String_eqb_eq in E.
    assert (c = n) by (eapply unique_ids_eq; eauto). subst c. congruence.
Qed.

Lemma run_unique_ids tasks tr s :
  unique_ids tasks -> run (initial tasks) tr = Some s -> unique_ids (tasksRef s).
Proof.
  intros Hu Hrun.
  apply (run_invariant (fun s => unique_ids (tasksRef s)))
    with (tr := tr) (s := initial tasks); auto.
  intros s0 e s1 H Hstep. eapply step_unique_ids; eauto.
Qed.

(** C2.  In a run from a graph with unique ids, whenever one event takes
    the task at some position of the list from a status other than
    running to running, the task keeps its dependency list and, in the
    state the event leaves, every id in that list names a task of the
    list whose status is completed. *)
Theorem dependencies_completed_at_launch
    (tasks : list AgentTask) (tr : list Event) (s : RunState) (e : Event)
    (s' : RunState) (i : nat) (t t' : AgentTask) :
  unique_ids tasks ->
  run (initial tasks) tr = Some s ->
  step s e = Some s' ->
  tasksRef s !! i = Some t ->
  tasksRef s' !! i = Some t' ->
  status t <> Running ->
  status t' = Running ->
  status t = Pending /\
  dependencies t' = dependencies t /\
  forall depId, In depId (deps_of t') ->
    exists c, In c (tasksRef s') /\ id c = depId /\ status c = Completed.
Proof.
  intros Hu0 Hrun Hstep Ht Ht' Hnr Hr.
  pose proof (run_unique_ids _ _ _ Hu0 Hrun) as Hu.
  destruct (step_cases s e s' Hstep)
    as [(_ & _ & [E | (taskId & E)])
       |(s0 & o & s1 & Hit & (Hts & _ & _) & _ & Hs0)].
  - rewrite E, Ht in Ht'. injection Ht' as <-. contradiction.
  - rewrite E in Ht'. unfold toggleTaskPriority in Ht'.
    rewrite lookup_map, Ht in Ht'. injection Ht' as <-.
    destruct (toggle_one_fields taskId t) as (_ & _ & _ & _ & _ & Hs & _).
    congruence.
  - rewrite Hts in *.
    assert (H0 : unique_ids (tasksRef s0) /\
                 exists t0, tasksRef s0 !! i = Some t0 /\
                            status t0 <> Running /\
                            (status t0 = Pending -> t0 = t)).
    { destruct Hs0 as [[E _]|(j & c & r & _ & _ & ->)].
      - rewrite E. split; [exact Hu|]. exists t. auto.
      - simpl. split.
        + unfold unique_ids. rewrite updateStatus_list_ids. exact Hu.
        + unfold updateStatus_list. rewrite lookup_map, Ht. simpl.
          eexists. split; [reflexivity|].
          destruct (String.eqb (id t) (id (call_task c))); simpl.
          * split; [discriminate|discriminate].
          * auto. }
    destruct H0 as (Hus0 & t0 & Ht0 & Hnr0 & Hsame).
    destruct (processQueue_iter_spec s0) as [(o' & _ & E)|(n & _ & Hp & E)];
      rewrite E in Hit; injection Hit as <- <-.
    + rewrite Ht0 in Ht'. injection Ht' as <-. contradiction.
    + destruct (launch_transition s0 n Hus0 Hp) as (Hpos & Hpend & Hdeps).
      destruct (Hpos i t0 t' Ht0 Ht') as [[-> ->] | [_ ->]]; [|contradiction].
      specialize (Hsame Hpend). subst t.
      split; [exact Hpend|]. split; [reflexivity|]. exact Hdeps.
Qed.

Lemma dependencies_completed_at_launch_witness :
  unique_ids chain_graph /\
  run (initial chain_graph) out_of_order_trace
  = Some (state_after chain_graph out_of_order_trace) /\
  step (state_after chain_graph out_of_order_trace) out_of_order_last
  = Some (state_after chain_graph (out_of_order_trace ++ [out_of_order_last])) /\
  tasksRef (state_after chain_graph out_of_order_trace) !! 2 = Some task_C /\
  tasksRef (state_after chain_graph (out_of_order_trace ++ [out_of_order_last])) !! 2
  = Some (with_status task_C Running) /\
  status task_C <> Running /\
  status (with_status task_C Running) = Running /\
  (status task_C = Pending /\
   dependencies (with_status task_C Running) = dependencies task_C /\
   forall depId, In depId (deps_of (with_status task_C Running)) ->
     exists c,
       In c (tasksRef (state_after chain_graph
                         (out_of_order_trace ++ [out_of_order_last]))) /\
       id c = depId /\ status c = Completed).
Proof.
  assert (H1 : unique_ids chain_graph) by solve_unique_ids.
  assert (H2 : run (initial chain_graph) out_of_order_trace
               = Some (state_after chain_graph out_of_order_trace))
    by (vm_compute; reflexivity).
  assert (H3 : step (state_after chain_graph out_of_order_trace) out_of_order_last
               = Some (state_after chain_graph
                         (out_of_order_trace ++ [out_of_order_last])))
    by (vm_compute; reflexivity).
  assert (H4 : tasksRef (state_after chain_graph out_of_order_trace) !! 2
               = Some task_C) by (vm_compute; reflexivity).
  assert (H5 : tasksRef (state_after chain_graph
                           (out_of_order_trace ++ [out_of_order_last])) !! 2
               = Some (with_status task_C Running)) by (vm_compute; reflexivity).
  assert (H6 : status task_C <> Running) by discriminate.
  assert (H7 : status (with_status task_C Running) = Running) by reflexivity.
  repeat (split; [assumption|]).
  exact (dependencies_completed_at_launch _ _ _ _ _ _ _ _ H1 H2 H3 H4 H5 H6 H7).
Defined.

(** ** The context of a dispatched task *)

Lemma completed_of_updateStatus_running i l :
  (forall t, In t l -> id t = i -> status t <> Completed) ->
  completed_of (updateStatus_list i Running l) = completed_of l.
Proof.
  unfold completed_of. induction l as [|t l IH]; simpl; intros H; [reflexivity|].
  fold (updateStatus_list i Running l). rewrite IH by auto.
  destruct (String.eqb (id t) i) eqn:E; [|reflexivity].
  apply String_eqb_eq in E. specialize (H t (or_introl eq_refl) E).
  unfold has_status; simpl. destruct (status t); try reflexivity. contradiction.
Qed.

Lemma completed_of_launch (s0 : RunState) (n : AgentTask) :
  unique_ids (tasksRef s0) ->
  pick_next (executableTasks (tasksRef s0)) = Some n ->
  completed_of (tasksRef (launch n s0)) = completed_of (tasksRef s0).
Proof.
  intros Hu Hp.
  apply pick_next_In, executableTasks_In in Hp as [Hn [Hpend _]].
  simpl. apply completed_of_updateStatus_running.
  intros t Ht E. assert (t = n) by (eapply unique_ids_eq; eauto).
  subst t. congruence.
Qed.

Lemma step_results_stored s e s' :
  results_stored s -> step s e = Some s' -> results_stored s'.
Proof.
  unfold results_stored. intros Hinv Hstep.
  destruct (step_cases s e s' Hstep)
    as [(Hm & _ & [E | (taskId & E)])
       |(s0 & o & s1 & Hit & (Hts & Hms & _) & _ & Hs0)].
  - rewrite E, Hm. exact Hinv.
  - rewrite E, Hm. intros t' Ht' Hst. unfold toggleTaskPriority in Ht'.
    apply in_map_iff in Ht' as (t & <- & Ht).
    destruct (toggle_one_fields taskId t) as (Hi & _ & _ & _ & _ & Hs & _).
    rewrite Hi. apply Hinv; congruence.
  - rewrite Hts, Hms.
    assert (H0 : forall t, In t (tasksRef s0) -> status t = Completed ->
                           is_Some (taskResultsMap s0 !! id t)).
    { destruct Hs0 as [[E1 E2]|(j & c & r & _ & _ & ->)].
      - rewrite E1, E2. exact Hinv.
      - simpl. intros t' Ht' Hst.
        apply updateStatus_list_In in Ht' as (t & Ht & ->).
        destruct (String.eqb (id t) (id (call_task c))) eqn:E.
        + apply String_eqb_eq in E. simpl. rewrite E, lookup_insert_eq. eauto.
        + apply String_eqb_neq in E. rewrite lookup_insert_ne by congruence.
          apply Hinv; assumption. }
    destruct (processQueue_iter_spec s0) as [(o' & _ & E)|(n & _ & _ & E)];
      rewrite E in Hit; injection Hit as <- <-; [exact H0|].
    simpl. intros t' Ht' Hst.
    apply updateStatus_list_In in Ht' as (t & Ht & ->).
    destruct (String.eqb (id t) (id n)); [discriminate|]. apply H0; assumption.
Qed.

Lemma run_results_stored tasks tr s :
  Forall (fun t => status t = Pending) tasks ->
  run (initial tasks) tr = Some s -> results_stored s.
Proof.
  intros Hall Hrun.
  apply (run_invariant results_stored) with (tr := tr) (s := initial tasks).
  - intros s0 e s1. apply step_results_stored.
  - intros t Ht Hst. simpl in Ht. rewrite Forall_forall in Hall.
    assert (Hmem : t ∈ tasks) by (apply list_elem_of_In; exact Ht).
    specialize (Hall t Hmem). simpl in Hall. congruence.
  - exact Hrun.
Qed.

Lemma lookup_at_length_None {A : Type} (l l' : list A) :
  length l' = length l -> l' !! length l = None.
Proof. intros H. apply lookup_ge_None. lia. Qed.

(** C4 (amended).  In a run from a graph with unique ids, the context of
    every executor call that an event creates is the blocks of exactly
    the tasks whose status is completed when the call is made, joined by
    the separator, in the order of the task list; a block names the
    task's agent role, title and goal and, as findings, the text stored
    for the task's id or the words "No info" when that text is empty or
    absent.  When the run started with all tasks pending, every such task
    has a stored result. *)
Theorem context_in_graph_order
    (tasks : list AgentTask) (tr : list Event) (s : RunState) (e : Event)
    (s' : RunState) (c : ExecutorCall) :
  unique_ids tasks ->
  run (initial tasks) tr = Some s ->
  step s e = Some s' ->
  calls s' !! length (calls s) = Some c ->
  call_context c
  = String.concat context_separator
      (map (fun t =>
              "[Context from Agent: " +:+ agentRole t +:+ " (Task: " +:+ title t +:+ ")]:" +:+
              String (ascii_of_nat 10) "Goal: " +:+ goal t +:+
              String (ascii_of_nat 10) "Findings: " +:+
              or_default (text <$> taskResultsMap s' !! id t) "No info")
           (List.filter (fun t => Status_eqb (status t) Completed) (tasksRef s'))) /\
  (Forall (fun t => status t = Pending) tasks ->
   forall t, In t (tasksRef s') -> status t = Completed ->
             exists r, taskResultsMap s' !! id t = Some r).
Proof.
  intros Hu0 Hrun Hstep Hc.
  pose proof (run_unique_ids _ _ _ Hu0 Hrun) as Hu.
  split.
  - change (call_context c
            = contextString (taskResultsMap s') (completed_of (tasksRef s'))).
    destruct (step_cases s e s' Hstep)
      as [(_ & Hlen & _)|(s0 & o & s1 & Hit & (Hts & Hms & Hcs) & Hlen & Hs0)].
    + rewrite (lookup_at_length_None _ _ Hlen) in Hc. discriminate.
    + assert (Hus0 : unique_ids (tasksRef s0)).
      { destruct Hs0 as [[E _]|(j & c0 & r & _ & _ & ->)].
        - rewrite E. exact Hu.
        - simpl. unfold unique_ids. rewrite updateStatus_list_ids. exact Hu. }
      rewrite Hts, Hms. rewrite Hcs, <- Hlen in Hc.
      destruct (processQueue_iter_spec s0) as [(o' & _ & E)|(n & _ & Hp & E)];
        rewrite E in Hit; injection Hit as <- <-.
      * rewrite (lookup_at_length_None _ _ eq_refl) in Hc. discriminate.
      * rewrite (completed_of_launch _ _ Hus0 Hp).
        simpl in Hc. rewrite list_lookup_middle in Hc by reflexivity.
        injection Hc as <-. reflexivity.
  - intros Hall t Ht Hst.
    assert (Hrun' : run (initial tasks) (tr ++ [e]) = Some s').
    { clear - Hrun Hstep. revert Hrun. generalize (initial tasks) as s0.
      induction tr as [|e0 tr IH]; simpl; intros s0.
      - intros [= ->]. rewrite Hstep. reflexivity.
      - destruct (step s0 e0); [apply IH|discriminate]. }
    destruct (run_results_stored _ _ _ Hall Hrun' t Ht Hst) as [r Hr]. eauto.
Qed.

Lemma context_in_graph_order_witness :
  unique_ids chain_graph /\
  run (initial chain_graph) out_of_order_trace
  = Some (state_after chain_graph out_of_order_trace) /\
  step (state_after chain_graph out_of_order_trace) out_of_order_last
  = Some (state_after chain_graph (out_of_order_trace ++ [out_of_order_last])) /\
  calls (state_after chain_graph (out_of_order_trace ++ [out_of_order_last]))
    !! length (calls (state_after chain_graph out_of_order_trace))
  = Some (last_call (state_after chain_graph
                       (out_of_order_trace ++ [out_of_order_last]))) /\
  call_context (last_call (state_after chain_graph
                             (out_of_order_trace ++ [out_of_order_last])))
  = String.concat context_separator
      (map (fun t =>
              "[Context from Agent: " +:+ agentRole t +:+ " (Task: " +:+ title t +:+ ")]:" +:+
              String (ascii_of_nat 10) "Goal: " +:+ goal t +:+
              String (ascii_of_nat 10) "Findings: " +:+
              or_default
                (text <$> taskResultsMap
                            (state_after chain_graph
                               (out_of_order_trace ++ [out_of_order_last])) !! id t)
                "No info")
           (List.filter (fun t => Status_eqb (status t) Completed)
              (tasksRef (state_after chain_graph
                           (out_of_order_trace ++ [out_of_order_last]))))).
Proof.
  assert (H1 : unique_ids chain_graph) by solve_unique_ids.
  assert (H2 : run (initial chain_graph) out_of_order_trace
               = Some (state_after chain_graph out_of_order_trace))
    by (vm_compute; reflexivity).
  assert (H3 : step (state_after chain_graph out_of_order_trace) out_of_order_last
               = Some (state_after chain_graph
                         (out_of_order_trace ++ [out_of_order_last])))
    by (vm_compute; reflexivity).
  assert (H4 : calls (state_after chain_graph
                        (out_of_order_trace ++ [out_of_order_last]))
                 !! length (calls (state_after chain_graph out_of_order_trace))
               = Some (last_call (state_after chain_graph
                                    (out_of_order_trace ++ [out_of_order_last]))))
    by (vm_compute; reflexivity).
  repeat (split; [assumption|]).
  exact (proj1 (context_in_graph_order _ _ _ _ _ _ H1 H2 H3 H4)).
Defined.

(** C4 as the specification states it fails: [task_B] completes before
    [task_A], yet the context handed to [task_C] lists the block of
    [task_A] first, as the task list does. *)
Lemma context_not_in_completion_order : ~ context_follows_completion_order.
Proof.
  intros H.
  specialize (H chain_graph out_of_order_trace out_of_order_last
                (state_after chain_graph out_of_order_trace)
                (state_after chain_graph (out_of_order_trace ++ [out_of_order_last]))
                (last_call (state_after chain_graph
                              (out_of_order_trace ++ [out_of_order_last])))).
  assert (H1 : unique_ids chain_graph) by solve_unique_ids.
  assert (H2 : Forall (fun t => status t = Pending) chain_graph)
    by (repeat constructor).
  assert (H3 : run (initial chain_graph) out_of_order_trace
               = Some (state_after chain_graph out_of_order_trace))
    by (vm_compute; reflexivity).
  assert (H4 : step (state_after chain_graph out_of_order_trace) out_of_order_last
               = Some (state_after chain_graph
                         (out_of_order_trace ++ [out_of_order_last])))
    by (vm_compute; reflexivity).
  assert (H5 : calls (state_after chain_graph
                        (out_of_order_trace ++ [out_of_order_last]))
                 !! length (calls (state_after chain_graph out_of_order_trace))
               = Some (last_call (state_after chain_graph
                                    (out_of_order_trace ++ [out_of_order_last]))))
    by (vm_compute; reflexivity).
  specialize (H H1 H2 H3 H4 H5).
  vm_compute in H. discriminate H.
Qed.

(** The two strings of that example. *)
Example out_of_order_contexts :
  completion_order (initial chain_graph) (out_of_order_trace ++ [out_of_order_last])
  = ["B"; "A"] /\
  call_context (last_call (state_after chain_graph
                             (out_of_order_trace ++ [out_of_order_last])))
  = context_block {[ "A" := sample_result "ra" ]} task_A +:+ context_separator +:+
    context_block {[ "B" := sample_result "rb" ]} task_B /\
  context_in_completion_order
    (state_after chain_graph (out_of_order_trace ++ [out_of_order_last]))
    ["B"; "A"]
  = context_block {[ "B" := sample_result "rb" ]} task_B +:+ context_separator +:+
    context_block {[ "A" := sample_result "ra" ]} task_A.
Proof. repeat split. Qed.

(** ** Completion of a task *)

(** After the completion handler, whatever its call to [processQueue]
    does: the result is stored under the task's id and every task of
    that id is completed. *)
Lemma completion_effect (t : AgentTask) (r : SearchResult)
    (s1 : RunState) (o : IterOutcome) (s2 : RunState) :
  processQueue_iter (completed_by t r s1) = (o, s2) ->
  taskResultsMap s2 !! id t = Some r /\
  (forall u, In u (tasksRef s2) -> id u = id t -> status u = Completed).
Proof.
  intros Hit.
  assert (H0 : forall u, In u (tasksRef (completed_by t r s1)) ->
                         id u = id t -> status u = Completed).
  { simpl. intros u Hu E. apply updateStatus_list_In in Hu as (u0 & _ & ->).
    destruct (String.eqb (id u0) (id t)) eqn:E0; [reflexivity|].
    apply String_eqb_neq in E0. contradiction. }
  destruct (processQueue_iter_spec (completed_by t r s1))
    as [(o' & _ & Eq)|(n & _ & Hp & Eq)];
    rewrite Eq in Hit; injection Hit as <- <-.
  - split; [simpl; apply lookup_insert_eq|exact H0].
  - split; [simpl; apply lookup_insert_eq|].
    apply pick_next_In, executableTasks_In in Hp as [Hn [Hpend _]].
    intros u Hu E. cbn [tasksRef launch] in Hu.
    apply updateStatus_list_In in Hu as (u1 & Hu1 & ->).
    destruct (String.eqb (id u1) (id n)) eqn:E1.
    + apply String_eqb_eq in E1. simpl in E.
      assert (status n = Completed) by (apply H0; [exact Hn|congruence]).
      congruence.
    + apply H0; assumption.
Qed.

(** A failed call for [task_A] of [chain_graph] leaves it completed, with
    the placeholder as its result. *)
Example failed_call_marks_completed :
  (status <$> tasksRef (state_after chain_graph
                 [EvStart; EvSettle 0 (executeResearchTask no_hostname task_A ""
                                         backend_down)]) !! 0)
  = Some Completed /\
  taskResultsMap (state_after chain_graph
     [EvStart; EvSettle 0 (executeResearchTask no_hostname task_A "" backend_down)])
    !! "A"
  = Some {| text := "Failed to retrieve information for this task."; sources := [] |}.
Proof. split; vm_compute; reflexivity. Qed.

(** ** A dependency cycle *)

Lemma set_phase_same (s : RunState) : set_phase s (phase s) = s.
Proof. destruct s; reflexivity. Qed.

Lemma stuck_waiting_poll (s : RunState) : stuck_waiting s -> poll s = s.
Proof.
  intros (Hp & Hst & _ & _). unfold poll.
  destruct (tasksRef s) as [|a l]; [discriminate|].
  simpl in Hst. injection Hst as Ha _.
  simpl. unfold unfinished. rewrite Ha. simpl.
  rewrite <- Hp. apply set_phase_same.
Qed.

Lemma step_stuck_waiting (s : RunState) (e : Event) (s' : RunState) :
  stuck_waiting s -> step s e = Some s' -> stuck_waiting s'.
Proof.
  intros Hs. pose proof Hs as (Hp & Hst & Hc & Hsp).
  destruct e as [| | |i o|taskId|]; simpl; rewrite ?Hp, ?Hsp, ?Hc;
    try discriminate.
  - intros [= <-]. unfold stuck_waiting. simpl.
    rewrite toggle_statuses. auto.
  - intros [= <-]. rewrite (stuck_waiting_poll s Hs). exact Hs.
Qed.

(** C3 at the two-task cycle ([task_X] depends on [task_Y] and
    [task_Y] on [task_X]): the first pass of the loop body leaves through
    the potential-deadlock branch with the state unchanged, and in every
    state that the run reaches afterwards [handleStartExecution] is still
    in its wait loop, both tasks are still pending (none is failed), and
    a further poll is enabled and changes nothing. *)
Theorem cycle_run_never_finishes (tr : list Event) (s : RunState) :
  run (initial cycle_graph) (EvStart :: tr) = Some s ->
  processQueue_iter (initial cycle_graph) = (IterDeadlock, initial cycle_graph) /\
  phase s = WaitLoop /\
  map status (tasksRef s) = [Pending; Pending] /\
  step s EvPoll = Some s.
Proof.
  intros Hrun. split; [reflexivity|].
  assert (Hstuck : stuck_waiting s).
  { apply (run_invariant stuck_waiting)
      with (tr := tr) (s := state_after cycle_graph [EvStart]).
    - apply step_stuck_waiting.
    - repeat split.
    - exact Hrun. }
  pose proof Hstuck as (Hp & Hst & _ & _).
  split; [exact Hp|]. split; [exact Hst|].
  simpl. rewrite Hp. f_equal. apply stuck_waiting_poll, Hstuck.
Qed.

Lemma cycle_run_never_finishes_witness :
  run (initial cycle_graph) (EvStart :: [EvPoll; EvToggle "X"; EvPoll])
  = Some (state_after cycle_graph (EvStart :: [EvPoll; EvToggle "X"; EvPoll])) /\
  (processQueue_iter (initial cycle_graph) = (IterDeadlock, initial cycle_graph) /\
   phase (state_after cycle_graph (EvStart :: [EvPoll; EvToggle "X"; EvPoll]))
   = WaitLoop /\
   map status
     (tasksRef (state_after cycle_graph (EvStart :: [EvPoll; EvToggle "X"; EvPoll])))
   = [Pending; Pending] /\
   step (state_after cycle_graph (EvStart :: [EvPoll; EvToggle "X"; EvPoll])) EvPoll
   = Some (state_after cycle_graph (EvStart :: [EvPoll; EvToggle "X"; EvPoll]))).
Proof.
  assert (H : run (initial cycle_graph) (EvStart :: [EvPoll; EvToggle "X"; EvPoll])
              = Some (state_after cycle_graph
                        (EvStart :: [EvPoll; EvToggle "X"; EvPoll])))
    by (vm_compute; reflexivity).
  split; [exact H|].
  exact (cycle_run_never_finishes _ _ H).
Defined.

(** No step of any run gives a task the status failed. *)
Lemma step_never_fails (s : RunState) (e : Event) (s' : RunState)
    (i : nat) (t t' : AgentTask) :
  step s e = Some s' ->
  tasksRef s !! i = Some t -> tasksRef s' !! i = Some t' ->
  status t' = Failed -> status t = Failed.
Proof.
  intros Hstep Ht Ht' Hf.
  assert (Hupd : forall j st l u u', st <> Failed ->
             l !! i = Some u -> updateStatus_list j st l !! i = Some u' ->
             status u' = Failed -> status u = Failed).
  { intros j st l u u' Hne Hu Hu' Hfu. unfold updateStatus_list in Hu'.
    rewrite lookup_map, Hu in Hu'. injection Hu' as <-.
    destruct (String.eqb (id u) j); simpl in Hfu; congruence. }
  destruct (step_cases s e s' Hstep)
    as [(_ & _ & [E | (taskId & E)])
       |(s0 & o & s1 & Hit & (Hts & _ & _) & _ & Hs0)].
  - rewrite E, Ht in Ht'. congruence.
  - rewrite E in Ht'. unfold toggleTaskPriority in Ht'.
    rewrite lookup_map, Ht in Ht'. injection Ht' as <-.
    destruct (toggle_one_fields taskId t) as (_ & _ & _ & _ & _ & Hs & _).
    congruence.
  - rewrite Hts in Ht'.
    assert (H0 : forall t0, tasksRef s0 !! i = Some t0 ->
                            status t0 = Failed -> status t = Failed).
    { destruct Hs0 as [[E _]|(j & c & r & _ & _ & ->)].
      - rewrite E, Ht. congruence.
      - simpl. intros t0 Ht0. eapply Hupd; eauto. discriminate. }
    destruct (processQueue_iter_spec s0) as [(o' & _ & E)|(n & _ & _ & E)];
      rewrite E in Hit; injection Hit as <- <-.
    + eauto.
    + simpl in Ht'. unfold updateStatus_list in Ht'.
      rewrite lookup_map in Ht'.
      destruct (tasksRef s0 !! i) as [t0|] eqn:Ht0; [|discriminate].
      injection Ht' as <-. apply (H0 t0 eq_refl).
      destruct (String.eqb (id t0) (id n)); simpl in Hf; congruence.
Qed.

(** * Further properties of the scheduler *)

(** ** Calls, tasks and results stay consistent *)

Lemma alter_In {A : Type} (f : A -> A) (i : nat) (l : list A) (y : A) :
  In y (alter f i l) ->
  (exists x, l !! i = Some x /\ y = f x) \/
  (exists j, j <> i /\ l !! j = Some y).
Proof.
  intros Hy. apply list_elem_of_In, list_elem_of_lookup in Hy as [j Hj].
  rewrite list_lookup_alter in Hj. destruct (decide (i = j)) as [<-|Hne].
  - left. destruct (l !! i) as [x|]; [|discriminate].
    injection Hj as <-. eauto.
  - right. exists j. split; [congruence|exact Hj].
Qed.

Lemma map_alter_same {A B : Type} (g : A -> B) (f : A -> A) (i : nat) (l : list A) :
  (forall x, g (f x) = g x) -> map g (alter f i l) = map g l.
Proof.
  intros H. revert i. induction l as [|x l IH]; intros [|i]; simpl.
  - reflexivity.
  - reflexivity.
  - rewrite H. reflexivity.
  - f_equal. apply IH.
Qed.

Lemma mark_settled_call_ids (i : nat) (s : RunState) :
  map call_id (calls (mark_settled i s)) = map call_id (calls s).
Proof. simpl. apply map_alter_same. reflexivity. Qed.

Lemma call_ids_distinct (l : list ExecutorCall) (i j : nat) (c c' : ExecutorCall) :
  NoDup (map call_id l) -> l !! i = Some c -> l !! j = Some c' -> j <> i ->
  call_id c' <> call_id c.
Proof.
  intros Hnd Hi Hj Hne E. apply Hne.
  eapply (NoDup_lookup (map call_id l)); [exact Hnd| |].
  - rewrite lookup_map, Hj. simpl. rewrite E. reflexivity.
  - rewrite lookup_map, Hi. reflexivity.
Qed.

Lemma calls_consistent_initial (tasks : list AgentTask) :
  unique_ids tasks -> calls_consistent (initial tasks).
Proof.
  intros Hu. split; [exact Hu|]. split; [constructor|]. split.
  - intros c [].
  - simpl. intros t _ [r Hr]. rewrite lookup_empty in Hr. discriminate.
Qed.

Lemma calls_consistent_core (s s' : RunState) :
  same_core s s' -> calls_consistent s -> calls_consistent s'.
Proof.
  intros (Ht & Hm & Hc). unfold calls_consistent. rewrite Ht, Hm, Hc. tauto.
Qed.

Lemma calls_consistent_launch (s0 : RunState) (n : AgentTask) :
  calls_consistent s0 ->
  pick_next (executableTasks (tasksRef s0)) = Some n ->
  calls_consistent (launch n s0).
Proof.
  intros (Hu & Hnd & Hc & Hr) Hp.
  apply pick_next_In, executableTasks_In in Hp as [Hn [Hpend _]].
  assert (Hfresh : forall c, In c (calls s0) -> call_id c <> id n).
  { intros c Hin E. destruct (Hc c Hin) as (t & Ht & Hid & Hst).
    assert (t = n) by (eapply unique_ids_eq; eauto; congruence).
    subst t. destruct Hst as [Hst | [_ Hst]]; congruence. }
  split; [|split; [|split]].
  - unfold unique_ids. simpl. rewrite updateStatus_list_ids. exact Hu.
  - simpl. rewrite map_app. apply NoDup_app. split; [exact Hnd|]. split.
    + intros x Hx Hx'. simpl in Hx'. apply list_elem_of_singleton in Hx'. subst x.
      apply list_elem_of_In, in_map_iff in Hx as (c & E & Hin).
      exact (Hfresh c Hin E).
    + simpl. apply NoDup_singleton.
  - simpl. intros c Hin. apply in_app_or in Hin as [Hin | [<- | []]].
    + destruct (Hc c Hin) as (t & Ht & Hid & Hst). exists t.
      split; [|split; assumption].
      apply updateStatus_list_In. exists t. split; [exact Ht|].
      destruct (String.eqb (id t) (id n)) eqn:E; [|reflexivity].
      apply String_eqb_eq in E. exfalso. apply (Hfresh c Hin). congruence.
    + exists (with_status n Running). split; [|split; [reflexivity|left; reflexivity]].
      apply updateStatus_list_In. exists n. split; [exact Hn|].
      rewrite String.eqb_refl. reflexivity.
  - simpl. intros t' Ht' Hsome.
    apply updateStatus_list_In in Ht' as (t & Ht & ->).
    destruct (String.eqb (id t) (id n)) eqn:E; [|apply Hr; assumption].
    apply String_eqb_eq in E.
    assert (t = n) by (eapply unique_ids_eq; eauto). subst t.
    simpl in Hsome. specialize (Hr n Hn Hsome). congruence.
Qed.

Lemma calls_consistent_rejected (s : RunState) (i : nat) (c : ExecutorCall) :
  calls_consistent s -> calls s !! i = Some c -> call_settled c = false ->
  calls_consistent (mark_settled i s).
Proof.
  intros (Hu & Hnd & Hc & Hr) Hi Hs.
  split; [exact Hu|]. split; [rewrite mark_settled_call_ids; exact Hnd|].
  split; [|exact Hr].
  intros c' Hin. simpl in Hin.
  apply alter_In in Hin as [(x & Hx & ->) | (j & Hne & Hj)].
  - rewrite Hi in Hx. injection Hx as <-.
    destruct (Hc c (lookup_In _ _ _ Hi)) as (t & Ht & Hid & Hst).
    exists t. split; [exact Ht|]. split; [exact Hid|].
    destruct Hst as [Hst | [Hst _]]; [left; exact Hst|congruence].
  - exact (Hc c' (lookup_In _ _ _ Hj)).
Qed.

Lemma calls_consistent_fulfilled (s : RunState) (i : nat) (c : ExecutorCall)
    (r : SearchResult) :
  calls_consistent s -> calls s !! i = Some c -> call_settled c = false ->
  calls_consistent (completed_by (call_task c) r (mark_settled i s)).
Proof.
  intros (Hu & Hnd & Hc & Hr) Hi Hs.
  split; [|split; [|split]].
  - unfold unique_ids. simpl. rewrite updateStatus_list_ids. exact Hu.
  - simpl. rewrite map_alter_same by reflexivity. exact Hnd.
  - simpl. intros c' Hin.
    apply alter_In in Hin as [(x & Hx & ->) | (j & Hne & Hj)].
    + rewrite Hi in Hx. injection Hx as <-.
      destruct (Hc c (lookup_In _ _ _ Hi)) as (t & Ht & Hid & _).
      exists (with_status t Completed). split; [|split; [exact Hid|right; split; reflexivity]].
      apply updateStatus_list_In. exists t. split; [exact Ht|].
      apply String_eqb_eq in Hid. unfold call_id in Hid. rewrite Hid. reflexivity.
    + destruct (Hc c' (lookup_In _ _ _ Hj)) as (t & Ht & Hid & Hst).
      exists t. split; [|split; assumption].
      apply updateStatus_list_In. exists t. split; [exact Ht|].
      destruct (String.eqb (id t) (id (call_task c))) eqn:E; [|reflexivity].
      apply String_eqb_eq in E. exfalso.
      apply (call_ids_distinct _ _ _ _ _ Hnd Hi Hj Hne).
      unfold call_id in *. congruence.
  - simpl. intros t' Ht' Hsome.
    apply updateStatus_list_In in Ht' as (t & Ht & ->).
    destruct (String.eqb (id t) (id (call_task c))) eqn:E; [reflexivity|].
    apply String_eqb_neq in E. rewrite lookup_insert_ne in Hsome by congruence.
    apply Hr; assumption.
Qed.

Lemma toggle_In (taskId : string) (l : list AgentTask) (t' : AgentTask) :
  In t' (toggleTaskPriority taskId l) ->
  exists t, In t l /\ id t' = id t /\ status t' = status t.
Proof.
  unfold toggleTaskPriority. intros H.
  apply in_map_iff in H as (t & <- & Ht). exists t. split; [exact Ht|].
  destruct (toggle_one_fields taskId t) as (Hi & _ & _ & _ & _ & Hs & _). auto.
Qed.

Lemma toggle_In_inv (taskId : string) (l : list AgentTask) (t : AgentTask) :
  In t l -> In (toggle_one taskId t) (toggleTaskPriority taskId l).
Proof. intros H. unfold toggleTaskPriority. apply in_map, H. Qed.

Lemma calls_consistent_toggle (s : RunState) (taskId : string) :
  calls_consistent s ->
  calls_consistent (set_tasks s (toggleTaskPriority taskId (tasksRef s))).
Proof.
  intros (Hu & Hnd & Hc & Hr).
  split; [|split; [exact Hnd|split]].
  - unfold unique_ids. simpl. rewrite toggle_ids. exact Hu.
  - simpl. intros c Hin. destruct (Hc c Hin) as (t & Ht & Hid & Hst).
    exists (toggle_one taskId t). split; [apply toggle_In_inv, Ht|].
    destruct (toggle_one_fields taskId t) as (Hi & _ & _ & _ & _ & Hs & _).
    rewrite Hi, Hs. auto.
  - simpl. intros t' Ht' Hsome.
    apply toggle_In in Ht' as (t & Ht & Hi & Hs). rewrite Hi in Hsome.
    rewrite Hs. apply Hr; assumption.
Qed.

Lemma calls_consistent_pass (s0 : RunState) (o : IterOutcome) (s1 : RunState) :
  calls_consistent s0 -> processQueue_iter s0 = (o, s1) -> calls_consistent s1.
Proof.
  intros H Hit.
  destruct (processQueue_iter_spec s0) as [(o' & _ & E)|(n & _ & Hp & E)];
    rewrite E in Hit; injection Hit as <- <-; [exact H|].
  apply calls_consistent_launch; assumption.
Qed.

Lemma step_calls_consistent (s : RunState) (e : Event) (s' : RunState) :
  calls_consistent s -> step s e = Some s' -> calls_consistent s'.
Proof.
  intros H. destruct e as [| | |i o|taskId|]; simpl.
  - destruct (phase s); try discriminate.
    destruct (processQueue_iter s) as [o s1] eqn:E. intros [= <-].
    eapply calls_consistent_core; [apply same_core_after_main|].
    eapply calls_consistent_pass; eauto.
  - destruct (phase s); try discriminate.
    destruct (processQueue_iter s) as [o s1] eqn:E. intros [= <-].
    eapply calls_consistent_core; [apply same_core_after_main|].
    eapply calls_consistent_pass; eauto.
  - destruct (spawned s) as [|n]; try discriminate.
    destruct (processQueue_iter s) as [o s1] eqn:E. intros [= <-].
    apply (calls_consistent_core s1); [destruct o; repeat split|].
    eapply calls_consistent_pass; eauto.
  - destruct (calls s !! i) as [c|] eqn:Hc; try discriminate.
    destruct (call_settled c) eqn:Hs; try discriminate.
    destruct o as [r|reason].
    + rewrite on_fulfilled_eq.
      destruct (processQueue_iter _) as [o' s1] eqn:E. intros [= <-].
      apply (calls_consistent_core s1); [destruct o'; repeat split|].
      eapply calls_consistent_pass; [|exact E].
      eapply calls_consistent_fulfilled; eauto.
    + intros [= <-]. eapply calls_consistent_rejected; eauto.
  - destruct (phase s); try discriminate; intros [= <-];
      apply calls_consistent_toggle, H.
  - destruct (phase s); try discriminate. intros [= <-].
    eapply calls_consistent_core; [apply same_core_poll|exact H].
Qed.

Lemma run_calls_consistent (tasks : list AgentTask) (tr : list Event) (s : RunState) :
  unique_ids tasks -> run (initial tasks) tr = Some s -> calls_consistent s.
Proof.
  intros Hu Hrun.
  apply (run_invariant calls_consistent) with (tr := tr) (s := initial tasks).
  - apply step_calls_consistent.
  - apply calls_consistent_initial, Hu.
  - exact Hrun.
Qed.

(** ** Statuses only move forward *)

Lemma pass_moves (s0 : RunState) (o : IterOutcome) (s1 : RunState)
    (i : nat) (t0 t' : AgentTask) :
  unique_ids (tasksRef s0) ->
  processQueue_iter s0 = (o, s1) ->
  tasksRef s0 !! i = Some t0 -> tasksRef s1 !! i = Some t' ->
  t' = t0 \/ (status t0 = Pending /\ t' = with_status t0 Running).
Proof.
  intros Hu Hit Ht0 Ht'.
  destruct (processQueue_iter_spec s0) as [(o' & _ & E)|(n & _ & Hp & E)];
    rewrite E in Hit; injection Hit as <- <-.
  - left. congruence.
  - destruct (launch_transition s0 n Hu Hp) as (Hpos & Hpend & _).
    destruct (Hpos i t0 t' Ht0 Ht') as [[-> ->] | [_ ->]]; auto.
Qed.

Lemma completion_moves (s : RunState) (j : nat) (c : ExecutorCall)
    (i : nat) (t t0 : AgentTask) :
  calls_consistent s ->
  calls s !! j = Some c -> call_settled c = false ->
  tasksRef s !! i = Some t ->
  updateStatus_list (id (call_task c)) Completed (tasksRef s) !! i = Some t0 ->
  t0 = t \/ (status t = Running /\ t0 = with_status t Completed).
Proof.
  intros (Hu & _ & Hc & _) Hj Hs Ht Ht0.
  unfold updateStatus_list in Ht0. rewrite lookup_map, Ht in Ht0.
  injection Ht0 as <-.
  destruct (String.eqb (id t) (id (call_task c))) eqn:E; [|left; reflexivity].
  apply String_eqb_eq in E. right. split; [|reflexivity].
  destruct (Hc c (lookup_In _ _ _ Hj)) as (u & Hin & Hid & Hst).
  assert (u = t).
  { eapply unique_ids_eq; eauto using lookup_In. unfold call_id in Hid. congruence. }
  subst u. destruct Hst as [Hst | [Hst _]]; [exact Hst|congruence].
Qed.

(** In a run from a graph with unique ids, one event changes the status
    of a task in one of two ways only, pending to running or running to
    completed, and keeps the task's id and dependency list; so a
    completed or failed task keeps its status for the rest of the run. *)
Theorem status_moves_forward
    (tasks : list AgentTask) (tr : list Event) (s : RunState) (e : Event)
    (s' : RunState) (i : nat) (t t' : AgentTask) :
  unique_ids tasks ->
  run (initial tasks) tr = Some s ->
  step s e = Some s' ->
  tasksRef s !! i = Some t ->
  tasksRef s' !! i = Some t' ->
  status_move (status t) (status t') /\
  id t' = id t /\ dependencies t' = dependencies t.
Proof.
  intros Hu0 Hrun Hstep Ht Ht'.
  pose proof (run_calls_consistent _ _ _ Hu0 Hrun) as Hinv.
  pose proof Hinv as (Hu & _).
  unfold status_move.
  destruct (step_cases s e s' Hstep)
    as [(_ & _ & [E | (taskId & E)])
       |(s0 & o & s1 & Hit & (Hts & _ & _) & _ & Hs0)].
  - rewrite E, Ht in Ht'. injection Ht' as <-. auto.
  - rewrite E in Ht'. unfold toggleTaskPriority in Ht'.
    rewrite lookup_map, Ht in Ht'. injection Ht' as <-.
    destruct (toggle_one_fields taskId t) as (Hi & _ & _ & _ & _ & Hs & Hd & _).
    rewrite Hi, Hs, Hd. auto.
  - rewrite Hts in Ht'.
    destruct Hs0 as [[E _]|(j & c & r & Hj & Hset & ->)].
    + assert (Hu0' : unique_ids (tasksRef s0)) by (rewrite E; exact Hu).
      rewrite <- E in Ht.
      destruct (pass_moves _ _ _ _ _ _ Hu0' Hit Ht Ht') as [-> | [Hp ->]];
        simpl; auto.
    + assert (Hus0 : unique_ids
                 (tasksRef (completed_by (call_task c) r (mark_settled j s)))).
      { unfold unique_ids. simpl. rewrite updateStatus_list_ids. exact Hu. }
      destruct (updateStatus_list (id (call_task c)) Completed (tasksRef s) !! i)
        as [t0|] eqn:Ht0.
      2:{ unfold updateStatus_list in Ht0. rewrite lookup_map, Ht in Ht0.
          discriminate. }
      destruct (completion_moves _ _ _ _ _ _ Hinv Hj Hset Ht Ht0)
        as [-> | [Hrunning ->]];
        destruct (pass_moves _ _ _ _ _ _ Hus0 Hit Ht0 Ht') as [-> | [Hp ->]];
        simpl in *; auto; discriminate.
Qed.

Lemma status_moves_forward_witness :
  unique_ids chain_graph /\
  run (initial chain_graph) out_of_order_trace
  = Some (state_after chain_graph out_of_order_trace) /\
  step (state_after chain_graph out_of_order_trace) out_of_order_last
  = Some (state_after chain_graph (out_of_order_trace ++ [out_of_order_last])) /\
  tasksRef (state_after chain_graph out_of_order_trace) !! 0
  = Some (with_status task_A Running) /\
  tasksRef (state_after chain_graph (out_of_order_trace ++ [out_of_order_last])) !! 0
  = Some (with_status task_A Completed) /\
  (status_move (status (with_status task_A Running))
               (status (with_status task_A Completed)) /\
   id (with_status task_A Completed) = id (with_status task_A Running) /\
   dependencies (with_status task_A Completed)
   = dependencies (with_status task_A Running)).
Proof.
  assert (H1 : unique_ids chain_graph) by solve_unique_ids.
  assert (H2 : run (initial chain_graph) out_of_order_trace
               = Some (state_after chain_graph out_of_order_trace))
    by (vm_compute; reflexivity).
  assert (H3 : step (state_after chain_graph out_of_order_trace) out_of_order_last
               = Some (state_after chain_graph
                         (out_of_order_trace ++ [out_of_order_last])))
    by (vm_compute; reflexivity).
  assert (H4 : tasksRef (state_after chain_graph out_of_order_trace) !! 0
               = Some (with_status task_A Running)) by (vm_compute; reflexivity).
  assert (H5 : tasksRef (state_after chain_graph
                           (out_of_order_trace ++ [out_of_order_last])) !! 0
               = Some (with_status task_A Completed)) by (vm_compute; reflexivity).
  repeat (split; [assumption|]).
  exact (status_moves_forward _ _ _ _ _ _ _ _ H1 H2 H3 H4 H5).
Defined.

(** ** Each task is handed to the executor at most once *)

(** In a run from a graph with unique ids no two executor calls are made
    for the same task id, and every call is for a task of the list that
    is no longer pending. *)
Theorem each_task_dispatched_once
    (tasks : list AgentTask) (tr : list Event) (s : RunState) :
  unique_ids tasks ->
  run (initial tasks) tr = Some s ->
  NoDup (map call_id (calls s)) /\
  (forall c, In c (calls s) ->
     exists t, In t (tasksRef s) /\ id t = call_id c /\ status t <> Pending) /\
  length (calls s) <= length (tasksRef s).
Proof.
  intros Hu Hrun.
  destruct (run_calls_consistent _ _ _ Hu Hrun) as (Hus & Hnd & Hc & _).
  assert (Hnamed : forall c, In c (calls s) ->
            exists t, In t (tasksRef s) /\ id t = call_id c /\ status t <> Pending).
  { intros c Hin. destruct (Hc c Hin) as (t & Ht & Hid & Hst).
    exists t. split; [exact Ht|]. split; [exact Hid|].
    destruct Hst as [-> | [_ ->]]; discriminate. }
  split; [exact Hnd|]. split; [exact Hnamed|].
  rewrite <- (length_map call_id (calls s)), <- (length_map id (tasksRef s)).
  apply submseteq_length, NoDup_submseteq; [exact Hnd|].
  intros x Hx. apply list_elem_of_In, in_map_iff in Hx as (c & <- & Hin).
  destruct (Hnamed c Hin) as (t & Ht & Hid & _).
  apply list_elem_of_In, in_map_iff. eauto.
Qed.

Lemma each_task_dispatched_once_witness :
  unique_ids chain_graph /\
  run (initial chain_graph) (out_of_order_trace ++ [out_of_order_last])
  = Some (state_after chain_graph (out_of_order_trace ++ [out_of_order_last])) /\
  (NoDup (map call_id
            (calls (state_after chain_graph
                      (out_of_order_trace ++ [out_of_order_last])))) /\
   (forall c,
      In c (calls (state_after chain_graph
                     (out_of_order_trace ++ [out_of_order_last]))) ->
      exists t,
        In t (tasksRef (state_after chain_graph
                          (out_of_order_trace ++ [out_of_order_last]))) /\
        id t = call_id c /\ status t <> Pending) /\
   length (calls (state_after chain_graph
                    (out_of_order_trace ++ [out_of_order_last])))
   <= length (tasksRef (state_after chain_graph
                          (out_of_order_trace ++ [out_of_order_last])))).
Proof.
  assert (H1 : unique_ids chain_graph) by solve_unique_ids.
  assert (H2 : run (initial chain_graph) (out_of_order_trace ++ [out_of_order_last])
               = Some (state_after chain_graph
                         (out_of_order_trace ++ [out_of_order_last])))
    by (vm_compute; reflexivity).
  split; [exact H1|]. split; [exact H2|].
  exact (each_task_dispatched_once _ _ _ H1 H2).
Defined.

(** ** Executor calls in flight *)

Lemma NoDup_map_filter {A B : Type} (f : A -> B) (p : A -> bool) (l : list A) :
  NoDup (map f l) -> NoDup (map f (List.filter p l)).
Proof.
  induction l as [|x l IH]; simpl; intros Hnd; [constructor|].
  inversion Hnd as [|? ? Hnot Hl]; subst.
  destruct (p x); simpl; [|apply IH, Hl].
  constructor; [|apply IH, Hl].
  intros Hin. apply Hnot.
  apply list_elem_of_In, in_map_iff in Hin as (y & E & Hy).
  apply filter_In in Hy as [Hy _].
  apply list_elem_of_In, in_map_iff. eauto.
Qed.

Lemma in_flight_running (s : RunState) :
  calls_consistent s -> length (in_flight s) <= running_count (tasksRef s).
Proof.
  intros (_ & Hnd & Hc & _). unfold running_count.
  rewrite <- (length_map call_id (in_flight s)),
          <- (length_map id (running_of (tasksRef s))).
  apply submseteq_length, NoDup_submseteq.
  - apply NoDup_map_filter, Hnd.
  - intros x Hx. apply list_elem_of_In, in_map_iff in Hx as (c & <- & Hin).
    apply filter_In in Hin as [Hin Hs]. apply negb_true_iff in Hs.
    destruct (Hc c Hin) as (t & Ht & Hid & Hst).
    apply list_elem_of_In, in_map_iff. exists t. split; [exact Hid|].
    apply filter_In. split; [exact Ht|]. apply has_status_iff.
    destruct Hst as [Hst | [Hst _]]; [exact Hst|congruence].
Qed.

Lemma run_running_count (tasks : list AgentTask) (tr : list Event) (s : RunState) :
  unique_ids tasks -> running_count tasks <= MAX_CONCURRENCY ->
  run (initial tasks) tr = Some s ->
  running_count (tasksRef s) <= MAX_CONCURRENCY.
Proof.
  intros Hu Hc Hrun.
  assert (Hinv : unique_ids (tasksRef s) /\
                 running_count (tasksRef s) <= MAX_CONCURRENCY).
  { apply (run_invariant
             (fun s => unique_ids (tasksRef s) /\
                       running_count (tasksRef s) <= MAX_CONCURRENCY))
      with (tr := tr) (s := initial tasks).
    - intros s0 e s1 [H1 H2] Hstep. split.
      + eapply step_unique_ids; eauto.
      + eapply step_running_count; eauto.
    - split; assumption.
    - exact Hrun. }
  apply Hinv.
Qed.

(** In a run from a graph with unique ids and at most [MAX_CONCURRENCY]
    tasks running to begin with, the number of executor calls whose
    promise has not settled never exceeds the number of running tasks,
    hence never exceeds [MAX_CONCURRENCY]. *)
Theorem calls_in_flight_bounded
    (tasks : list AgentTask) (tr : list Event) (s : RunState) :
  unique_ids tasks ->
  running_count tasks <= MAX_CONCURRENCY ->
  run (initial tasks) tr = Some s ->
  length (in_flight s) <= running_count (tasksRef s) /\
  length (in_flight s) <= MAX_CONCURRENCY.
Proof.
  intros Hu Hc Hrun.
  pose proof (in_flight_running s (run_calls_consistent _ _ _ Hu Hrun)) as H1.
  pose proof (run_running_count _ _ _ Hu Hc Hrun) as H2.
  split; [exact H1|]. etransitivity; eassumption.
Qed.

Lemma calls_in_flight_bounded_witness :
  unique_ids chain_graph /\
  running_count chain_graph <= MAX_CONCURRENCY /\
  run (initial chain_graph) [EvStart; EvWakeMain]
  = Some (state_after chain_graph [EvStart; EvWakeMain]) /\
  (length (in_flight (state_after chain_graph [EvStart; EvWakeMain]))
   <= running_count (tasksRef (state_after chain_graph [EvStart; EvWakeMain])) /\
   length (in_flight (state_after chain_graph [EvStart; EvWakeMain]))
   <= MAX_CONCURRENCY).
Proof.
  assert (H1 : unique_ids chain_graph) by solve_unique_ids.
  assert (H2 : running_count chain_graph <= MAX_CONCURRENCY) by (vm_compute; lia).
  assert (H3 : run (initial chain_graph) [EvStart; EvWakeMain]
               = Some (state_after chain_graph [EvStart; EvWakeMain]))
    by (vm_compute; reflexivity).
  split; [exact H1|]. split; [exact H2|]. split; [exact H3|].
  exact (calls_in_flight_bounded _ _ _ H1 H2 H3).
Defined.

(** ** A stored result is never replaced *)

Lemma pass_keeps_results (s0 : RunState) (o : IterOutcome) (s1 : RunState) :
  processQueue_iter s0 = (o, s1) -> taskResultsMap s1 = taskResultsMap s0.
Proof.
  intros Hit.
  destruct (processQueue_iter_spec s0) as [(o' & _ & E)|(n & _ & _ & E)];
    rewrite E in Hit; injection Hit as <- <-; reflexivity.
Qed.

Lemma step_keeps_result (s : RunState) (e : Event) (s' : RunState)
    (k : string) (r : SearchResult) :
  calls_consistent s -> step s e = Some s' ->
  taskResultsMap s !! k = Some r -> taskResultsMap s' !! k = Some r.
Proof.
  intros Hinv Hstep Hk.
  destruct (step_cases s e s' Hstep)
    as [(Hm & _ & _)|(s0 & o & s1 & Hit & (_ & Hms & _) & _ & Hs0)].
  - rewrite Hm. exact Hk.
  - rewrite Hms, (pass_keeps_results _ _ _ Hit).
    destruct Hs0 as [[_ E]|(j & c & r0 & Hj & Hset & ->)].
    + rewrite E. exact Hk.
    + simpl. destruct (decide (id (call_task c) = k)) as [E|Hne].
      * exfalso. destruct Hinv as (_ & _ & Hc & Hr).
        destruct (Hc c (lookup_In _ _ _ Hj)) as (t & Ht & Hid & Hst).
        assert (Hdone : status t = Completed).
        { apply Hr; [exact Ht|]. unfold call_id in Hid. rewrite Hid, E. eauto. }
        destruct Hst as [Hst | [Hst _]]; congruence.
      * rewrite lookup_insert_ne by exact Hne. exact Hk.
Qed.

(** In a run from a graph with unique ids, a result stored under a task
    id is still the result stored under that id after any further events:
    the result table is written once per id. *)
Theorem stored_result_never_replaced
    (tasks : list AgentTask) (tr tr' : list Event) (s s' : RunState)
    (k : string) (r : SearchResult) :
  unique_ids tasks ->
  run (initial tasks) tr = Some s ->
  run s tr' = Some s' ->
  taskResultsMap s !! k = Some r ->
  taskResultsMap s' !! k = Some r.
Proof.
  intros Hu Hrun Hrun' Hk.
  pose proof (run_calls_consistent _ _ _ Hu Hrun) as Hinv.
  clear Hrun. revert s Hinv Hrun' Hk.
  induction tr' as [|e tr' IH]; simpl; intros s Hinv Hrun' Hk.
  - injection Hrun' as <-. exact Hk.
  - destruct (step s e) as [s1|] eqn:E; [|discriminate].
    apply (IH s1).
    + eapply step_calls_consistent; eauto.
    + exact Hrun'.
    + eapply step_keeps_result; eauto.
Qed.

Lemma stored_result_never_replaced_witness :
  unique_ids chain_graph /\
  run (initial chain_graph) out_of_order_trace
  = Some (state_after chain_graph out_of_order_trace) /\
  run (state_after chain_graph out_of_order_trace)
      [out_of_order_last; EvSettle 2 (Fulfilled (sample_result "rc"))]
  = Some (state_after chain_graph
            (out_of_order_trace ++
             [out_of_order_last; EvSettle 2 (Fulfilled (sample_result "rc"))])) /\
  taskResultsMap (state_after chain_graph out_of_order_trace) !! "B"
  = Some (sample_result "rb") /\
  taskResultsMap
    (state_after chain_graph
       (out_of_order_trace ++
        [out_of_order_last; EvSettle 2 (Fulfilled (sample_result "rc"))])) !! "B"
  = Some (sample_result "rb").
Proof.
  assert (H1 : unique_ids chain_graph) by solve_unique_ids.
  assert (H2 : run (initial chain_graph) out_of_order_trace
               = Some (state_after chain_graph out_of_order_trace))
    by (vm_compute; reflexivity).
  assert (H3 : run (state_after chain_graph out_of_order_trace)
                   [out_of_order_last; EvSettle 2 (Fulfilled (sample_result "rc"))]
               = Some (state_after chain_graph
                         (out_of_order_trace ++
                          [out_of_order_last;
                           EvSettle 2 (Fulfilled (sample_result "rc"))])))
    by (vm_compute; reflexivity).
  assert (H4 : taskResultsMap (state_after chain_graph out_of_order_trace) !! "B"
               = Some (sample_result "rb")) by (vm_compute; reflexivity).
  repeat (split; [assumption|]).
  exact (stored_result_never_replaced _ _ _ _ _ _ _ H1 H2 H3 H4).
Defined.

(** ** Priorities and eligibility *)

Lemma filter_map_comm {A B : Type} (p : B -> bool) (f : A -> B) (l : list A) :
  List.filter p (map f l) = map f (List.filter (fun x => p (f x)) l).
Proof.
  induction l as [|x l IH]; simpl; [reflexivity|].
  destruct (p (f x)); simpl; rewrite IH; reflexivity.
Qed.

Lemma filter_status_toggle (st : Status) (taskId : string) (l : list AgentTask) :
  List.filter (has_status st) (toggleTaskPriority taskId l)
  = toggleTaskPriority taskId (List.filter (has_status st) l).
Proof.
  unfold toggleTaskPriority. rewrite filter_map_comm. f_equal.
  apply filter_ext. intros t. unfold has_status.
  destruct (toggle_one_fields taskId t) as (_ & _ & _ & _ & _ & Hs & _).
  rewrite Hs. reflexivity.
Qed.

Lemma existsb_id (d : string) (l : list AgentTask) :
  existsb (fun c => String.eqb (id c) d) l
  = existsb (fun i => String.eqb i d) (map id l).
Proof. induction l as [|x l IH]; simpl; [reflexivity|]. rewrite IH. reflexivity. Qed.

Lemma dependencies_met_ids (c1 c2 : list AgentTask) (t1 t2 : AgentTask) :
  map id c1 = map id c2 -> dependencies t1 = dependencies t2 ->
  dependencies_met c1 t1 = dependencies_met c2 t2.
Proof.
  intros Hc Hd. unfold dependencies_met. rewrite Hd.
  destruct (dependencies t2) as [[|d ds]|]; try reflexivity.
  generalize (d :: ds) as deps. intros deps.
  induction deps as [|depId deps IH]; simpl; [reflexivity|].
  rewrite !existsb_id, Hc, IH. reflexivity.
Qed.

Lemma executableTasks_toggle (taskId : string) (l : list AgentTask) :
  executableTasks (toggleTaskPriority taskId l)
  = toggleTaskPriority taskId (executableTasks l).
Proof.
  unfold executableTasks, pending_of, completed_of.
  rewrite !filter_status_toggle.
  unfold toggleTaskPriority at 2 3. rewrite filter_map_comm. f_equal.
  apply filter_ext. intros t. apply dependencies_met_ids.
  - apply toggle_ids.
  - apply (toggle_one_fields taskId t).
Qed.

(** Toggling a priority changes neither which tasks are eligible nor
    their order: the eligible set of the toggled list is the toggled
    eligible set, so its tasks have the same ids, in the same order, and
    the same number of tasks is running. *)
Theorem toggle_keeps_eligibility (taskId : string) (l : list AgentTask) :
  executableTasks (toggleTaskPriority taskId l)
  = toggleTaskPriority taskId (executableTasks l) /\
  map id (executableTasks (toggleTaskPriority taskId l))
  = map id (executableTasks l) /\
  running_count (toggleTaskPriority taskId l) = running_count l.
Proof.
  split; [apply executableTasks_toggle|]. split.
  - rewrite executableTasks_toggle. apply toggle_ids.
  - apply running_count_statuses, toggle_statuses.
Qed.

Lemma toggle_nil_iff (taskId : string) (l : list AgentTask) :
  toggleTaskPriority taskId l = [] <-> l = [].
Proof. unfold toggleTaskPriority. destruct l; simpl; split; congruence. Qed.

Lemma can_launch_toggle (taskId : string) (l : list AgentTask) :
  can_launch (toggleTaskPriority taskId l) <-> can_launch l.
Proof.
  unfold can_launch.
  rewrite (running_count_statuses _ l (toggle_statuses taskId l)).
  rewrite executableTasks_toggle, toggle_nil_iff. reflexivity.
Qed.

(** ** No launch is missed *)

Lemma IterDelay_dec (o : IterOutcome) : o = IterDelay \/ o <> IterDelay.
Proof. destruct o; auto; right; discriminate. Qed.

Lemma pass_keeps_control (s0 : RunState) (o : IterOutcome) (s1 : RunState) :
  processQueue_iter s0 = (o, s1) ->
  phase s1 = phase s0 /\ spawned s1 = spawned s0.
Proof.
  intros Hit.
  destruct (processQueue_iter_spec s0) as [(o' & _ & E)|(n & _ & _ & E)];
    rewrite E in Hit; injection Hit as <- <-; split; reflexivity.
Qed.

Lemma pass_without_launch (s0 : RunState) (o : IterOutcome) (s1 : RunState) :
  processQueue_iter s0 = (o, s1) -> o <> IterDelay ->
  s1 = s0 /\ ~ can_launch (tasksRef s0).
Proof.
  intros Hit Ho. split.
  - destruct (processQueue_iter_spec s0) as [(o' & _ & E)|(n & _ & _ & E)];
      rewrite E in Hit; injection Hit as <- <-; [reflexivity|congruence].
  - intros [Hr He].
    destruct (processQueue_iter_launch s0 Hr He) as (n & _ & E).
    rewrite E in Hit. congruence.
Qed.

Lemma poll_phase (s : RunState) : phase (poll s) <> NotStarted /\
                                  phase (poll s) <> AwaitingQueue.
Proof. unfold poll. destruct (existsb _ _); simpl; split; discriminate. Qed.

Lemma step_launch_pending (s : RunState) (e : Event) (s' : RunState) :
  (phase s = NotStarted /\ spawned s = 0 /\ calls s = []) \/ launch_pending s ->
  step s e = Some s' -> launch_pending s'.
Proof.
  intros Hpre.
  assert (Hmain : forall o s1, processQueue_iter s = (o, s1) ->
                               launch_pending (after_main o s1)).
  { intros o s1 Hit. destruct (IterDelay_dec o) as [->|Ho].
    - split; [discriminate|]. intros _. left. reflexivity.
    - destruct (pass_without_launch _ _ _ Hit Ho) as [-> Hno].
      assert (E : after_main o s = poll s) by (destruct o; try reflexivity; congruence).
      rewrite E. split; [apply poll_phase|].
      destruct (same_core_poll s) as (Ht & _). rewrite Ht. tauto. }
  destruct e as [| | |i o|taskId|]; simpl.
  - destruct (phase s); try discriminate.
    destruct (processQueue_iter s) as [o s1] eqn:E. intros [= <-]. eauto.
  - destruct (phase s); try discriminate.
    destruct (processQueue_iter s) as [o s1] eqn:E. intros [= <-]. eauto.
  - destruct (spawned s) as [|n] eqn:Hsp; try discriminate.
    destruct Hpre as [(_ & Hz & _)|[Hph Hl]]; [discriminate|].
    destruct (processQueue_iter s) as [o s1] eqn:E. intros [= <-].
    destruct (pass_keeps_control _ _ _ E) as [Hp1 Hs1].
    destruct (IterDelay_dec o) as [->|Ho].
    + split; [congruence|]. intros _. right. rewrite Hs1, Hsp. lia.
    + destruct (pass_without_launch _ _ _ E Ho) as [-> Hno].
      assert (Hcore : tasksRef (match o with IterDelay => s | _ => set_spawned s n end)
                      = tasksRef s /\
                      phase (match o with IterDelay => s | _ => set_spawned s n end)
                      = phase s) by (destruct o; split; reflexivity).
      destruct Hcore as [Ht Hp]. split; [rewrite Hp; exact Hph|].
      rewrite Ht. tauto.
  - destruct (calls s !! i) as [c|] eqn:Hc; try discriminate.
    destruct Hpre as [(_ & _ & Hnil)|[Hph Hl]];
      [rewrite Hnil in Hc; discriminate|].
    destruct (call_settled c) eqn:Hs; try discriminate.
    destruct o as [r|reason].
    + rewrite on_fulfilled_eq.
      destruct (processQueue_iter
                  (completed_by (call_task c) r (mark_settled i s)))
        as [o' s1] eqn:E. intros [= <-].
      destruct (pass_keeps_control _ _ _ E) as [Hp1 Hs1]. simpl in Hp1.
      destruct (IterDelay_dec o') as [->|Ho].
      * split; [simpl; congruence|]. intros _. right. simpl. lia.
      * destruct (pass_without_launch _ _ _ E Ho) as [-> Hno].
        assert (Heq : match o' with
                      | IterDelay =>
                          set_spawned (completed_by (call_task c) r (mark_settled i s))
                            (S (spawned (completed_by (call_task c) r (mark_settled i s))))
                      | _ => completed_by (call_task c) r (mark_settled i s)
                      end = completed_by (call_task c) r (mark_settled i s))
          by (destruct o'; try reflexivity; congruence).
        rewrite Heq. split; [exact Hph|]. tauto.
    + intros [= <-]. split; [exact Hph|]. exact Hl.
  - destruct Hpre as [(Hn & _)|[Hph Hl]].
    + rewrite Hn. discriminate.
    + destruct (phase s) eqn:Hp; try discriminate; intros [= <-];
        (split; [simpl; rewrite Hp; discriminate|]);
        simpl; rewrite can_launch_toggle, Hp; exact Hl.
  - destruct Hpre as [(Hn & _)|[Hph Hl]].
    + rewrite Hn. discriminate.
    + destruct (phase s) eqn:Hp; try discriminate. intros [= <-].
      split; [apply poll_phase|].
      destruct (same_core_poll s) as (Ht & _). rewrite Ht. intros Hcan.
      right. destruct (Hl Hcan) as [?|Hsp]; [discriminate|].
      unfold poll. destruct (existsb _ _); exact Hsp.
Qed.

Lemma run_launch_pending (tasks : list AgentTask) (tr : list Event) (s : RunState) :
  run (initial tasks) (EvStart :: tr) = Some s -> launch_pending s.
Proof.
  cbn [run]. destruct (step (initial tasks) EvStart) as [s1|] eqn:E; [|discriminate].
  intros Hrun.
  apply (run_invariant launch_pending) with (tr := tr) (s := s1).
  - intros s0 e s2 H Hstep. eapply step_launch_pending; eauto.
  - eapply step_launch_pending; [|exact E]. left. repeat split.
  - exact Hrun.
Qed.

(** Once the run has started, whenever fewer than [MAX_CONCURRENCY]
    tasks are running and some task is eligible, an activation of
    [processQueue] is suspended in its delay, and its wake-up launches
    the task that [pick_next] selects: the scheduler never sits idle
    with a free slot and an eligible task. *)
Theorem no_launch_is_missed
    (tasks : list AgentTask) (tr : list Event) (s : RunState) :
  run (initial tasks) (EvStart :: tr) = Some s ->
  can_launch (tasksRef s) ->
  (phase s = AwaitingQueue \/ 0 < spawned s) /\
  exists e n s',
    (e = EvWakeMain \/ e = EvWakeSpawned) /\
    step s e = Some s' /\
    pick_next (executableTasks (tasksRef s)) = Some n /\
    tasksRef s' = updateStatus_list (id n) Running (tasksRef s).
Proof.
  intros Hrun Hcan.
  destruct (run_launch_pending _ _ _ Hrun) as [_ Hl].
  specialize (Hl Hcan). split; [exact Hl|].
  destruct Hcan as [Hr He].
  destruct (processQueue_iter_launch s Hr He) as (n & Hp & Hit).
  destruct Hl as [Hph | Hsp].
  - exists EvWakeMain, n, (after_main IterDelay (launch n s)).
    split; [left; reflexivity|]. split; [|split; [exact Hp|reflexivity]].
    simpl. rewrite Hph, Hit. reflexivity.
  - exists EvWakeSpawned, n, (launch n s).
    split; [right; reflexivity|]. split; [|split; [exact Hp|reflexivity]].
    simpl. destruct (spawned s); [lia|]. rewrite Hit. reflexivity.
Qed.

Lemma no_launch_is_missed_witness :
  run (initial chain_graph) (EvStart :: [])
  = Some (state_after chain_graph [EvStart]) /\
  can_launch (tasksRef (state_after chain_graph [EvStart])) /\
  ((phase (state_after chain_graph [EvStart]) = AwaitingQueue \/
    0 < spawned (state_after chain_graph [EvStart])) /\
   exists e n s',
     (e = EvWakeMain \/ e = EvWakeSpawned) /\
     step (state_after chain_graph [EvStart]) e = Some s' /\
     pick_next (executableTasks (tasksRef (state_after chain_graph [EvStart])))
     = Some n /\
     tasksRef s'
     = updateStatus_list (id n) Running
         (tasksRef (state_after chain_graph [EvStart]))).
Proof.
  assert (H1 : run (initial chain_graph) (EvStart :: [])
               = Some (state_after chain_graph [EvStart]))
    by (vm_compute; reflexivity).
  assert (H2 : can_launch (tasksRef (state_after chain_graph [EvStart]))).
  { split; [vm_compute; lia|vm_compute; discriminate]. }
  split; [exact H1|]. split; [exact H2|].
  exact (no_launch_is_missed _ _ _ H1 H2).
Defined.

(** ** Synthesis starts from a finished graph *)

Lemma existsb_unfinished_false (l : list AgentTask) :
  existsb unfinished l = false ->
  forall t, In t l -> status t = Completed \/ status t = Failed.
Proof.
  intros H t Ht.
  destruct (status t) eqn:E; auto; exfalso;
    (assert (Hex : existsb unfinished l = true);
     [apply existsb_exists; exists t; split; [exact Ht|];
      unfold unfinished; rewrite E; reflexivity
     |congruence]).
Qed.

Lemma in_flight_nil_of (s : RunState) :
  calls_consistent s ->
  (forall t, In t (tasksRef s) -> status t = Completed \/ status t = Failed) ->
  in_flight s = [].
Proof.
  intros (_ & _ & Hc & _) Hterm. unfold in_flight. apply filter_nil_of.
  intros c Hin. destruct (call_settled c) eqn:Hs; [reflexivity|].
  destruct (Hc c Hin) as (t & Ht & _ & Hst).
  destruct (Hterm t Ht) as [E|E];
    destruct Hst as [Hst | [Hst _]]; congruence.
Qed.

Lemma finalResults_of_core (s s' : RunState) :
  same_core s s' -> finalResults_of s' = finalResults_of s.
Proof. intros (Ht & Hm & _). unfold finalResults_of. rewrite Ht, Hm. reflexivity. Qed.

Lemma in_flight_core (s s' : RunState) :
  same_core s s' -> in_flight s' = in_flight s.
Proof. intros (_ & _ & Hc). unfold in_flight. rewrite Hc. reflexivity. Qed.

Lemma synthesis_final_core (s s' : RunState) :
  same_core s s' -> phase s' = phase s -> synthesis_final s -> synthesis_final s'.
Proof.
  intros Hcore Hp H fr Hfr. rewrite Hp in Hfr.
  destruct (H fr Hfr) as (H1 & H2 & H3).
  rewrite (finalResults_of_core _ _ Hcore), (in_flight_core _ _ Hcore).
  destruct Hcore as (Ht & _). rewrite Ht. auto.
Qed.

Lemma synthesis_final_poll (s : RunState) :
  calls_consistent s -> synthesis_final (poll s).
Proof.
  intros Hinv fr. unfold poll.
  destruct (existsb unfinished (tasksRef s)) eqn:E; simpl; [discriminate|].
  intros [= <-].
  pose proof (existsb_unfinished_false _ E) as Hterm.
  split; [exact Hterm|]. split; [reflexivity|].
  apply (in_flight_nil_of s Hinv Hterm).
Qed.

Lemma in_flight_lookup (s : RunState) (i : nat) (c : ExecutorCall) :
  calls s !! i = Some c -> call_settled c = false -> in_flight s <> [].
Proof.
  intros Hi Hs E.
  assert (Hin : In c (in_flight s)).
  { apply filter_In. split; [eapply lookup_In, Hi|]. rewrite Hs. reflexivity. }
  rewrite E in Hin. exact Hin.
Qed.

Lemma pass_on_finished (s : RunState) (o : IterOutcome) (s1 : RunState) :
  (forall t, In t (tasksRef s) -> status t = Completed \/ status t = Failed) ->
  processQueue_iter s = (o, s1) -> s1 = s /\ o <> IterDelay.
Proof.
  intros Hterm Hit.
  destruct (processQueue_iter_spec s) as [(o' & Ho & E)|(n & _ & Hp & E)];
    rewrite E in Hit; injection Hit as <- <-; [auto|].
  apply pick_next_In, executableTasks_In in Hp as [Hn [Hpend _]].
  destruct (Hterm n Hn); congruence.
Qed.

Lemma step_synthesis_final (s : RunState) (e : Event) (s' : RunState) :
  calls_consistent s -> synthesis_final s -> step s e = Some s' ->
  synthesis_final s'.
Proof.
  intros Hinv Hfin.
  assert (Hmain : forall o s1, processQueue_iter s = (o, s1) ->
                               synthesis_final (after_main o s1)).
  { intros o s1 Hit. destruct (IterDelay_dec o) as [->|Ho].
    - intros fr. simpl. discriminate.
    - destruct (pass_without_launch _ _ _ Hit Ho) as [-> _].
      assert (E : after_main o s = poll s) by (destruct o; try reflexivity; congruence).
      rewrite E. apply synthesis_final_poll, Hinv. }
  destruct e as [| | |i o|taskId|]; simpl.
  - destruct (phase s); try discriminate.
    destruct (processQueue_iter s) as [o s1] eqn:E. intros [= <-]. eauto.
  - destruct (phase s); try discriminate.
    destruct (processQueue_iter s) as [o s1] eqn:E. intros [= <-]. eauto.
  - destruct (spawned s) as [|n] eqn:Hsp; try discriminate.
    destruct (processQueue_iter s) as [o s1] eqn:E. intros [= <-].
    intros fr Hfr.
    assert (Hph : phase s = Synthesizing fr).
    { destruct (pass_keeps_control _ _ _ E) as [Hp1 _].
      rewrite <- Hp1. destruct o; exact Hfr. }
    destruct (Hfin fr Hph) as (Hterm & Hfr' & Hfl).
    destruct (pass_on_finished _ _ _ Hterm E) as [-> Ho].
    assert (Hcore : same_core s (match o with IterDelay => s | _ => set_spawned s n end))
      by (destruct o; repeat split).
    rewrite (finalResults_of_core _ _ Hcore), (in_flight_core _ _ Hcore).
    destruct Hcore as (Ht & _). rewrite Ht. auto.
  - destruct (calls s !! i) as [c|] eqn:Hc; try discriminate.
    destruct (call_settled c) eqn:Hs; try discriminate.
    assert (Hnot : forall fr, phase s <> Synthesizing fr).
    { intros fr Hph. destruct (Hfin fr Hph) as (_ & _ & Hfl).
      exact (in_flight_lookup s i c Hc Hs Hfl). }
    destruct o as [r|reason].
    + rewrite on_fulfilled_eq.
      destruct (processQueue_iter
                  (completed_by (call_task c) r (mark_settled i s)))
        as [o' s1] eqn:E. intros [= <-].
      intros fr Hfr. exfalso. apply (Hnot fr).
      destruct (pass_keeps_control _ _ _ E) as [Hp1 _]. simpl in Hp1.
      rewrite <- Hp1. destruct o'; exact Hfr.
    + intros [= <-]. intros fr Hfr. exfalso. exact (Hnot fr Hfr).
  - destruct (phase s) eqn:Hp; try discriminate; intros [= <-];
      intros fr; simpl; rewrite Hp; discriminate.
  - destruct (phase s); try discriminate. intros [= <-].
    apply synthesis_final_poll, Hinv.
Qed.

(** In a run from a graph with unique ids, when [handleStartExecution]
    has built [finalResults] every task is completed or failed, no
    executor call is in flight, and [finalResults] pairs every task of
    the list, in order, with the result stored under its id; when the
    run started with all tasks pending, the result paired with a
    completed task is the one stored for it, never the placeholder for a
    missing result. *)
Theorem synthesis_only_when_finished
    (tasks : list AgentTask) (tr : list Event) (s : RunState)
    (fr : list (AgentTask * SearchResult)) :
  unique_ids tasks ->
  run (initial tasks) tr = Some s ->
  phase s = Synthesizing fr ->
  (forall t, In t (tasksRef s) -> status t = Completed \/ status t = Failed) /\
  in_flight s = [] /\
  fr = finalResults_of s /\
  map fst fr = tasksRef s /\
  (Forall (fun t => status t = Pending) tasks ->
   forall t r, In (t, r) fr -> status t = Completed ->
               taskResultsMap s !! id t = Some r).
Proof.
  intros Hu Hrun Hph.
  assert (Hinv : calls_consistent s /\ synthesis_final s).
  { apply (run_invariant (fun s => calls_consistent s /\ synthesis_final s))
      with (tr := tr) (s := initial tasks).
    - intros s0 e s1 [H1 H2] Hstep. split.
      + eapply step_calls_consistent; eauto.
      + eapply step_synthesis_final; eauto.
    - split; [apply calls_consistent_initial, Hu|].
      intros fr0. simpl. discriminate.
    - exact Hrun. }
  destruct Hinv as [_ Hfin]. destruct (Hfin fr Hph) as (Hterm & -> & Hfl).
  split; [exact Hterm|]. split; [exact Hfl|]. split; [reflexivity|]. split.
  - unfold finalResults_of. rewrite map_map. simpl. apply map_id.
  - intros Hall t r Hin Hst. unfold finalResults_of in Hin.
    apply in_map_iff in Hin as (t0 & [= -> <-] & Ht0).
    destruct (run_results_stored _ _ _ Hall Hrun t Ht0 Hst) as [r0 Hr0].
    rewrite Hr0. reflexivity.
Qed.

Lemma synthesis_only_when_finished_witness :
  unique_ids chain_graph /\
  run (initial chain_graph) chain_full_trace
  = Some (state_after chain_graph chain_full_trace) /\
  phase (state_after chain_graph chain_full_trace)
  = Synthesizing (finalResults_of (state_after chain_graph chain_full_trace)) /\
  ((forall t, In t (tasksRef (state_after chain_graph chain_full_trace)) ->
              status t = Completed \/ status t = Failed) /\
   in_flight (state_after chain_graph chain_full_trace) = [] /\
   finalResults_of (state_after chain_graph chain_full_trace)
   = finalResults_of (state_after chain_graph chain_full_trace) /\
   map fst (finalResults_of (state_after chain_graph chain_full_trace))
   = tasksRef (state_after chain_graph chain_full_trace) /\
   (Forall (fun t => status t = Pending) chain_graph ->
    forall t r,
      In (t, r) (finalResults_of (state_after chain_graph chain_full_trace)) ->
      status t = Completed ->
      taskResultsMap (state_after chain_graph chain_full_trace) !! id t = Some r)).
Proof.
  assert (H1 : unique_ids chain_graph) by solve_unique_ids.
  assert (H2 : run (initial chain_graph) chain_full_trace
               = Some (state_after chain_graph chain_full_trace))
    by (vm_compute; reflexivity).
  assert (H3 : phase (state_after chain_graph chain_full_trace)
               = Synthesizing
                   (finalResults_of (state_after chain_graph chain_full_trace)))
    by (vm_compute; reflexivity).
  split; [exact H1|]. split; [exact H2|]. split; [exact H3|].
  exact (synthesis_only_when_finished _ _ _ _ H1 H2 H3).
Defined.

(** ** A run that cannot finish *)

Lemma dead_end_pass (s : RunState) :
  running_of (tasksRef s) = [] -> executableTasks (tasksRef s) = [] ->
  pending_of (tasksRef s) <> [] ->
  processQueue_iter s = (IterDeadlock, s).
Proof.
  intros Hr He Hp. unfold processQueue_iter. unfold_monad.
  rewrite Hr, He. destruct (pending_of (tasksRef s)); [congruence|]. reflexivity.
Qed.

Lemma pending_unfinished (l : list AgentTask) :
  pending_of l <> [] -> existsb unfinished l = true.
Proof.
  intros H. destruct (pending_of l) as [|t p] eqn:E; [congruence|].
  assert (Hin : In t (pending_of l)) by (rewrite E; left; reflexivity).
  apply filter_In in Hin as [Hin Hs]. apply has_status_iff in Hs.
  apply existsb_exists. exists t. split; [exact Hin|].
  unfold unfinished. rewrite Hs. reflexivity.
Qed.

Lemma dead_end_core (s s' : RunState) :
  same_core s s' -> (phase s' = AwaitingQueue \/ phase s' = WaitLoop) ->
  dead_end s -> dead_end s'.
Proof.
  intros Hcore Hp (_ & Hfl & Hr & He & Hpe).
  rewrite <- (in_flight_core _ _ Hcore) in Hfl.
  destruct Hcore as (Ht & _). unfold dead_end. rewrite Ht. auto.
Qed.

Lemma step_dead_end (s : RunState) (e : Event) (s' : RunState) :
  dead_end s -> step s e = Some s' ->
  dead_end s' /\ map status (tasksRef s') = map status (tasksRef s).
Proof.
  intros Hd. pose proof Hd as (Hph & Hfl & Hr & He & Hpe).
  pose proof (dead_end_pass s Hr He Hpe) as Hit.
  assert (Hpoll : poll s = set_phase s WaitLoop).
  { unfold poll. rewrite (pending_unfinished _ Hpe). reflexivity. }
  destruct e as [| | |i o|taskId|]; simpl.
  - destruct Hph as [E|E]; rewrite E; discriminate.
  - destruct (phase s); try discriminate. rewrite Hit. intros [= <-].
    simpl. rewrite Hpoll. split; [|reflexivity].
    apply (dead_end_core s); [repeat split|right; reflexivity|exact Hd].
  - destruct (spawned s) as [|n]; try discriminate. rewrite Hit. intros [= <-].
    split; [|reflexivity].
    apply (dead_end_core s); [repeat split|exact Hph|exact Hd].
  - destruct (calls s !! i) as [c|] eqn:Hc; try discriminate.
    destruct (call_settled c) eqn:Hs; try discriminate.
    exfalso. exact (in_flight_lookup s i c Hc Hs Hfl).
  - assert (Hgoal : dead_end (set_tasks s (toggleTaskPriority taskId (tasksRef s)))).
    { split; [exact Hph|]. split; [exact Hfl|]. simpl.
      unfold running_of, pending_of in *.
      rewrite !filter_status_toggle, executableTasks_toggle, Hr, He.
      split; [reflexivity|]. split; [reflexivity|].
      rewrite toggle_nil_iff. exact Hpe. }
    destruct (phase s); try discriminate; intros [= <-];
      (split; [exact Hgoal|apply toggle_statuses]).
  - destruct (phase s); try discriminate. intros [= <-].
    rewrite Hpoll. split; [|reflexivity].
    apply (dead_end_core s); [repeat split|right; reflexivity|exact Hd].
Qed.

(** From a state in which the run has started, nothing is running or in
    flight, nothing is eligible and something is pending, no sequence of
    events changes any status or reaches synthesis: every later pass of
    the loop body takes the potential-deadlock branch and every poll of
    the wait loop finds a pending task. *)
Theorem dead_end_never_finishes
    (s : RunState) (tr : list Event) (s' : RunState) :
  dead_end s ->
  run s tr = Some s' ->
  map status (tasksRef s') = map status (tasksRef s) /\
  (phase s' = AwaitingQueue \/ phase s' = WaitLoop) /\
  processQueue_iter s' = (IterDeadlock, s') /\
  existsb unfinished (tasksRef s') = true.
Proof.
  intros Hd Hrun.
  assert (H : dead_end s' /\ map status (tasksRef s') = map status (tasksRef s)).
  { revert s Hd Hrun. induction tr as [|e tr IH]; simpl; intros s Hd Hrun.
    - injection Hrun as <-. auto.
    - destruct (step s e) as [s1|] eqn:E; [|discriminate].
      destruct (step_dead_end _ _ _ Hd E) as [Hd1 Hs1].
      destruct (IH s1 Hd1 Hrun) as [Hd' Hs']. split; [exact Hd'|congruence]. }
  destruct H as [(Hph & _ & Hr & He & Hpe) Hst].
  split; [exact Hst|]. split; [exact Hph|].
  split; [apply dead_end_pass; assumption|apply pending_unfinished, Hpe].
Qed.

Lemma dead_end_never_finishes_witness :
  dead_end (state_after dangling_graph dangling_trace) /\
  run (state_after dangling_graph dangling_trace) [EvToggle "D"; EvPoll]
  = Some (state_after dangling_graph (dangling_trace ++ [EvToggle "D"; EvPoll])) /\
  (map status (tasksRef (state_after dangling_graph
                           (dangling_trace ++ [EvToggle "D"; EvPoll])))
   = map status (tasksRef (state_after dangling_graph dangling_trace)) /\
   (phase (state_after dangling_graph (dangling_trace ++ [EvToggle "D"; EvPoll]))
    = AwaitingQueue \/
    phase (state_after dangling_graph (dangling_trace ++ [EvToggle "D"; EvPoll]))
    = WaitLoop) /\
   processQueue_iter
     (state_after dangling_graph (dangling_trace ++ [EvToggle "D"; EvPoll]))
   = (IterDeadlock,
      state_after dangling_graph (dangling_trace ++ [EvToggle "D"; EvPoll])) /\
   existsb unfinished
     (tasksRef (state_after dangling_graph
                  (dangling_trace ++ [EvToggle "D"; EvPoll]))) = true).
Proof.
  assert (H1 : dead_end (state_after dangling_graph dangling_trace)).
  { split; [right; vm_compute; reflexivity|].
    split; [vm_compute; reflexivity|]. split; [vm_compute; reflexivity|].
    split; [vm_compute; reflexivity|vm_compute; discriminate]. }
  assert (H2 : run (state_after dangling_graph dangling_trace) [EvToggle "D"; EvPoll]
               = Some (state_after dangling_graph
                         (dangling_trace ++ [EvToggle "D"; EvPoll])))
    by (vm_compute; reflexivity).
  split; [exact H1|]. split; [exact H2|].
  exact (dead_end_never_finishes _ _ _ H1 H2).
Defined.

Lemma deadlock_outcome (s : RunState) (s1 : RunState) :
  processQueue_iter s = (IterDeadlock, s1) ->
  pending_of (tasksRef s) <> [] /\ running_of (tasksRef s) = [] /\
  executableTasks (tasksRef s) = [].
Proof.
  unfold processQueue_iter. unfold_monad.
  destruct ((length (pending_of (tasksRef s)) =? 0)%nat
            && (length (running_of (tasksRef s)) =? 0)%nat); [discriminate|].
  destruct ((length (running_of (tasksRef s)) <? MAX_CONCURRENCY)%nat
            && (0 <? length (executableTasks (tasksRef s)))%nat).
  { destruct (pick_next (executableTasks (tasksRef s))); discriminate. }
  destruct ((0 <? length (pending_of (tasksRef s)))%nat
            && (length (running_of (tasksRef s)) =? 0)%nat
            && (length (executableTasks (tasksRef s)) =? 0)%nat) eqn:H.
  - intros _. apply andb_true_iff in H as [H H3].
    apply andb_true_iff in H as [H1 H2].
    apply Nat.ltb_lt in H1. apply Nat.eqb_eq in H2, H3.
    split; [destruct (pending_of (tasksRef s)); [simpl in H1; lia|discriminate]|].
    split; [destruct (running_of (tasksRef s)); [reflexivity|discriminate]|].
    destruct (executableTasks (tasksRef s)); [reflexivity|discriminate].
  - destruct ((MAX_CONCURRENCY <=? length (running_of (tasksRef s)))%nat);
      discriminate.
Qed.

Lemma run_synthesis_final (tasks : list AgentTask) (tr : list Event) (s : RunState) :
  unique_ids tasks -> run (initial tasks) tr = Some s -> synthesis_final s.
Proof.
  intros Hu Hrun.
  assert (Hinv : calls_consistent s /\ synthesis_final s).
  { apply (run_invariant (fun s => calls_consistent s /\ synthesis_final s))
      with (tr := tr) (s := initial tasks).
    - intros s0 e s1 [H1 H2] Hstep. split.
      + eapply step_calls_consistent; eauto.
      + eapply step_synthesis_final; eauto.
    - split; [apply calls_consistent_initial, Hu|].
      intros fr0. simpl. discriminate.
    - exact Hrun. }
  apply Hinv.
Qed.

(** In a run from a graph with unique ids, once the run has started, a
    state in which a pass of the loop body would take the
    potential-deadlock branch is a dead end: no executor call is in
    flight, [handleStartExecution] is awaiting the queue or in its wait
    loop, and (by the dead-end property) it stays there. *)
Theorem deadlock_branch_means_dead_end
    (tasks : list AgentTask) (tr : list Event) (s : RunState) :
  unique_ids tasks ->
  run (initial tasks) (EvStart :: tr) = Some s ->
  fst (processQueue_iter s) = IterDeadlock ->
  dead_end s.
Proof.
  intros Hu Hrun Hdl.
  destruct (processQueue_iter s) as [o s1] eqn:Hit. simpl in Hdl. subst o.
  destruct (deadlock_outcome _ _ Hit) as (Hpe & Hr & He).
  pose proof (run_calls_consistent _ _ _ Hu Hrun) as Hinv.
  pose proof (run_synthesis_final _ _ _ Hu Hrun) as Hfin.
  destruct (run_launch_pending _ _ _ Hrun) as [Hns _].
  split; [|split; [|auto]].
  - destruct (phase s) as [| | |fr] eqn:Hp; auto; [congruence|].
    exfalso. destruct (Hfin fr Hp) as (Hterm & _).
    pose proof (pending_unfinished _ Hpe) as Hex.
    apply existsb_exists in Hex as (t & Ht & Hun).
    rewrite (terminal_not_unfinished t (Hterm t Ht)) in Hun. discriminate.
  - unfold in_flight. apply filter_nil_of. intros c Hin.
    destruct (call_settled c) eqn:Hs; [reflexivity|]. exfalso.
    destruct Hinv as (_ & _ & Hc & _).
    destruct (Hc c Hin) as (t & Ht & _ & Hst).
    assert (Hrun' : In t (running_of (tasksRef s))).
    { apply filter_In. split; [exact Ht|]. apply has_status_iff.
      destruct Hst as [Hst | [Hst _]]; [exact Hst|congruence]. }
    rewrite Hr in Hrun'. exact Hrun'.
Qed.

Lemma deadlock_branch_means_dead_end_witness :
  unique_ids dangling_graph /\
  run (initial dangling_graph)
      (EvStart :: [EvWakeMain; EvSettle 0 (Fulfilled (sample_result "ra")); EvPoll])
  = Some (state_after dangling_graph dangling_trace) /\
  fst (processQueue_iter (state_after dangling_graph dangling_trace)) = IterDeadlock /\
  dead_end (state_after dangling_graph dangling_trace).
Proof.
  assert (H1 : unique_ids dangling_graph) by solve_unique_ids.
  assert (H2 : run (initial dangling_graph)
                   (EvStart :: [EvWakeMain;
                                EvSettle 0 (Fulfilled (sample_result "ra")); EvPoll])
               = Some (state_after dangling_graph dangling_trace))
    by (vm_compute; reflexivity).
  assert (H3 : fst (processQueue_iter (state_after dangling_graph dangling_trace))
               = IterDeadlock) by (vm_compute; reflexivity).
  split; [exact H1|]. split; [exact H2|]. split; [exact H3|].
  exact (deadlock_branch_means_dead_end _ _ _ H1 H2 H3).
Defined.

(** * Further properties of the services *)

(** ** Sources without duplicate urls *)

Lemma existsb_url_seen (x : Source) (pre : list Source) :
  existsb (fun t => String.eqb (src_url t) (src_url x)) pre
  = existsb (String.eqb (src_url x)) (map src_url pre).
Proof.
  induction pre as [|y pre IH]; simpl; [reflexivity|].
  rewrite IH, (String.eqb_sym (src_url y)). reflexivity.
Qed.

Lemma findIndex_app_seen {A : Type} (p : A -> bool) (pre l : list A) :
  existsb p pre = true ->
  exists j, j < length pre /\ findIndex p (pre ++ l) = Some j.
Proof.
  induction pre as [|y pre IH]; simpl; [discriminate|].
  destruct (p y); simpl.
  - intros _. exists 0. split; [lia|reflexivity].
  - intros H. destruct (IH H) as (j & Hj & E). exists (S j).
    split; [lia|]. rewrite E. reflexivity.
Qed.

Lemma findIndex_app_fresh {A : Type} (p : A -> bool) (pre : list A) (x : A) (l : list A) :
  existsb p pre = false -> p x = true ->
  findIndex p (pre ++ x :: l) = Some (length pre).
Proof.
  induction pre as [|y pre IH]; simpl; intros H Hx.
  - rewrite Hx. reflexivity.
  - apply orb_false_iff in H as [Hy H]. rewrite Hy, (IH H Hx). reflexivity.
Qed.

Lemma existsb_eqb_In (u : string) (seen : list string) :
  existsb (String.eqb u) seen = true <-> In u seen.
Proof.
  rewrite existsb_exists. split.
  - intros (v & Hv & E). apply String_eqb_eq in E. subst. exact Hv.
  - intros H. exists u. split; [exact H|apply String.eqb_refl].
Qed.

Lemma first_of_each_url_seen (s1 s2 : list string) (l : list Source) :
  (forall u, In u s1 <-> In u s2) ->
  first_of_each_url s1 l = first_of_each_url s2 l.
Proof.
  revert s1 s2. induction l as [|x l IH]; simpl; intros s1 s2 H; [reflexivity|].
  assert (E : existsb (String.eqb (src_url x)) s1
              = existsb (String.eqb (src_url x)) s2).
  { apply eq_true_iff_eq. rewrite !existsb_eqb_In. apply H. }
  rewrite E. destruct (existsb (String.eqb (src_url x)) s2).
  - apply IH, H.
  - f_equal. apply IH. intros u. rewrite !in_app_iff, H. reflexivity.
Qed.

Lemma filter_index_first (a pre l : list Source) :
  a = pre ++ l ->
  filter_index
    (fun v i =>
       match findIndex (fun t => String.eqb (src_url t) (src_url v)) a with
       | Some j => Nat.eqb j i
       | None => false
       end) (length pre) l
  = first_of_each_url (map src_url pre) l.
Proof.
  revert pre. induction l as [|x l IH]; intros pre Ha; simpl; [reflexivity|].
  assert (Ha' : a = (pre ++ [x]) ++ l) by (rewrite <- app_assoc; exact Ha).
  specialize (IH (pre ++ [x]) Ha').
  rewrite length_app, Nat.add_1_r, map_app in IH. simpl in IH.
  rewrite <- existsb_url_seen.
  destruct (existsb (fun t => String.eqb (src_url t) (src_url x)) pre) eqn:E.
  - destruct (findIndex_app_seen _ pre (x :: l) E) as (j & Hj & Hf).
    rewrite Ha, Hf. replace (Nat.eqb j (length pre)) with false
      by (symmetry; apply Nat.eqb_neq; lia).
    rewrite <- Ha, IH. apply first_of_each_url_seen.
    intros u. rewrite in_app_iff. simpl.
    rewrite existsb_url_seen in E. apply existsb_eqb_In in E.
    split; [intros [H | [<- | []]]; assumption|auto].
  - rewrite Ha at 1.
    rewrite (findIndex_app_fresh _ pre x l E (String.eqb_refl _)), Nat.eqb_refl.
    f_equal. exact IH.
Qed.

Lemma dedup_by_url_first (a : list Source) :
  dedup_by_url a = first_of_each_url [] a.
Proof. apply (filter_index_first a [] a). reflexivity. Qed.

Lemma first_of_each_url_In (seen : list string) (l : list Source) (y : Source) :
  In y (first_of_each_url seen l) -> In y l /\ ~ In (src_url y) seen.
Proof.
  revert seen. induction l as [|x l IH]; simpl; intros seen; [tauto|].
  destruct (existsb (String.eqb (src_url x)) seen) eqn:E.
  - intros H. destruct (IH _ H). auto.
  - intros [<- | H].
    + split; [auto|]. intros Hin. apply existsb_eqb_In in Hin. congruence.
    + destruct (IH _ H) as [H1 H2]. split; [auto|].
      intros Hin. apply H2, in_or_app. auto.
Qed.

Lemma first_of_each_url_NoDup (seen : list string) (l : list Source) :
  NoDup (map src_url (first_of_each_url seen l)).
Proof.
  revert seen. induction l as [|x l IH]; simpl; intros seen; [constructor|].
  destruct (existsb (String.eqb (src_url x)) seen); [apply IH|].
  simpl. constructor; [|apply IH].
  intros Hin. apply list_elem_of_In, in_map_iff in Hin as (y & E & Hy).
  apply first_of_each_url_In in Hy as [_ Hy]. apply Hy, in_or_app.
  right. left. congruence.
Qed.

Lemma first_of_each_url_covers (seen : list string) (l : list Source) (x : Source) :
  In x l ->
  In (src_url x) seen \/
  exists y, In y (first_of_each_url seen l) /\ src_url y = src_url x.
Proof.
  revert seen. induction l as [|z l IH]; simpl; intros seen; [tauto|].
  intros [-> | Hx].
  - destruct (existsb (String.eqb (src_url x)) seen) eqn:E.
    + left. apply existsb_eqb_In, E.
    + right. exists x. split; [left|]; reflexivity.
  - destruct (existsb (String.eqb (src_url z)) seen) eqn:E.
    + apply IH, Hx.
    + destruct (IH (seen ++ [src_url z]) Hx) as [Hin | (y & Hy & Ey)].
      * apply in_app_or in Hin as [Hin | [Ez | []]]; [left; exact Hin|].
        right. exists z. split; [left; reflexivity|exact Ez].
      * right. exists y. split; [right; exact Hy|exact Ey].
Qed.

Lemma first_of_each_url_sublist (seen : list string) (l : list Source) :
  sublist (first_of_each_url seen l) l.
Proof.
  revert seen. induction l as [|x l IH]; simpl; intros seen; [constructor|].
  destruct (existsb (String.eqb (src_url x)) seen).
  - apply sublist_cons, IH.
  - apply sublist_skip, IH.
Qed.

Lemma first_of_each_url_id (seen : list string) (l : list Source) :
  (forall x, In x l -> ~ In (src_url x) seen) ->
  NoDup (map src_url l) -> first_of_each_url seen l = l.
Proof.
  revert seen. induction l as [|x l IH]; simpl; intros seen Hs Hnd; [reflexivity|].
  inversion Hnd as [|? ? Hnot Hl]; subst.
  destruct (existsb (String.eqb (src_url x)) seen) eqn:E.
  - apply existsb_eqb_In in E. exfalso. exact (Hs x (or_introl eq_refl) E).
  - f_equal. apply IH; [|exact Hl].
    intros y Hy Hin. apply in_app_or in Hin as [Hin | [Ey | []]].
    + exact (Hs y (or_intror Hy) Hin).
    + apply Hnot. rewrite Ey. apply list_elem_of_In, in_map, Hy.
Qed.

Lemma first_of_each_url_find (seen : list string) (l : list Source) (y : Source) :
  In y (first_of_each_url seen l) ->
  List.find (fun t => String.eqb (src_url t) (src_url y)) l = Some y.
Proof.
  revert seen. induction l as [|x l IH]; simpl; intros seen; [tauto|].
  destruct (existsb (String.eqb (src_url x)) seen) eqn:E.
  - intros Hy. pose proof (first_of_each_url_In _ _ _ Hy) as [_ Hfresh].
    apply existsb_eqb_In in E.
    destruct (String.eqb (src_url x) (src_url y)) eqn:Exy.
    + apply String_eqb_eq in Exy. exfalso. apply Hfresh. congruence.
    + apply (IH _ Hy).
  - intros [<- | Hy].
    + rewrite String.eqb_refl. reflexivity.
    + pose proof (first_of_each_url_In _ _ _ Hy) as [_ Hfresh].
      destruct (String.eqb (src_url x) (src_url y)) eqn:Exy.
      * apply String_eqb_eq in Exy. exfalso. apply Hfresh.
        apply in_or_app. right. left. exact Exy.
      * apply (IH _ Hy).
Qed.

(** The filter that removes duplicate sources keeps, in order, the first
    source of every url: the result has pairwise different urls, is a
    sublist of the input, loses no url of the input, leaves a list
    without duplicate urls as it is, and is therefore idempotent; and
    every source it keeps is the first source of the input with that
    url, so that for every source of the input the first source of the
    input with the same url is kept. *)
Theorem dedup_by_url_keeps_first (a : list Source) :
  NoDup (map src_url (dedup_by_url a)) /\
  sublist (dedup_by_url a) a /\
  (forall x, In x a -> exists y, In y (dedup_by_url a) /\ src_url y = src_url x) /\
  (NoDup (map src_url a) -> dedup_by_url a = a) /\
  dedup_by_url (dedup_by_url a) = dedup_by_url a /\
  (forall y, In y (dedup_by_url a) ->
     List.find (fun t => String.eqb (src_url t) (src_url y)) a = Some y) /\
  (forall x, In x a ->
     exists y, List.find (fun t => String.eqb (src_url t) (src_url x)) a = Some y /\
               In y (dedup_by_url a)).
Proof.
  assert (Hid : forall l, NoDup (map src_url l) -> dedup_by_url l = l).
  { intros l Hnd. rewrite dedup_by_url_first.
    apply first_of_each_url_id; [intros x _ []|exact Hnd]. }
  rewrite dedup_by_url_first.
  split; [apply first_of_each_url_NoDup|].
  split; [apply first_of_each_url_sublist|].
  split; [|split; [|split; [|split]]].
  - intros x Hx. destruct (first_of_each_url_covers [] a x Hx) as [[]|H]. exact H.
  - intros Hnd. rewrite <- dedup_by_url_first. apply Hid, Hnd.
  - apply Hid, first_of_each_url_NoDup.
  - intros y Hy. apply (first_of_each_url_find [] a y Hy).
  - intros x Hx.
    destruct (first_of_each_url_covers [] a x Hx) as [[]|(y & Hy & Ey)].
    exists y. split; [|exact Hy].
    rewrite <- Ey. apply (first_of_each_url_find [] a y Hy).
Qed.

(** Of two sources with one url the first is kept, the second dropped. *)
Example second_of_a_url_dropped :
  dedup_by_url
    [ {| src_title := "first"; src_url := "u"; src_snippet := None;
         src_source := None |};
      {| src_title := "other"; src_url := "v"; src_snippet := None;
         src_source := None |};
      {| src_title := "second"; src_url := "u"; src_snippet := None;
         src_source := None |} ]
  = [ {| src_title := "first"; src_url := "u"; src_snippet := None;
         src_source := None |};
      {| src_title := "other"; src_url := "v"; src_snippet := None;
         src_source := None |} ].
Proof. reflexivity. Qed.

(** ** What the executor returns *)

Lemma or_default_nonempty (o : option string) (d : string) :
  d <> "" -> or_default o d <> "".
Proof. intros Hd. destruct o as [[|c s]|]; simpl; congruence. Qed.

Lemma or_default_some (s d : string) : s <> "" -> or_default (Some s) d = s.
Proof. destruct s; simpl; congruence. Qed.

Lemma extractSources_NoDup (url_hostname : string -> option string)
    (response : GenerateContentResponse) (srcs : list Source) :
  extractSources url_hostname response = inr srcs -> NoDup (map src_url srcs).
Proof.
  unfold extractSources.
  destruct (candidates response) as [[|c cs]|]; try (intros [= <-]; constructor).
  destruct (groundingMetadata c) as [gm|]; try (intros [= <-]; constructor).
  destruct (groundingChunks gm) as [chunks|]; try (intros [= <-]; constructor).
  destruct (push_chunks url_hostname chunks []) as [e|out]; [discriminate|].
  intros [= <-]. rewrite dedup_by_url_first. apply first_of_each_url_NoDup.
Qed.

(** Whatever the backend call settles to, the result the executor hands
    to the scheduler has a non-empty text, so the context block built
    from it shows that text and never the words "No info", and its
    sources have pairwise different urls. *)
Theorem executor_result_wellformed
    (url_hostname : string -> option string) (task : AgentTask)
    (sharedContext : string) (backend : Settled GenerateContentResponse) :
  exists r,
    executeResearchTask url_hostname task sharedContext backend = Fulfilled r /\
    text r <> "" /\
    or_default (Some (text r)) "No info" = text r /\
    NoDup (map src_url (sources r)).
Proof.
  unfold executeResearchTask.
  destruct (try_block url_hostname backend) as [e|r] eqn:E.
  - exists failure_placeholder. split; [reflexivity|].
    split; [discriminate|]. split; [reflexivity|constructor].
  - exists r. split; [reflexivity|].
    unfold try_block in E. destruct backend as [response|reason]; [|discriminate].
    destruct (extractSources url_hostname response) as [e|srcs] eqn:Es;
      [discriminate|].
    injection E as <-. simpl.
    assert (Hne : or_default (response_text response) "No information found." <> "")
      by (apply or_default_nonempty; discriminate).
    split; [exact Hne|]. split; [apply or_default_some, Hne|].
    eapply extractSources_NoDup, Es.
Qed.

Lemma push_chunks_fail (url_hostname : string -> option string)
    (chunks : list GroundingChunk) (acc : list Source)
    (chunk : GroundingChunk) (w : WebChunk) :
  In chunk chunks -> web chunk = Some w ->
  url_hostname (or_default (web_uri w) "https://google.com") = None ->
  exists e, push_chunks url_hostname chunks acc = inl e.
Proof.
  intros Hin Hw Hbad. revert acc.
  induction chunks as [|c0 chunks IH]; simpl; intros acc; [destruct Hin|].
  destruct Hin as [-> | Hin].
  - rewrite Hw, Hbad. eauto.
  - destruct (web c0) as [w0|]; [|apply IH, Hin].
    destruct (url_hostname (or_default (web_uri w0) "https://google.com"));
      [apply IH, Hin|eauto].
Qed.

(** One grounding chunk whose uri the [URL] constructor rejects discards
    the whole answer: the executor returns the failure placeholder, not
    the text the backend produced nor any of the other sources. *)
Theorem invalid_uri_discards_result
    (url_hostname : string -> option string) (task : AgentTask)
    (sharedContext : string) (response : GenerateContentResponse)
    (c : Candidate) (cs : list Candidate) (gm : GroundingMetadata)
    (chunks : list GroundingChunk) (chunk : GroundingChunk) (w : WebChunk) :
  candidates response = Some (c :: cs) ->
  groundingMetadata c = Some gm ->
  groundingChunks gm = Some chunks ->
  In chunk chunks ->
  web chunk = Some w ->
  url_hostname (or_default (web_uri w) "https://google.com") = None ->
  executeResearchTask url_hostname task sharedContext (Fulfilled response)
  = Fulfilled {| text := "Failed to retrieve information for this task.";
                 sources := [] |}.
Proof.
  intros Hc Hgm Hch Hin Hw Hbad.
  destruct (push_chunks_fail url_hostname chunks [] chunk w Hin Hw Hbad) as [e He].
  unfold executeResearchTask, try_block, extractSources.
  rewrite Hc, Hgm, Hch, He. reflexivity.
Qed.

Lemma invalid_uri_discards_result_witness :
  candidates (response_with (Some "An answer")
                [web_chunk "https://www.example.org"; web_chunk "not a url"])
  = Some [ {| groundingMetadata :=
                Some {| groundingChunks :=
                          Some [web_chunk "https://www.example.org";
                                web_chunk "not a url"] |} |} ] /\
  In (web_chunk "not a url")
     [web_chunk "https://www.example.org"; web_chunk "not a url"] /\
  https_hostname (or_default (Some "not a url") "https://google.com") = None /\
  executeResearchTask https_hostname task_A ""
    (Fulfilled (response_with (Some "An answer")
                  [web_chunk "https://www.example.org"; web_chunk "not a url"]))
  = Fulfilled {| text := "Failed to retrieve information for this task.";
                 sources := [] |}.
Proof.
  assert (H1 : candidates (response_with (Some "An answer")
                  [web_chunk "https://www.example.org"; web_chunk "not a url"])
               = Some [ {| groundingMetadata :=
                             Some {| groundingChunks :=
                                       Some [web_chunk "https://www.example.org";
                                             web_chunk "not a url"] |} |} ])
    by reflexivity.
  assert (H2 : In (web_chunk "not a url")
                  [web_chunk "https://www.example.org"; web_chunk "not a url"])
    by (right; left; reflexivity).
  assert (H3 : https_hostname (or_default (Some "not a url") "https://google.com")
               = None) by reflexivity.
  split; [exact H1|]. split; [exact H2|]. split; [exact H3|].
  exact (invalid_uri_discards_result https_hostname task_A "" _ _ _ _ _ _ _
           H1 eq_refl eq_refl H2 eq_refl H3).
Defined.

Lemma push_chunks_ok (url_hostname : string -> option string)
    (chunks : list GroundingChunk) (acc out : list Source) :
  push_chunks url_hostname chunks acc = inr out ->
  exists new,
    out = acc ++ new /\ length new <= length chunks /\
    (forall s, In s new ->
       exists chunk w host,
         In chunk chunks /\ web chunk = Some w /\
         url_hostname (or_default (web_uri w) "https://google.com") = Some host /\
         s = source_of_chunk w host) /\
    (forall chunk w, In chunk chunks -> web chunk = Some w ->
       exists host,
         url_hostname (or_default (web_uri w) "https://google.com") = Some host /\
         In (source_of_chunk w host) new).
Proof.
  revert acc. induction chunks as [|c0 chunks IH]; simpl; intros acc.
  - intros [= <-]. exists []. rewrite app_nil_r.
    split; [reflexivity|]. split; [simpl; lia|]. split; [intros s []|intros ? ? []].
  - destruct (web c0) as [w0|] eqn:Hw0.
    + destruct (url_hostname (or_default (web_uri w0) "https://google.com"))
        as [host|] eqn:Hh; [|discriminate].
      intros H. destruct (IH _ H) as (new & -> & Hlen & Hfrom & Hall).
      exists (source_of_chunk w0 host :: new).
      split; [rewrite <- app_assoc; reflexivity|]. split; [simpl; lia|]. split.
      * intros s [<- | Hs].
        -- exists c0, w0, host. auto.
        -- destruct (Hfrom s Hs) as (chunk & w & h & Hin & ?).
           exists chunk, w, h. auto.
      * intros chunk w [<- | Hin] Hw.
        -- rewrite Hw0 in Hw. injection Hw as <-. exists host.
           split; [exact Hh|left; reflexivity].
        -- destruct (Hall chunk w Hin Hw) as (h & ? & ?). exists h.
           split; [assumption|right; assumption].
    + intros H. destruct (IH _ H) as (new & -> & Hlen & Hfrom & Hall).
      exists new. split; [reflexivity|]. split; [simpl; lia|]. split.
      * intros s Hs. destruct (Hfrom s Hs) as (chunk & w & h & Hin & ?).
        exists chunk, w, h. auto.
      * intros chunk w [<- | Hin] Hw; [congruence|]. apply (Hall chunk w Hin Hw).
Qed.

Lemma push_chunks_total (url_hostname : string -> option string)
    (chunks : list GroundingChunk) (acc : list Source) :
  (forall chunk w, In chunk chunks -> web chunk = Some w ->
     is_Some (url_hostname (or_default (web_uri w) "https://google.com"))) ->
  exists out, push_chunks url_hostname chunks acc = inr out.
Proof.
  revert acc. induction chunks as [|c0 chunks IH]; simpl; intros acc Hok; [eauto|].
  destruct (web c0) as [w0|] eqn:Hw0; [|apply IH; eauto].
  destruct (Hok c0 w0 (or_introl eq_refl) Hw0) as [host Hh]. rewrite Hh.
  apply IH; eauto.
Qed.

(** When the [URL] constructor accepts the uri of every web chunk of the
    first candidate, the executor returns the text of the response (or
    "No information found." when that is empty or missing) with at most
    one source per chunk; every source is the one built from some web
    chunk, and the url of every web chunk is the url of a source. *)
Theorem grounded_sources_returned
    (url_hostname : string -> option string) (task : AgentTask)
    (sharedContext : string) (response : GenerateContentResponse)
    (c : Candidate) (cs : list Candidate) (gm : GroundingMetadata)
    (chunks : list GroundingChunk) :
  candidates response = Some (c :: cs) ->
  groundingMetadata c = Some gm ->
  groundingChunks gm = Some chunks ->
  (forall chunk w, In chunk chunks -> web chunk = Some w ->
     is_Some (url_hostname (or_default (web_uri w) "https://google.com"))) ->
  exists r,
    executeResearchTask url_hostname task sharedContext (Fulfilled response)
    = Fulfilled r /\
    text r = or_default (response_text response) "No information found." /\
    length (sources r) <= length chunks /\
    (forall s, In s (sources r) ->
       exists chunk w host,
         In chunk chunks /\ web chunk = Some w /\
         url_hostname (or_default (web_uri w) "https://google.com") = Some host /\
         s = source_of_chunk w host) /\
    (forall chunk w, In chunk chunks -> web chunk = Some w ->
       exists s, In s (sources r) /\ src_url s = or_default (web_uri w) "#").
Proof.
  intros Hc Hgm Hch Hok.
  destruct (push_chunks_total url_hostname chunks [] Hok) as [out Hout].
  destruct (push_chunks_ok _ _ _ _ Hout) as (new & E & Hlen & Hfrom & Hall).
  simpl in E. subst new.
  unfold executeResearchTask, try_block, extractSources.
  rewrite Hc, Hgm, Hch, Hout. eexists. split; [reflexivity|]. simpl.
  split; [reflexivity|].
  pose proof (first_of_each_url_sublist [] out) as Hsub.
  rewrite dedup_by_url_first. split; [|split].
  - apply sublist_length in Hsub. lia.
  - intros s Hs. apply Hfrom.
    apply first_of_each_url_In in Hs as [Hs _]. exact Hs.
  - intros chunk w Hin Hw. destruct (Hall chunk w Hin Hw) as (host & _ & Hs).
    destruct (first_of_each_url_covers [] out _ Hs) as [[]|(y & Hy & Ey)].
    exists y. split; [exact Hy|]. rewrite Ey. reflexivity.
Qed.

Lemma grounded_sources_returned_witness :
  candidates (response_with None
                [web_chunk "https://www.example.org";
                 web_chunk "https://www.example.org"; {| web := None |}])
  = Some [ {| groundingMetadata :=
                Some {| groundingChunks :=
                          Some [web_chunk "https://www.example.org";
                                web_chunk "https://www.example.org";
                                {| web := None |}] |} |} ] /\
  (forall chunk w,
     In chunk [web_chunk "https://www.example.org";
               web_chunk "https://www.example.org"; {| web := None |}] ->
     web chunk = Some w ->
     is_Some (https_hostname (or_default (web_uri w) "https://google.com"))) /\
  exists r,
    executeResearchTask https_hostname task_A ""
      (Fulfilled (response_with None
                    [web_chunk "https://www.example.org";
                     web_chunk "https://www.example.org"; {| web := None |}]))
    = Fulfilled r /\
    text r = or_default None "No information found." /\
    length (sources r) <= 3 /\
    (forall s, In s (sources r) ->
       exists chunk w host,
         In chunk [web_chunk "https://www.example.org";
                   web_chunk "https://www.example.org"; {| web := None |}] /\
         web chunk = Some w /\
         https_hostname (or_default (web_uri w) "https://google.com") = Some host /\
         s = source_of_chunk w host) /\
    (forall chunk w,
       In chunk [web_chunk "https://www.example.org";
                 web_chunk "https://www.example.org"; {| web := None |}] ->
       web chunk = Some w ->
       exists s, In s (sources r) /\ src_url s = or_default (web_uri w) "#").
Proof.
  assert (H1 : candidates (response_with None
                  [web_chunk "https://www.example.org";
                   web_chunk "https://www.example.org"; {| web := None |}])
               = Some [ {| groundingMetadata :=
                             Some {| groundingChunks :=
                                       Some [web_chunk "https://www.example.org";
                                             web_chunk "https://www.example.org";
                                             {| web := None |}] |} |} ])
    by reflexivity.
  assert (H2 : forall chunk w,
             In chunk [web_chunk "https://www.example.org";
                       web_chunk "https://www.example.org"; {| web := None |}] ->
             web chunk = Some w ->
             is_Some (https_hostname (or_default (web_uri w) "https://google.com"))).
  { intros chunk w [<- | [<- | [<- | []]]] [= <-]; eexists; reflexivity. }
  split; [exact H1|]. split; [exact H2|].
  exact (grounded_sources_returned https_hostname task_A "" _ _ _ _ _
           H1 eq_refl eq_refl H2).
Defined.

(** The two equal chunks of that example give one source, named after
    the host without its leading "www.". *)
Example duplicate_chunks_one_source :
  executeResearchTask https_hostname task_A ""
    (Fulfilled (response_with None
                  [web_chunk "https://www.example.org";
                   web_chunk "https://www.example.org"; {| web := None |}]))
  = Fulfilled {| text := "No information found.";
                 sources := [ {| src_title := "A page";
                                 src_url := "https://www.example.org";
                                 src_snippet := Some "";
                                 src_source := Some "example.org" |} ] |}.
Proof. reflexivity. Qed.

(** ** The planner *)

Lemma planResearch_shape (JSON_parse : string -> option (list PlannedTask))
    (query : string) (backend : Settled (option string)) (t : AgentTask) :
  In t (planResearch JSON_parse query backend) ->
  status t = Pending /\ is_Some (dependencies t).
Proof.
  unfold planResearch, fallback_plan.
  destruct backend as [txt|reason].
  - destruct (JSON_parse (or_default txt "[]")) as [tasks|].
    + intros H. apply in_map_iff in H as (p & <- & _). simpl. eauto.
    + intros [<- | []]. simpl. eauto.
  - intros [<- | []]. simpl. eauto.
Qed.

(** Whatever the planner's backend call settles to, the task list that
    [handleSearch] hands to the scheduler has the ids of the plan in
    order, every task pending, of priority normal and with a defined
    dependency list, so no task is running when the run starts.  When
    the text parses, the list has one task per parsed object: a status
    or priority that the object carries is overwritten (pending,
    normal), a missing dependency list becomes the empty list, and
    every other key, a result included, is carried over as parsed. *)
Theorem planned_tasks_start_pending
    (JSON_parse : string -> option (list PlannedTask))
    (query : string) (backend : Settled (option string)) :
  map id (initialTasks JSON_parse query backend)
  = map id (planResearch JSON_parse query backend) /\
  (forall t, In t (initialTasks JSON_parse query backend) ->
     status t = Pending /\ priority t = Some Normal /\
     is_Some (dependencies t)) /\
  running_count (initialTasks JSON_parse query backend) = 0 /\
  (forall txt tasks,
     backend = Fulfilled txt ->
     JSON_parse (or_default txt "[]") = Some tasks ->
     initialTasks JSON_parse query backend
     = map (fun p =>
              {| id := planned_id p; title := planned_title p;
                 agentRole := planned_agentRole p;
                 description := planned_description p;
                 goal := planned_goal p; status := Pending;
                 priority := Some Normal;
                 dependencies := Some (default [] (planned_dependencies p));
                 result := planned_result p |}) tasks).
Proof.
  assert (Hshape : forall t, In t (initialTasks JSON_parse query backend) ->
             status t = Pending /\ priority t = Some Normal /\
             is_Some (dependencies t)).
  { unfold initialTasks. intros t Ht. apply in_map_iff in Ht as (t0 & <- & Ht0).
    destruct (planResearch_shape _ _ _ _ Ht0) as (H1 & H2). simpl. auto. }
  split; [|split; [exact Hshape|split]].
  - unfold initialTasks. rewrite map_map. reflexivity.
  - unfold running_count, running_of. rewrite filter_nil_of; [reflexivity|].
    intros t Ht. destruct (Hshape t Ht) as (Hs & _).
    unfold has_status. rewrite Hs. reflexivity.
  - intros txt tasks -> Hparse. unfold initialTasks, planResearch.
    rewrite Hparse, map_map. apply map_ext. intros p.
    unfold plan_task, with_priority. simpl.
    destruct (planned_dependencies p); reflexivity.
Qed.

(** A parsed object that carries a status, a priority and a result. *)
Example parsed_status_and_priority_overwritten :
  initialTasks
    (fun _ => Some [ {| planned_id := "task-1"; planned_title := "T";
                        planned_agentRole := "R"; planned_description := None;
                        planned_goal := "G"; planned_status := Some Completed;
                        planned_priority := Some High;
                        planned_dependencies := None;
                        planned_result := Some (sample_result "kept") |} ])
    "q" (Fulfilled (Some "[...]"))
  = [ {| id := "task-1"; title := "T"; agentRole := "R"; description := None;
         goal := "G"; status := Pending; priority := Some Normal;
         dependencies := Some []; result := Some (sample_result "kept") |} ].
Proof. reflexivity. Qed.

(** When the planner's backend call is rejected, or the parser throws on
    its text, the plan is the single fallback task, whose goal quotes
    the query; the start of the run launches it at once, with an empty
    context. *)
Theorem planner_failure_falls_back
    (JSON_parse : string -> option (list PlannedTask))
    (query : string) (backend : Settled (option string)) :
  (exists reason, backend = Rejected reason) \/
  (exists txt, backend = Fulfilled txt /\
               JSON_parse (or_default txt "[]") = None) ->
  initialTasks JSON_parse query backend
  = map (fun t => with_priority t (Some Normal)) (fallback_plan query) /\
  exists s',
    step (initial (initialTasks JSON_parse query backend)) EvStart = Some s' /\
    map id (tasksRef s') = ["task-fallback"] /\
    map goal (tasksRef s') = ["Find information about: " +:+ query] /\
    map status (tasksRef s') = [Running] /\
    map call_context (calls s') = [""] /\
    phase s' = AwaitingQueue.
Proof.
  intros H.
  assert (E : planResearch JSON_parse query backend = fallback_plan query).
  { unfold planResearch. destruct H as [(reason & ->)|(txt & -> & ->)]; reflexivity. }
  unfold initialTasks. rewrite E. split; [reflexivity|].
  eexists. split; [reflexivity|]. repeat split.
Qed.

Lemma planner_failure_falls_back_witness :
  ((exists reason, Rejected "quota exceeded" = Rejected (A := option string) reason) \/
   (exists txt, Rejected "quota exceeded" = Fulfilled txt /\
                parse_empty_only (or_default txt "[]") = None)) /\
  (initialTasks parse_empty_only "tides" (Rejected "quota exceeded")
   = map (fun t => with_priority t (Some Normal)) (fallback_plan "tides") /\
   exists s',
     step (initial (initialTasks parse_empty_only "tides" (Rejected "quota exceeded")))
          EvStart = Some s' /\
     map id (tasksRef s') = ["task-fallback"] /\
     map goal (tasksRef s') = ["Find information about: " +:+ "tides"] /\
     map status (tasksRef s') = [Running] /\
     map call_context (calls s') = [""] /\
     phase s' = AwaitingQueue).
Proof.
  assert (H : (exists reason,
                 Rejected "quota exceeded" = Rejected (A := option string) reason) \/
              (exists txt, Rejected "quota exceeded" = Fulfilled txt /\
                           parse_empty_only (or_default txt "[]") = None))
    by (left; eexists; reflexivity).
  split; [exact H|].
  exact (planner_failure_falls_back parse_empty_only "tides" _ H).
Defined.

(** When the backend's text is missing or empty and the parser reads
    "[]" as the empty array, the plan is empty, and the start of the run
    goes straight to synthesis with no task and no agent result. *)
Theorem empty_plan_goes_to_synthesis
    (JSON_parse : string -> option (list PlannedTask))
    (query : string) (txt : option string) :
  JSON_parse "[]" = Some [] ->
  txt = None \/ txt = Some "" ->
  initialTasks JSON_parse query (Fulfilled txt) = [] /\
  step (initial (initialTasks JSON_parse query (Fulfilled txt))) EvStart
  = Some (set_phase (initial []) (Synthesizing [])).
Proof.
  intros Hparse Htxt.
  assert (E : initialTasks JSON_parse query (Fulfilled txt) = []).
  { unfold initialTasks, planResearch.
    destruct Htxt as [-> | ->]; simpl; rewrite Hparse; reflexivity. }
  rewrite E. split; reflexivity.
Qed.

Lemma empty_plan_goes_to_synthesis_witness :
  parse_empty_only "[]" = Some [] /\
  (@None string = None \/ None = Some "") /\
  (initialTasks parse_empty_only "tides" (Fulfilled None) = [] /\
   step (initial (initialTasks parse_empty_only "tides" (Fulfilled None))) EvStart
   = Some (set_phase (initial []) (Synthesizing []))).
Proof.
  assert (H1 : parse_empty_only "[]" = Some []) by reflexivity.
  assert (H2 : @None string = None \/ None = Some "") by (left; reflexivity).
  split; [exact H1|]. split; [exact H2|].
  exact (empty_plan_goes_to_synthesis parse_empty_only "tides" None H1 H2).
Defined.

(** ** The synthesizer *)

Lemma allSources_In (agentResults : list (AgentTask * SearchResult)) (x : Source) :
  In x (allSources agentResults) <->
  exists item, In item agentResults /\ In x (sources (snd item)).
Proof. unfold allSources. apply in_flat_map. Qed.

(** A fulfilled backend call gives a report with a non-empty text whose
    sources have pairwise different urls, each taken from some agent
    result, and among which the url of every source of every agent
    result occurs; a rejected backend call rejects the report, with the
    fixed message, and no placeholder report is returned. *)
Theorem synthesizeReport_sources
    (query : string) (agentResults : list (AgentTask * SearchResult))
    (backend : Settled GenerateContentResponse) :
  (forall response, backend = Fulfilled response ->
     exists r,
       synthesizeReport query agentResults backend = Fulfilled r /\
       text r <> "" /\
       NoDup (map src_url (sources r)) /\
       (forall y, In y (sources r) ->
          exists item, In item agentResults /\ In y (sources (snd item))) /\
       (forall item x, In item agentResults -> In x (sources (snd item)) ->
          exists y, In y (sources r) /\ src_url y = src_url x)) /\
  (forall reason, backend = Rejected reason ->
     synthesizeReport query agentResults backend
     = Rejected "Failed to synthesize final report.").
Proof.
  split.
  - intros response ->. eexists. split; [reflexivity|]. simpl.
    split; [apply or_default_nonempty; discriminate|].
    unfold uniqueSources. rewrite dedup_by_url_first.
    split; [apply first_of_each_url_NoDup|]. split.
    + intros y Hy. apply first_of_each_url_In in Hy as [Hy _].
      apply allSources_In, Hy.
    + intros item x Hitem Hx.
      assert (Hin : In x (allSources agentResults)) by (apply allSources_In; eauto).
      destruct (first_of_each_url_covers [] _ _ Hin) as [[]|H]. exact H.
  - intros reason ->. reflexivity.
Qed.

(** * Further properties of the review-phase edits and the task cards *)

(** ** Updating a task *)

Lemma apply_no_updates (t : AgentTask) : apply_updates t no_updates = t.
Proof. destruct t; reflexivity. Qed.

Lemma default_default {A : Type} (x : A) (o : option A) :
  default (default x o) o = default x o.
Proof. destruct o; reflexivity. Qed.

Lemma apply_updates_twice (t : AgentTask) (u : TaskUpdates) :
  apply_updates (apply_updates t u) u = apply_updates t u.
Proof. unfold apply_updates. simpl. rewrite !default_default. reflexivity. Qed.

(** [handleUpdateTask] keeps the length of the list and every task whose
    id is not the given one; with no key in [updates] it changes
    nothing; when [updates] has no [id] key the ids of the list are
    kept; and applying the same update a second time changes nothing
    more. *)
Theorem handleUpdateTask_frame
    (taskId : string) (updates : TaskUpdates) (tasks : list AgentTask) :
  length (handleUpdateTask taskId updates tasks) = length tasks /\
  (forall i t, tasks !! i = Some t -> id t <> taskId ->
               handleUpdateTask taskId updates tasks !! i = Some t) /\
  (forall i t, tasks !! i = Some t -> id t = taskId ->
               handleUpdateTask taskId updates tasks !! i
               = Some (apply_updates t updates)) /\
  handleUpdateTask taskId no_updates tasks = tasks /\
  (upd_id updates = None ->
   map id (handleUpdateTask taskId updates tasks) = map id tasks) /\
  handleUpdateTask taskId updates (handleUpdateTask taskId updates tasks)
  = handleUpdateTask taskId updates tasks.
Proof.
  unfold handleUpdateTask. split; [apply length_map|]. split; [|split; [|split; [|split]]].
  - intros i t Hi Hne. rewrite lookup_map, Hi. simpl.
    apply String_eqb_neq in Hne. rewrite Hne. reflexivity.
  - intros i t Hi He. rewrite lookup_map, Hi. simpl.
    apply String_eqb_eq in He. rewrite He. reflexivity.
  - apply map_id_ext. intros t _.
    destruct (String.eqb (id t) taskId); [apply apply_no_updates|reflexivity].
  - intros Hid. rewrite map_map. apply map_ext. intros t.
    destruct (String.eqb (id t) taskId); [|reflexivity].
    simpl. rewrite Hid. reflexivity.
  - rewrite map_map. apply map_ext. intros t.
    destruct (String.eqb (id t) taskId) eqn:E; [|rewrite E; reflexivity].
    destruct (String.eqb (id (apply_updates t updates)) taskId);
      [apply apply_updates_twice|reflexivity].
Qed.

(** ** Adding a task *)

Lemma custom_id_inj (now1 now2 : N) :
  custom_id now1 = custom_id now2 -> now1 = now2.
Proof.
  unfold custom_id. intros H. apply String.app_inj in H.
  apply (inj pretty) in H. exact H.
Qed.

Lemma unique_ids_app_one (l : list AgentTask) (t : AgentTask) :
  unique_ids (l ++ [t]) <-> unique_ids l /\ ~ In (id t) (map id l).
Proof.
  unfold unique_ids. rewrite map_app, NoDup_app. simpl. split.
  - intros (H1 & H2 & _). split; [exact H1|]. intros Hin.
    apply (H2 (id t)); [apply list_elem_of_In, Hin|apply list_elem_of_singleton; reflexivity].
  - intros [H1 H2]. split; [exact H1|]. split; [|apply NoDup_singleton].
    intros x Hx Hx'. apply list_elem_of_singleton in Hx'. subst x.
    apply H2, list_elem_of_In, Hx.
Qed.

(** [handleAddTask] appends a task that is eligible at once (pending,
    without dependencies).  The ids of the list stay unique exactly when
    no task already has the id made from the clock; tasks added at
    different clock values get different ids, and two tasks added at the
    same clock value share their id. *)
Theorem handleAddTask_ids (now : N) (tasks : list AgentTask) :
  eligible (handleAddTask now tasks) (newTask now) /\
  In (newTask now) (executableTasks (handleAddTask now tasks)) /\
  (unique_ids (handleAddTask now tasks) <->
   unique_ids tasks /\ ~ In (custom_id now) (map id tasks)) /\
  (forall now', now' <> now -> id (newTask now') <> id (newTask now)) /\
  ~ unique_ids (handleAddTask now (handleAddTask now tasks)).
Proof.
  assert (He : eligible (handleAddTask now tasks) (newTask now)).
  { split; [reflexivity|]. intros d []. }
  split; [exact He|]. split; [|split; [|split]].
  - apply executableTasks_In. split; [|exact He].
    unfold handleAddTask. apply in_or_app. right. left. reflexivity.
  - unfold handleAddTask. apply unique_ids_app_one.
  - intros now' Hne E. apply Hne. simpl in E. apply custom_id_inj, E.
  - unfold handleAddTask. rewrite unique_ids_app_one. intros [_ H]. apply H.
    rewrite map_app. apply in_or_app. right. left. reflexivity.
Qed.

(** ** Deleting a task, again *)

Lemma with_dependencies_id t d : id (with_dependencies t d) = id t.
Proof. reflexivity. Qed.

Lemma handleDeleteTask_cons (taskId : string) (t : AgentTask) (l : list AgentTask) :
  handleDeleteTask taskId (t :: l)
  = if String.eqb (id t) taskId then handleDeleteTask taskId l
    else with_dependencies t
           (Some (List.filter (fun d => negb (String.eqb d taskId)) (deps_of t)))
         :: handleDeleteTask taskId l.
Proof.
  unfold handleDeleteTask. simpl. destruct (String.eqb (id t) taskId); simpl.
  - reflexivity.
  - unfold deps_of. destruct (dependencies t); reflexivity.
Qed.

Lemma filter_filter_same {A : Type} (p : A -> bool) (l : list A) :
  List.filter p (List.filter p l) = List.filter p l.
Proof.
  induction l as [|x l IH]; simpl; [reflexivity|].
  destruct (p x) eqn:E; simpl; rewrite ?E, IH; reflexivity.
Qed.

(** Deleting is idempotent, never lengthens the list, and undoes an
    addition: deleting the id of a task just added gives the list that
    deleting that id from the original list gives. *)
Theorem handleDeleteTask_idempotent (taskId : string) (now : N)
    (tasks : list AgentTask) :
  handleDeleteTask taskId (handleDeleteTask taskId tasks)
  = handleDeleteTask taskId tasks /\
  length (handleDeleteTask taskId tasks) <= length tasks /\
  handleDeleteTask (custom_id now) (handleAddTask now tasks)
  = handleDeleteTask (custom_id now) tasks.
Proof.
  split; [|split].
  - induction tasks as [|t l IH]; [reflexivity|].
    rewrite handleDeleteTask_cons.
    destruct (String.eqb (id t) taskId) eqn:E; [exact IH|].
    rewrite handleDeleteTask_cons, with_dependencies_id, E, IH.
    f_equal. unfold with_dependencies, deps_of. simpl.
    rewrite filter_filter_same. reflexivity.
  - induction tasks as [|t l IH]; [reflexivity|].
    rewrite handleDeleteTask_cons.
    destruct (String.eqb (id t) taskId); simpl; lia.
  - unfold handleAddTask. induction tasks as [|t l IH].
    + simpl. rewrite handleDeleteTask_cons. simpl.
      rewrite String.eqb_refl. reflexivity.
    + simpl. rewrite !handleDeleteTask_cons, IH. reflexivity.
Qed.

(** Deleting a task never blocks another one: a task of the list that
    was eligible, and is not the deleted one, is still in the list with
    the same id and status, and is still eligible. *)
Theorem delete_keeps_eligible
    (taskId : string) (tasks : list AgentTask) (t : AgentTask) :
  In t tasks ->
  id t <> taskId ->
  eligible tasks t ->
  exists t', In t' (handleDeleteTask taskId tasks) /\
             id t' = id t /\ status t' = status t /\
             eligible (handleDeleteTask taskId tasks) t'.
Proof.
  intros Ht Hne [Hpend Hdeps].
  exists (with_dependencies t
            (Some (List.filter (fun d => negb (String.eqb d taskId)) (deps_of t)))).
  split; [apply handleDeleteTask_In; eauto|].
  split; [reflexivity|]. split; [reflexivity|].
  split; [exact Hpend|].
  intros d Hd. unfold deps_of in Hd; simpl in Hd.
  apply filter_In in Hd as [Hd Hnd].
  apply negb_true_iff, String_eqb_neq in Hnd.
  destruct (Hdeps d Hd) as (c & Hc & Hid & Hst).
  eexists. split; [|split].
  - apply handleDeleteTask_In. exists c. split; [exact Hc|].
    split; [congruence|reflexivity].
  - exact Hid.
  - exact Hst.
Qed.

Lemma delete_keeps_eligible_witness :
  In task_C (with_status task_A Completed :: with_status task_B Completed
             :: task_C :: [task_D]) /\
  id task_C <> "D" /\
  eligible (with_status task_A Completed :: with_status task_B Completed
            :: task_C :: [task_D]) task_C /\
  exists t',
    In t' (handleDeleteTask "D"
             (with_status task_A Completed :: with_status task_B Completed
              :: task_C :: [task_D])) /\
    id t' = id task_C /\ status t' = status task_C /\
    eligible (handleDeleteTask "D"
                (with_status task_A Completed :: with_status task_B Completed
                 :: task_C :: [task_D])) t'.
Proof.
  assert (H1 : In task_C (with_status task_A Completed
                          :: with_status task_B Completed :: task_C :: [task_D]))
    by (right; right; left; reflexivity).
  assert (H2 : id task_C <> "D") by discriminate.
  assert (H3 : eligible (with_status task_A Completed
                         :: with_status task_B Completed :: task_C :: [task_D])
                        task_C).
  { split; [reflexivity|]. intros d [<- | [<- | []]].
    - exists (with_status task_A Completed).
      split; [left; reflexivity|]. split; reflexivity.
    - exists (with_status task_B Completed).
      split; [right; left; reflexivity|]. split; reflexivity. }
  split; [exact H1|]. split; [exact H2|]. split; [exact H3|].
  exact (delete_keeps_eligible "D" _ task_C H1 H2 H3).
Defined.

(** ** Dependency buttons *)

Lemma toggled_deps_In (deps : list string) (o d : string) :
  In d (toggled_deps deps o) <->
  (d <> o /\ In d deps) \/ (d = o /\ ~ In o deps).
Proof.
  unfold toggled_deps.
  destruct (existsb (String.eqb o) deps) eqn:E.
  - apply existsb_eqb_In in E. rewrite filter_In, negb_true_iff, String_eqb_neq.
    split; [intros [H1 H2]; left; auto|]. intros [[H1 H2] | [_ H]]; tauto.
  - assert (Hno : ~ In o deps).
    { intros H. apply existsb_eqb_In in H. congruence. }
    rewrite in_app_iff. simpl. split.
    + intros [H | [<- | []]]; [left|right; auto]. split; [|exact H]. congruence.
    + intros [[_ H] | [-> _]]; auto.
Qed.

Lemma filter_app_fresh (deps : list string) (o : string) :
  ~ In o deps ->
  List.filter (fun d => negb (String.eqb d o)) (deps ++ [o]) = deps.
Proof.
  intros H. rewrite List.filter_app. simpl. rewrite String.eqb_refl. simpl.
  rewrite app_nil_r. induction deps as [|d deps IH]; simpl; [reflexivity|].
  destruct (String.eqb d o) eqn:E.
  - apply String_eqb_eq in E. exfalso. apply H. left. exact E.
  - simpl. f_equal. apply IH. intros Hin. apply H. right. exact Hin.
Qed.

(** A click on the dependency button of [other] in the card of [task]
    flips whether the id of [other] is among the dependencies of the
    task at that position and keeps every other dependency, the id and
    the status; and when the id was not a dependency, a second click
    gives back the dependency list the task had. *)
Theorem toggle_dependency_flips
    (tasks : list AgentTask) (i : nat) (task other : AgentTask) :
  tasks !! i = Some task ->
  exists task',
    toggle_dependency task other tasks !! i = Some task' /\
    id task' = id task /\ status task' = status task /\
    (In (id other) (deps_of task') <-> ~ In (id other) (deps_of task)) /\
    (forall d, d <> id other -> (In d (deps_of task') <-> In d (deps_of task))) /\
    (~ In (id other) (deps_of task) ->
     exists task'',
       toggle_dependency task' other (toggle_dependency task other tasks) !! i
       = Some task'' /\
       deps_of task'' = deps_of task).
Proof.
  intros Hi.
  assert (Hfirst : toggle_dependency task other tasks !! i
                   = Some (apply_updates task
                             (dependencies_update
                                (toggled_deps (deps_of task) (id other))))).
  { unfold toggle_dependency, handleUpdateTask.
    rewrite lookup_map, Hi. simpl. rewrite String.eqb_refl. reflexivity. }
  eexists. split; [exact Hfirst|].
  split; [reflexivity|]. split; [reflexivity|]. split; [|split].
  - unfold deps_of at 1. simpl. rewrite toggled_deps_In. tauto.
  - intros d Hd. unfold deps_of at 1. simpl. rewrite toggled_deps_In. tauto.
  - intros Hno. eexists. split.
    + unfold toggle_dependency at 1. unfold handleUpdateTask at 1.
      rewrite lookup_map, Hfirst. simpl. rewrite String.eqb_refl. reflexivity.
    + unfold deps_of at 1 2. simpl. unfold toggled_deps at 2.
      assert (E : existsb (String.eqb (id other)) (deps_of task) = false).
      { destruct (existsb (String.eqb (id other)) (deps_of task)) eqn:E;
          [|reflexivity]. apply existsb_eqb_In in E. contradiction. }
      rewrite E. unfold toggled_deps.
      assert (E' : existsb (String.eqb (id other)) (deps_of task ++ [id other]) = true).
      { apply existsb_eqb_In, in_or_app. right. left. reflexivity. }
      change (deps_of (apply_updates task
                         (dependencies_update (deps_of task ++ [id other]))))
        with (deps_of task ++ [id other]).
      rewrite E'. apply filter_app_fresh, Hno.
Qed.

Lemma toggle_dependency_flips_witness :
  review_graph !! 2 = Some (mkTask "E" ["A"] Normal) /\
  exists task',
    toggle_dependency (mkTask "E" ["A"] Normal) (with_status task_B Completed)
      review_graph !! 2 = Some task' /\
    id task' = id (mkTask "E" ["A"] Normal) /\
    status task' = status (mkTask "E" ["A"] Normal) /\
    (In (id (with_status task_B Completed)) (deps_of task') <->
     ~ In (id (with_status task_B Completed)) (deps_of (mkTask "E" ["A"] Normal))) /\
    (forall d, d <> id (with_status task_B Completed) ->
       (In d (deps_of task') <-> In d (deps_of (mkTask "E" ["A"] Normal)))) /\
    (~ In (id (with_status task_B Completed)) (deps_of (mkTask "E" ["A"] Normal)) ->
     exists task'',
       toggle_dependency task' (with_status task_B Completed)
         (toggle_dependency (mkTask "E" ["A"] Normal)
            (with_status task_B Completed) review_graph) !! 2
       = Some task'' /\
       deps_of task'' = deps_of (mkTask "E" ["A"] Normal)).
Proof.
  assert (H : review_graph !! 2 = Some (mkTask "E" ["A"] Normal)) by reflexivity.
  split; [exact H|].
  exact (toggle_dependency_flips review_graph 2 _ (with_status task_B Completed) H).
Defined.

Lemma handleUpdateTask_In (taskId : string) (u : TaskUpdates)
    (tasks : list AgentTask) (t' : AgentTask) :
  In t' (handleUpdateTask taskId u tasks) <->
  exists t, In t tasks /\
            t' = if String.eqb (id t) taskId then apply_updates t u else t.
Proof.
  unfold handleUpdateTask. rewrite in_map_iff.
  split; intros (t & H1 & H2); exists t; auto.
Qed.

(** The edits of the review phase keep the dependency lists in order:
    when every dependency names another task of the list, this is still
    so after a task is added, after a task is deleted, and after a click
    on a dependency button that the card of a task of the list shows. *)
Theorem review_edits_keep_dependencies_resolved (tasks : list AgentTask) :
  dependencies_resolved tasks ->
  (forall now, dependencies_resolved (handleAddTask now tasks)) /\
  (forall taskId, dependencies_resolved (handleDeleteTask taskId tasks)) /\
  (forall task other,
     In task tasks -> In other (dependency_candidates task tasks) ->
     dependencies_resolved (toggle_dependency task other tasks)).
Proof.
  intros Hres. split; [|split].
  - intros now t d Ht Hd. unfold handleAddTask in *.
    apply in_app_or in Ht as [Ht | [<- | []]]; [|destruct Hd].
    destruct (Hres t d Ht Hd) as (Hne & u & Hu & Hid).
    split; [exact Hne|]. exists u. split; [apply in_or_app; auto|exact Hid].
  - intros taskId t' d Ht' Hd.
    apply handleDeleteTask_In in Ht' as (t & Ht & Hne & ->).
    unfold deps_of in Hd; simpl in Hd. apply filter_In in Hd as [Hd Hnd].
    apply negb_true_iff, String_eqb_neq in Hnd.
    destruct (Hres t d Ht Hd) as (Hself & u & Hu & Hid).
    split; [exact Hself|]. eexists. split.
    + apply handleDeleteTask_In. exists u. split; [exact Hu|].
      split; [congruence|reflexivity].
    + exact Hid.
  - intros task other Htask Hother t' d Ht' Hd.
    apply filter_In in Hother as [Hother Hne].
    apply negb_true_iff, String_eqb_neq in Hne.
    assert (Hkeep : forall u, In u tasks ->
              exists u', In u' (toggle_dependency task other tasks) /\ id u' = id u).
    { intros u Hu. eexists. split.
      - apply handleUpdateTask_In. exists u. split; [exact Hu|reflexivity].
      - destruct (String.eqb (id u) (id task)); reflexivity. }
    apply handleUpdateTask_In in Ht' as (t & Ht & ->).
    destruct (String.eqb (id t) (id task)) eqn:E.
    + apply String_eqb_eq in E. unfold deps_of in Hd at 1; simpl in Hd.
      apply toggled_deps_In in Hd as [[_ Hd] | [-> _]].
      * destruct (Hres task d Htask Hd) as (Hself & u & Hu & Hid).
        split; [simpl; congruence|].
        destruct (Hkeep u Hu) as (u' & Hu' & Hid'). exists u'.
        split; [exact Hu'|congruence].
      * split; [simpl; congruence|].
        destruct (Hkeep other Hother) as (u' & Hu' & Hid'). eauto.
    + destruct (Hres t d Ht Hd) as (Hself & u & Hu & Hid).
      split; [exact Hself|].
      destruct (Hkeep u Hu) as (u' & Hu' & Hid'). exists u'.
      split; [exact Hu'|congruence].
Qed.

Lemma review_edits_keep_dependencies_resolved_witness :
  dependencies_resolved review_graph /\
  ((forall now, dependencies_resolved (handleAddTask now review_graph)) /\
   (forall taskId, dependencies_resolved (handleDeleteTask taskId review_graph)) /\
   (forall task other,
      In task review_graph -> In other (dependency_candidates task review_graph) ->
      dependencies_resolved (toggle_dependency task other review_graph))).
Proof.
  assert (H : dependencies_resolved review_graph).
  { intros t d [<- | [<- | [<- | []]]] Hd; simpl in Hd; try tauto.
    destruct Hd as [<- | []]. split; [discriminate|].
    exists (with_status task_A Completed). split; [left|]; reflexivity. }
  split; [exact H|].
  exact (review_edits_keep_dependencies_resolved review_graph H).
Defined.

(** ** Toggling a priority twice *)

Lemma toggle_one_twice (taskId : string) (t : AgentTask) :
  (id t = taskId -> status t = Pending -> priority t <> None) ->
  toggle_one taskId (toggle_one taskId t) = t.
Proof.
  intros H. unfold toggle_one.
  destruct (String.eqb (id t) taskId && Status_eqb (status t) Pending) eqn:E.
  - simpl. rewrite E. apply andb_true_iff in E as [E1 E2].
    apply String_eqb_eq in E1. apply Status_eqb_eq in E2.
    specialize (H E1 E2). destruct t as [? ? ? ? ? ? [[|]|] ? ?]; simpl in *;
      [reflexivity|reflexivity|congruence].
  - rewrite E. reflexivity.
Qed.

Lemma toggle_one_twice_high (taskId : string) (t : AgentTask) :
  is_high (priority (toggle_one taskId (toggle_one taskId t)))
  = is_high (priority t).
Proof.
  unfold toggle_one.
  destruct (String.eqb (id t) taskId && Status_eqb (status t) Pending) eqn:E.
  - simpl. rewrite E. simpl. destruct (priority t) as [[|]|]; reflexivity.
  - rewrite E. reflexivity.
Qed.

(** Two toggles of the same id give back the task list, provided the
    pending tasks of that id have a defined priority, as every task has
    once [handleSearch] has set the priorities; without that proviso the
    list after two toggles still has the same tasks of priority high, so
    the scheduler selects as before. *)
Theorem toggleTaskPriority_twice (taskId : string) (tasks : list AgentTask) :
  (forall t, In t tasks -> id t = taskId -> status t = Pending ->
             priority t <> None) ->
  toggleTaskPriority taskId (toggleTaskPriority taskId tasks) = tasks /\
  (forall l : list AgentTask,
     map (fun t => is_high (priority t))
         (toggleTaskPriority taskId (toggleTaskPriority taskId l))
     = map (fun t => is_high (priority t)) l).
Proof.
  intros H. unfold toggleTaskPriority. split.
  - rewrite map_map. apply map_id_ext. intros t Ht.
    apply toggle_one_twice. eauto.
  - intros l. rewrite !map_map. apply map_ext. intros t.
    apply toggle_one_twice_high.
Qed.

Lemma toggleTaskPriority_twice_witness :
  (forall t, In t chain_graph -> id t = "B" -> status t = Pending ->
             priority t <> None) /\
  (toggleTaskPriority "B" (toggleTaskPriority "B" chain_graph) = chain_graph /\
   (forall l : list AgentTask,
      map (fun t => is_high (priority t))
          (toggleTaskPriority "B" (toggleTaskPriority "B" l))
      = map (fun t => is_high (priority t)) l)).
Proof.
  assert (H : forall t, In t chain_graph -> id t = "B" -> status t = Pending ->
                        priority t <> None).
  { intros t [<- | [<- | [<- | []]]] _ _; discriminate. }
  split; [exact H|].
  exact (toggleTaskPriority_twice "B" chain_graph H).
Defined.

(** ** The "waiting for dependency" mark *)

Lemma find_id_unique (l : list AgentTask) (d : string) (c : AgentTask) :
  unique_ids l -> In c l -> id c = d ->
  List.find (fun t => String.eqb (id t) d) l = Some c.
Proof.
  intros Hu Hc Hid.
  destruct (List.find (fun t => String.eqb (id t) d) l) as [t|] eqn:E.
  - apply find_some in E as [Ht Et]. apply String_eqb_eq in Et.
    f_equal. eapply unique_ids_eq; eauto. congruence.
  - eapply find_none in E; [|exact Hc]. simpl in E.
    apply String_eqb_neq in E. contradiction.
Qed.

Lemma found_completed_iff (l : list AgentTask) (d : string) :
  unique_ids l ->
  match List.find (fun t => String.eqb (id t) d) l with
  | Some t => Status_eqb (status t) Completed
  | None => false
  end = true <->
  exists c, In c l /\ id c = d /\ status c = Completed.
Proof.
  intros Hu. split.
  - destruct (List.find (fun t => String.eqb (id t) d) l) as [t|] eqn:E;
      [|discriminate].
    intros Hs. apply find_some in E as [Ht Et].
    apply String_eqb_eq in Et. apply Status_eqb_eq in Hs. eauto.
  - intros (c & Hc & Hid & Hst).
    rewrite (find_id_unique l d c Hu Hc Hid). apply Status_eqb_eq, Hst.
Qed.

(** With unique ids, while the run is searching, the card of a pending
    task shows it as waiting for a dependency exactly when the scheduler
    does not count it eligible; a task that is not pending, and any task
    outside the searching state, is never shown as waiting. *)
Theorem isBlocked_agrees_with_scheduler
    (tasks : list AgentTask) (task : AgentTask) :
  unique_ids tasks ->
  (status task = Pending ->
   (isBlocked SEARCHING tasks task = false <-> eligible tasks task)) /\
  (status task <> Pending -> isBlocked SEARCHING tasks task = false) /\
  (forall st, st <> SEARCHING -> isBlocked st tasks task = false).
Proof.
  intros Hu. split; [|split].
  - intros Hp. unfold isBlocked, eligible. rewrite Hp. simpl.
    split.
    + intros Hb. split; [reflexivity|]. intros d Hd.
      apply (found_completed_iff tasks d Hu).
      destruct (match List.find (fun t => String.eqb (id t) d) tasks with
                | Some t => Status_eqb (status t) Completed
                | None => false
                end) eqn:E; [reflexivity|].
      assert (Hex : existsb
                (fun depId =>
                   negb (match List.find (fun t => String.eqb (id t) depId) tasks with
                         | Some t => Status_eqb (status t) Completed
                         | None => false
                         end)) (deps_of task) = true).
      { apply existsb_exists. exists d. split; [exact Hd|]. rewrite E. reflexivity. }
      congruence.
    + intros [_ Hd]. apply existsb_false_of. intros d Hin.
      apply negb_false_iff, (found_completed_iff tasks d Hu), Hd, Hin.
  - intros Hnp. unfold isBlocked.
    destruct (status task); try reflexivity. contradiction.
  - intros st Hst. unfold isBlocked. destruct st; try reflexivity. contradiction.
Qed.

Lemma isBlocked_agrees_with_scheduler_witness :
  unique_ids review_graph /\
  ((status (mkTask "E" ["A"] Normal) = Pending ->
    (isBlocked SEARCHING review_graph (mkTask "E" ["A"] Normal) = false <->
     eligible review_graph (mkTask "E" ["A"] Normal))) /\
   (status (mkTask "E" ["A"] Normal) <> Pending ->
    isBlocked SEARCHING review_graph (mkTask "E" ["A"] Normal) = false) /\
   (forall st, st <> SEARCHING ->
               isBlocked st review_graph (mkTask "E" ["A"] Normal) = false)).
Proof.
  assert (H : unique_ids review_graph) by solve_unique_ids.
  split; [exact H|].
  exact (isBlocked_agrees_with_scheduler review_graph _ H).
Defined.

(** Without unique ids the card and the scheduler can disagree: the
    card looks at the first task of the id, the scheduler at any. *)
Remark shared_id_blocked_yet_launched :
  isBlocked SEARCHING shared_id_graph (mkTask "E" ["A"] Normal) = true /\
  In (mkTask "E" ["A"] Normal) (executableTasks shared_id_graph).
Proof. split; [reflexivity|]. right. left. reflexivity. Qed.

(** * The executor's failure is a completion *)

(** What the completion handler and the pass it starts do to the task
    list, position by position: a task of the settled call's id becomes
    completed, any other task is kept or, when the pass launches it,
    becomes running. *)
Lemma settle_positions (t0 : AgentTask) (r : SearchResult)
    (s1 : RunState) (o : IterOutcome) (s2 : RunState) :
  processQueue_iter (completed_by t0 r s1) = (o, s2) ->
  length (tasksRef s2) = length (tasksRef s1) /\
  (forall j t, tasksRef s1 !! j = Some t -> id t = id t0 ->
               tasksRef s2 !! j = Some (with_status t Completed)) /\
  (forall j t, tasksRef s1 !! j = Some t -> id t <> id t0 ->
               tasksRef s2 !! j = Some t \/
               tasksRef s2 !! j = Some (with_status t Running)) /\
  (forall k, k <> id t0 -> taskResultsMap s2 !! k = taskResultsMap s1 !! k).
Proof.
  intros Hit.
  assert (Hmid : forall j t, tasksRef s1 !! j = Some t ->
            tasksRef (completed_by t0 r s1) !! j
            = Some (if String.eqb (id t) (id t0) then with_status t Completed else t)).
  { intros j t Hj. simpl. unfold updateStatus_list. rewrite lookup_map, Hj.
    reflexivity. }
  assert (Hdone : forall u, In u (tasksRef (completed_by t0 r s1)) ->
                            id u = id t0 -> status u = Completed).
  { simpl. intros u Hu E. apply updateStatus_list_In in Hu as (u0 & _ & ->).
    destruct (String.eqb (id u0) (id t0)) eqn:E0; [reflexivity|].
    apply String_eqb_neq in E0. contradiction. }
  destruct (processQueue_iter_spec (completed_by t0 r s1))
    as [(o' & _ & Eq)|(n & _ & Hp & Eq)];
    rewrite Eq in Hit; injection Hit as <- <-.
  - split; [simpl; unfold updateStatus_list; apply length_map|].
    split; [|split].
    + intros j t Hj E. rewrite (Hmid j t Hj).
      apply String_eqb_eq in E. rewrite E. reflexivity.
    + intros j t Hj E. left. rewrite (Hmid j t Hj).
      apply String_eqb_neq in E. rewrite E. reflexivity.
    + intros k Hk. simpl. apply lookup_insert_ne. congruence.
  - apply pick_next_In, executableTasks_In in Hp as [Hn [Hpend _]].
    assert (Hne : id n <> id t0).
    { intros E. specialize (Hdone n Hn E). congruence. }
    assert (Hpos : forall j t, tasksRef s1 !! j = Some t ->
              tasksRef (launch n (completed_by t0 r s1)) !! j
              = Some (let m := if String.eqb (id t) (id t0)
                               then with_status t Completed else t in
                      if String.eqb (id m) (id n) then with_status m Running else m)).
    { intros j t Hj. cbn [tasksRef launch]. unfold updateStatus_list at 1.
      rewrite lookup_map, (Hmid j t Hj). reflexivity. }
    split; [cbn [tasksRef launch completed_by]; unfold updateStatus_list;
            rewrite !length_map; reflexivity|].
    split; [|split].
    + intros j t Hj E. rewrite (Hpos j t Hj). cbv zeta.
      apply String_eqb_eq in E. rewrite E. simpl.
      apply String_eqb_eq in E.
      assert (En : String.eqb (id t) (id n) = false)
        by (apply String_eqb_neq; congruence).
      rewrite En. reflexivity.
    + intros j t Hj E. rewrite (Hpos j t Hj). cbv zeta.
      apply String_eqb_neq in E. rewrite E.
      destruct (String.eqb (id t) (id n)); [right|left]; reflexivity.
    + intros k Hk. simpl. apply lookup_insert_ne. congruence.
Qed.

(** C6.  The promise of [executeResearchTask] is fulfilled, never
    rejected, for every task and context: when the backend call is
    rejected, or [extractSources] throws on the response, its value is
    the placeholder (the explanatory text, no sources); when the [try]
    block succeeds, the text of the response with the extracted
    sources.  When that promise settles for a call in flight, the step
    is defined and is the step of a fulfilled promise; the value is
    stored under the task's id and no other entry of the result table
    changes; the task list keeps its length; every task of that id, at
    its position, becomes the same task with status completed (not
    failed); every other task is kept, or is the task that the next
    pass launches.  In a run from a graph with unique ids the call's
    task is in the list and running, so it is the task that is marked
    completed. *)
Theorem executor_failure_completes_task
    (url_hostname : string -> option string)
    (backend : Settled GenerateContentResponse)
    (s : RunState) (i : nat) (c : ExecutorCall) :
  calls s !! i = Some c ->
  call_settled c = false ->
  (forall task ctx,
     (forall reason, backend = Rejected reason ->
        executeResearchTask url_hostname task ctx backend
        = Fulfilled {| text := "Failed to retrieve information for this task.";
                       sources := [] |}) /\
     (forall response err,
        backend = Fulfilled response ->
        extractSources url_hostname response = inl err ->
        executeResearchTask url_hostname task ctx backend
        = Fulfilled {| text := "Failed to retrieve information for this task.";
                       sources := [] |}) /\
     (forall response srcs,
        backend = Fulfilled response ->
        extractSources url_hostname response = inr srcs ->
        executeResearchTask url_hostname task ctx backend
        = Fulfilled {| text := or_default (response_text response)
                                          "No information found.";
                       sources := srcs |}) /\
     exists r,
       executeResearchTask url_hostname task ctx backend = Fulfilled r /\
       (forall err, try_block url_hostname backend = inl err ->
                    r = {| text := "Failed to retrieve information for this task.";
                           sources := [] |}) /\
       (forall r0, try_block url_hostname backend = inr r0 -> r = r0)) /\
  exists r s',
    executeResearchTask url_hostname (call_task c) (call_context c) backend
    = Fulfilled r /\
    step s (EvSettle i (executeResearchTask url_hostname (call_task c)
                          (call_context c) backend)) = Some s' /\
    step s (EvSettle i (Fulfilled r)) = Some s' /\
    taskResultsMap s' !! id (call_task c) = Some r /\
    (forall k, k <> id (call_task c) ->
               taskResultsMap s' !! k = taskResultsMap s !! k) /\
    length (tasksRef s') = length (tasksRef s) /\
    (forall j t, tasksRef s !! j = Some t -> id t = id (call_task c) ->
                 tasksRef s' !! j = Some (with_status t Completed)) /\
    (forall j t, tasksRef s !! j = Some t -> id t <> id (call_task c) ->
                 tasksRef s' !! j = Some t \/
                 tasksRef s' !! j = Some (with_status t Running)) /\
    (forall t, In t (tasksRef s') -> id t = id (call_task c) ->
               status t = Completed) /\
    (forall tasks tr,
       unique_ids tasks -> run (initial tasks) tr = Some s ->
       exists j t,
         tasksRef s !! j = Some t /\ id t = id (call_task c) /\
         status t = Running /\
         tasksRef s' !! j = Some (with_status t Completed)).
Proof.
  intros Hc Hs.
  assert (Hex : forall task ctx, exists r,
             executeResearchTask url_hostname task ctx backend = Fulfilled r /\
             (forall err, try_block url_hostname backend = inl err ->
                          r = failure_placeholder) /\
             (forall r0, try_block url_hostname backend = inr r0 -> r = r0)).
  { intros task ctx. unfold executeResearchTask.
    destruct (try_block url_hostname backend) as [err|r0].
    - exists failure_placeholder. repeat split; congruence.
    - exists r0. repeat split; congruence. }
  split.
  { intros task ctx. split; [|split; [|split; [|exact (Hex task ctx)]]].
    - intros reason ->. reflexivity.
    - intros response err -> He. unfold executeResearchTask, try_block.
      rewrite He. reflexivity.
    - intros response srcs -> He. unfold executeResearchTask, try_block.
      rewrite He. reflexivity. }
  destruct (Hex (call_task c) (call_context c)) as (r & Hr & _).
  rewrite Hr. exists r.
  assert (Hstep : exists o s1,
             processQueue_iter (completed_by (call_task c) r (mark_settled i s))
             = (o, s1) /\
             step s (EvSettle i (Fulfilled r))
             = Some (match o with
                     | IterDelay => set_spawned s1 (S (spawned s1))
                     | _ => s1
                     end)).
  { cbn [step]. rewrite Hc, Hs, on_fulfilled_eq.
    destruct (processQueue_iter
                (completed_by (call_task c) r (mark_settled i s)))
      as [o s1] eqn:E.
    exists o, s1. split; reflexivity. }
  destruct Hstep as (o & s1 & Hit & Hstep).
  destruct (completion_effect _ _ _ _ _ Hit) as [Hm Ht].
  destruct (settle_positions _ _ _ _ _ Hit) as (Hlen & Hsame & Hother & Hres).
  simpl in Hlen, Hsame, Hother, Hres.
  assert (Hcore : same_core s1 (match o with
                                | IterDelay => set_spawned s1 (S (spawned s1))
                                | _ => s1
                                end)) by (destruct o; repeat split).
  destruct Hcore as (Hts & Hms & _).
  eexists. split; [reflexivity|]. split; [exact Hstep|]. split; [exact Hstep|].
  rewrite Hts, Hms.
  split; [exact Hm|]. split; [exact Hres|]. split; [exact Hlen|].
  split; [exact Hsame|]. split; [exact Hother|]. split; [exact Ht|].
  intros tasks tr Hu Hrun.
  destruct (run_calls_consistent _ _ _ Hu Hrun) as (_ & _ & Hcc & _).
  destruct (Hcc c (lookup_In _ _ _ Hc)) as (t & Hin & Hid & Hst).
  apply list_elem_of_In, list_elem_of_lookup in Hin as [j Hj].
  exists j, t. split; [exact Hj|]. split; [exact Hid|]. split.
  - destruct Hst as [Hst | [Hst _]]; [exact Hst|congruence].
  - apply Hsame; assumption.
Qed.

(** [task_A] is in flight and the backend call fails: the placeholder is
    what the executor returns and what is stored for [task_A], which is
    marked completed, and [task_B] is launched. *)
Lemma executor_failure_completes_task_witness :
  calls (state_after chain_graph [EvStart]) !! 0
  = Some (last_call (state_after chain_graph [EvStart])) /\
  call_settled (last_call (state_after chain_graph [EvStart])) = false /\
  executeResearchTask no_hostname task_A "" backend_down
  = Fulfilled {| text := "Failed to retrieve information for this task.";
                 sources := [] |} /\
  exists s',
    step (state_after chain_graph [EvStart])
         (EvSettle 0 (executeResearchTask no_hostname task_A "" backend_down))
    = Some s' /\
    taskResultsMap s' !! "A"
    = Some {| text := "Failed to retrieve information for this task.";
              sources := [] |} /\
    length (tasksRef s') = 3 /\
    tasksRef s' !! 0 = Some (with_status task_A Completed) /\
    (tasksRef s' !! 1 = Some task_B \/
     tasksRef s' !! 1 = Some (with_status task_B Running)) /\
    (tasksRef s' !! 2 = Some task_C \/
     tasksRef s' !! 2 = Some (with_status task_C Running)) /\
    map status (tasksRef s') = [Completed; Running; Pending].
Proof.
  assert (H1 : calls (state_after chain_graph [EvStart]) !! 0
               = Some (last_call (state_after chain_graph [EvStart])))
    by (vm_compute; reflexivity).
  assert (H2 : call_settled (last_call (state_after chain_graph [EvStart])) = false)
    by (vm_compute; reflexivity).
  split; [exact H1|]. split; [exact H2|].
  destruct (executor_failure_completes_task no_hostname backend_down _ _ _ H1 H2)
    as (Hexec & r & s' & Hr & Hstep & _ & Hm & _ & Hlen & Hsame & Hother & _).
  destruct (Hexec task_A "") as (Hrej & _).
  pose proof (Hrej "network error" eq_refl) as Hph.
  split; [exact Hph|].
  assert (Er : r = {| text := "Failed to retrieve information for this task.";
                      sources := [] |}).
  { change (call_task (last_call (state_after chain_graph [EvStart])))
      with task_A in Hr.
    change (call_context (last_call (state_after chain_graph [EvStart])))
      with "" in Hr.
    rewrite Hph in Hr. injection Hr as <-. reflexivity. }
  subst r. exists s'.
  change (call_task (last_call (state_after chain_graph [EvStart])))
    with task_A in *.
  change (call_context (last_call (state_after chain_graph [EvStart])))
    with "" in *.
  split; [exact Hstep|]. split; [exact Hm|]. split; [exact Hlen|].
  split; [exact (Hsame 0 (with_status task_A Running) eq_refl eq_refl)|].
  split; [apply (Hother 1 task_B eq_refl); discriminate|].
  split; [apply (Hother 2 task_C eq_refl); discriminate|].
  vm_compute in Hstep. injection Hstep as <-. reflexivity.
Defined.
